(** * kivy_garden.graph: tick generation, axis transforms and label layout

    A shallow embedding of the numeric core of
    [src/kivy_garden/graph/__init__.py]:

    - [Graph._get_ticks]      (tick generator),
    - [Plot.x_px], [Plot.unproject], [Graph.to_data]  (axis transforms),
    - [Graph._update_labels]  (label layout and overlap fallback),

    and of the drawing code built on it:

    - [Plot.get_px_bounds], [Plot.iterate_points], [Graph.collide_plot],
    - the meshes of [MeshLinePlot], [MeshStemPlot], [HBar], [VBar] and
      [BarPlot], [BarPlot.update_bar_width],
      [LineAndMarkerPlot.simplify_points], the markers of
      [LineAndMarkerPlot],
    - [Graph._update_ticks], [Graph._update_plots], the secondary axes,
      [Graph._redraw_x], [Graph._redraw_y], [Graph._redraw_all] and
      [Graph._redraw_size].

    Numbers.  Python floats and ints are idealised as exact rationals [Q];
    [==] on numbers is [Qeq].  [math.floor], [math.ceil] and [int] are
    [Qfloor], [Qceiling] and truncation towards zero.  The transcendental
    functions are not rational-valued, so [math.log10] and the float power
    [10 ** x] are parameters ([log10r], [pow10r]) of the embedding; the
    domain check of [math.log10] and the zero check of [/] are modelled,
    as is the bound check of list item assignment.  The [while True] loop
    of the log branch runs on a bound [fuel] on its iterations.

    Rounding.  Over [Q] no operation rounds: the embedding is the program
    on the calls none of whose float operations rounds, and a statement that
    depends on exact arithmetic says so.  The module [F64] has the linear
    tick generator and the pixel transform on binary64 numbers; its runs
    show calls that round and what the rounding changes. *)

From Stdlib Require Import ZArith QArith Qround Qabs Lia Lqa Bool String.
From Stdlib Require Import Sorted Permutation SetoidList DecimalString.
From Stdlib Require Floats Uint63.
From stdpp Require Import base list.
Import ListNotations.

#[local] Unset Default Proof Using.
#[local] Open Scope Q_scope.

(** ** Python runtime *)

Module Py.

Inductive exn : Type :=
| ZeroDivisionError
| ValueError
| IndexError
| TypeError.

Inductive result (A : Type) : Type :=
| Ok (a : A)
| Raise (e : exn).
Arguments Ok {A} a.
Arguments Raise {A} e.

Definition bind {A B : Type} (c : result A) (k : A -> result B) : result B :=
  match c with
  | Ok a => k a
  | Raise e => Raise e
  end.

Fixpoint mapM {A B : Type} (f : A -> result B) (l : list A) : result (list B) :=
  match l with
  | [] => Ok []
  | a :: l' =>
      bind (f a) (fun b => bind (mapM f l') (fun bs => Ok (b :: bs)))
  end.

(** Truth value of a number: non-zero. *)
Definition truthy (q : Q) : bool := negb (Qeq_bool q 0).

(** [a < b] and [a <= b] as booleans. *)
Definition ltb (a b : Q) : bool := negb (Qle_bool b a).
Definition leb (a b : Q) : bool := Qle_bool a b.

(** [a / b]: raises [ZeroDivisionError] on a zero divisor. *)
Definition truediv (a b : Q) : result Q :=
  if Qeq_bool b 0 then Raise ZeroDivisionError else Ok (a / b).

(** [a % b] for a non-zero divisor: the result has the sign of [b]. *)
Definition mod_ (a b : Q) : Q := a - b * inject_Z (Qfloor (a / b)).

(** [max(a, b)]: the first argument unless the second is larger. *)
Definition max (a b : Q) : Q := if ltb a b then b else a.

(** [int(x)]: truncation towards zero. *)
Definition int (x : Q) : Z := Z.quot (Qnum x) (Zpos (Qden x)).

(** [10 ** n] for an [int] exponent. *)
Definition pow10i (n : Z) : Q := Qpower 10 n.

(** [[v] * n]: the empty list when [n <= 0]. *)
Definition repeat_list (v : Q) (n : Z) : list Q := replicate (Z.to_nat n) v.

(** [l[k] = v] for [k >= 0]: raises [IndexError] out of range. *)
Definition setitem (l : list Q) (k : nat) (v : Q) : result (list Q) :=
  if (k <? length l)%nat then Ok (<[k := v]> l) else Raise IndexError.

(** [l[k]] for [k >= 0]. *)
Definition getitem {A : Type} (l : list A) (k : nat) : result A :=
  match l !! k with
  | Some a => Ok a
  | None => Raise IndexError
  end.

(** [sorted(l, reverse=r)]: a stable sort; with [reverse] the order is
    descending and equal elements keep their original order. *)
Fixpoint insert_sorted (r : bool) (x : Q) (l : list Q) : list Q :=
  match l with
  | [] => [x]
  | y :: l' =>
      if (if r then leb y x else leb x y)
      then x :: y :: l'
      else y :: insert_sorted r x l'
  end.

Fixpoint sorted (r : bool) (l : list Q) : list Q :=
  match l with
  | [] => []
  | x :: l' => insert_sorted r x (sorted r l')
  end.

End Py.
Import Py.

Notation "'let*' x ':=' c 'in' k" := (bind c (fun x => k))
  (at level 10, x pattern, c at level 100, k at level 200,
   format "'[v' 'let*'  x  ':='  c  'in' '/' k ']'").

(** [for m in ms: st = body(st, m)], stopping at the first exception. *)
Fixpoint for_each {S A : Type} (body : S -> A -> result S) (ms : list A)
  (st : S) : result S :=
  match ms with
  | [] => Ok st
  | m :: ms' => let* st' := body st m in for_each body ms' st'
  end.

(** [range(0, n)]. *)
Definition range (n : Z) : list Z := map Z.of_nat (seq 0 (Z.to_nat n)).

(** ** Tick generator: [Graph._get_ticks] *)

(** A tick specification is a number or an explicit list/tuple of positions. *)
Inductive tickspec : Type :=
| Num (q : Q)
| Seq (l : list Q).

Definition is_seq (t : tickspec) : bool :=
  match t with
  | Seq _ => true
  | Num _ => false
  end.

(** [type(major)()]: the empty value of the type of [major]. *)
Definition empty_like (t : tickspec) : tickspec :=
  match t with
  | Seq _ => Seq []
  | Num _ => Num 0
  end.

(** [s_min <= p <= s_max or s_min >= p >= s_max]. *)
Definition in_range (s_min s_max p : Q) : bool :=
  (leb s_min p && leb p s_max) || (leb p s_min && leb s_max p).

(** [p in l], by numeric equality. *)
Definition contains (l : list Q) (p : Q) : bool := existsb (Qeq_bool p) l.

(** The two preallocated tick buffers with their fill positions. *)
Record tickbuf : Type := TickBuf {
  points_major : list Q;
  points_minor : list Q;
  k : nat;   (* position in points major *)
  k2 : nat   (* position in points minor *)
}.

Definition put_major (b : tickbuf) (v : Q) : result tickbuf :=
  let* pm := setitem (points_major b) (k b) v in
  Ok (TickBuf pm (points_minor b) (S (k b)) (k2 b)).

Definition put_minor (b : tickbuf) (v : Q) : result tickbuf :=
  let* pm := setitem (points_minor b) (k2 b) v in
  Ok (TickBuf (points_major b) pm (k b) (S (k2 b))).

(** The test [minor and m % minor] of the linear branch. *)
Definition is_minor (minor : Q) (m : Z) : bool :=
  truthy minor && truthy (mod_ (inject_Z m) minor).

Definition is_major (minor : Q) (m : Z) : bool := negb (is_minor minor m).

(** [m * tick_dist + s_min]. *)
Definition tick_pos (tick_dist s_min : Q) (m : Z) : Q :=
  inject_Z m * tick_dist + s_min.

(** Body of [for m in range(0, n_ticks)] of the linear branch. *)
Definition linear_step (minor tick_dist s_min : Q) (b : tickbuf) (m : Z)
  : result tickbuf :=
  if is_minor minor m
  then put_minor b (tick_pos tick_dist s_min m)
  else put_major b (tick_pos tick_dist s_min m).

(** The branch [elif not log and s_max != s_min], in exact arithmetic:
    the two quotients are not rounded.  [F64.get_ticks_linear] is the same
    branch on binary64 numbers. *)
Definition linear_ticks (major minor s_min s_max : Q) : result tickbuf :=
  let* tick_dist := truediv major (if truthy minor then minor else 1) in
  let* q := truediv (s_max - s_min) tick_dist in
  let n_ticks := (Qfloor (Qabs q) + 1)%Z in
  let tick_dist := Qabs tick_dist * (if ltb s_min s_max then 1 else -1) in
  let* q' := truediv (s_max - s_min) major in
  let points_major := repeat_list 0 (Qfloor (Qabs q') + 1) in
  let points_minor :=
    repeat_list 0 (n_ticks - Z.of_nat (length points_major) + 1) in
  for_each (linear_step minor tick_dist s_min) (range n_ticks)
    (TickBuf points_major points_minor 0 0).

Section Transcendental.

(** [math.log10] on its domain and the float power [10 ** x]. *)
Variable log10r : Q -> Q.
Variable pow10r : Q -> Q.

(** [math.log10(x)]: raises [ValueError] outside the domain. *)
Definition log10 (x : Q) : result Q :=
  if leb x 0 then Raise ValueError else Ok (log10r x).

(** [exp10(x)], i.e. [10 ** x]. *)
Definition exp10 (x : Q) : Q := pow10r x.

(** State of the [while True] loop of the log branch. *)
Record logstate : Type := LogState {
  buf : tickbuf;
  count : Z;       (* number of ticks we currently have passed start *)
  count_min : Q
}.

(** The [while True] loop of the log branch, in exact arithmetic (the
    positions [start_dec + decade_dist * count] do not drift); [None] when
    the iteration bound [fuel] is exhausted before the [break]. *)
Fixpoint log_loop (fuel : nat) (minor decade_dist min_pos start_dec s_max : Q)
  (st : logstate) : result (option tickbuf) :=
  match fuel with
  | O => Ok None
  | S fuel' =>
      let pos_dec := start_dec + decade_dist * inject_Z (count st) in
      let pos_dec_low := Qfloor pos_dec in
      let diff := pos_dec - inject_Z pos_dec_low in
      let zero := ltb (Qabs diff) ((1 # 1000) * decade_dist) in
      let* pos_log :=
        (if zero then Ok (inject_Z pos_dec_low)
         else log10 ((pos_dec - inject_Z pos_dec_low)
                     * pow10i (Qceiling pos_dec))) in
      if ltb s_max pos_log then Ok (Some (buf st))
      else
        let* b :=
          (if zero || leb min_pos diff then
             if truthy minor && negb (truthy (mod_ (count_min st) minor))
             then put_major (buf st) pos_log
             else put_minor (buf st) pos_log
           else Ok (buf st)) in
        log_loop fuel' minor decade_dist min_pos start_dec s_max
          (LogState b (count st + 1) (count_min st + 1))
  end.

(** The branch [if log and s_max > s_min]; also returns the rebound
    [s_min], [s_max] (their logarithms). *)
Definition log_ticks (fuel : nat) (major minor s_min s_max : Q)
  : result (option (tickbuf * Q * Q)) :=
  let* s_min := log10 s_min in
  let* s_max := log10 s_max in
  let n_decades := Qfloor (s_max - s_min) in
  let* n_decades :=
    (if negb (Z.eqb (Qfloor (s_min + inject_Z n_decades)) (Qfloor s_max))
     then
       let* d :=
         truediv (pow10r (s_min + inject_Z n_decades + 1) - pow10r s_max)
           (pow10i (Qfloor (s_max + 1))) in
       Ok (inject_Z n_decades + (1 - d))
     else
       let* d :=
         truediv (pow10r s_max - pow10r (s_min + inject_Z n_decades))
           (pow10i (Qfloor (s_max + 1))) in
       Ok (inject_Z n_decades + d)) in
  let* n_ticks_major := truediv n_decades major in
  let n_ticks :=
    (Qfloor (n_ticks_major * (if leb 1 minor then minor else 1)) + 2)%Z in
  let* decade_dist := truediv major (if truthy minor then minor else 1) in
  let points_minor := repeat_list 0 n_ticks in
  let points_major := repeat_list 0 n_ticks in
  let min_pos := (1 # 10) - (1 # 100000) * decade_dist in
  let s_min_low := Qfloor s_min in
  let* d := truediv (pow10r (s_min - inject_Z s_min_low - 1)) decade_dist in
  let start_dec := inject_Z (Qceiling d) * decade_dist in
  let* count_min :=
    (if negb (truthy minor) then Ok 0
     else
       let* d := truediv start_dec decade_dist in
       Ok (mod_ (inject_Z (Qfloor d)) minor)) in
  let start_dec := start_dec + inject_Z s_min_low in
  let* r := log_loop fuel minor decade_dist min_pos start_dec s_max
              (LogState (TickBuf points_major points_minor 0 0) 0 count_min) in
  Ok (option_map (fun b => (b, s_min, s_max)) r).

(** [Graph._get_ticks(major, minor, log, s_min, s_max)].  [None] only
    when the log branch exhausts [fuel]. *)
Definition get_ticks (fuel : nat) (major minor : tickspec) (log : bool)
  (s_min s_max : Q) : result (option (list Q * list Q)) :=
  let minor :=
    if negb (Bool.eqb (is_seq major) (is_seq minor))
    then empty_like major else minor in
  match major, minor with
  | Seq major, Seq minor =>
      let points_major := List.filter (in_range s_min s_max) major in
      let points_minor :=
        List.filter (fun p => in_range s_min s_max p
                              && negb (contains points_major p)) minor in
      let* points_major :=
        (if log then mapM log10 points_major else Ok points_major) in
      let* points_minor :=
        (if log then mapM log10 points_minor else Ok points_minor) in
      Ok (Some (sorted (ltb s_max s_min) points_major,
                sorted (ltb s_max s_min) points_minor))
  | Num major, Num minor =>
      if ltb 0 major then
        let minor := max minor 0 in
        let* r :=
          (if log && ltb s_min s_max then log_ticks fuel major minor s_min s_max
           else if negb log && negb (Qeq_bool s_max s_min) then
             let* b := linear_ticks major minor s_min s_max in
             Ok (Some (b, s_min, s_max))
           else Ok (Some (TickBuf [] [] 1 1, s_min, s_max))) in
        match r with
        | None => Ok None
        | Some (b, s_min, s_max) =>
            Ok (Some (sorted (ltb s_max s_min) (take (k b) (points_major b)),
                      sorted (ltb s_max s_min) (take (k2 b) (points_minor b))))
        end
      else Ok (Some (sorted (ltb s_max s_min) [], sorted (ltb s_max s_min) []))
  | _, _ =>
      (* not reached: after the replacement both have the same kind; a
         list used as a number, or a number iterated over, is a TypeError *)
      Raise TypeError
  end.

(** ** Axis transform: [Plot.x_px], [Plot.y_px], [Plot.unproject],
       [Graph.to_data] *)

(** A viewport [(x0, y0, x1, y1)]. *)
Record viewport : Type := Viewport { x0 : Q; y0 : Q; x1 : Q; y1 : Q }.

(** [Plot.params]. *)
Record plot_params : Type := PlotParams {
  p_xlog : bool; p_xmin : Q; p_xmax : Q;
  p_ylog : bool; p_ymin : Q; p_ymax : Q;
  p_size : viewport
}.

(** The class default of [Plot.params]. *)
Definition default_params : plot_params :=
  PlotParams false 0 100 false 0 100 (Viewport 0 0 0 0).

(** [Plot.update]. *)
Definition update (xlog : bool) (xmin xmax : Q) (ylog : bool) (ymin ymax : Q)
  (size : viewport) : plot_params :=
  PlotParams xlog xmin xmax ylog ymin ymax size.

(** [log10 if log else lambda x: x]. *)
Definition func (log : bool) (x : Q) : result Q :=
  if log then log10 x else Ok x.

Definition funcx (p : plot_params) : Q -> result Q := func (p_xlog p).
Definition funcy (p : plot_params) : Q -> result Q := func (p_ylog p).

(** [Plot.x_px()] and [Plot.y_px()], in exact arithmetic; [F64.x_px] is
    the linear case on binary64 numbers. *)
Definition x_px (p : plot_params) : result (Q -> result Q) :=
  let size := p_size p in
  let* xmin := funcx p (p_xmin p) in
  let* xmax := funcx p (p_xmax p) in
  let xrange := xmax - xmin in
  let* ratiox :=
    (if truthy xrange then truediv (x1 size - x0 size) xrange else Ok 0) in
  Ok (fun x => let* fx := funcx p x in Ok ((fx - xmin) * ratiox + x0 size)).

Definition y_px (p : plot_params) : result (Q -> result Q) :=
  let size := p_size p in
  let* ymin := funcy p (p_ymin p) in
  let* ymax := funcy p (p_ymax p) in
  let yrange := ymax - ymin in
  let* ratioy :=
    (if truthy yrange then truediv (y1 size - y0 size) yrange else Ok 0) in
  Ok (fun y => let* fy := funcy p y in Ok ((fy - ymin) * ratioy + y0 size)).

(** [Plot.unproject(x, y)], in exact arithmetic. *)
Definition unproject (p : plot_params) (x y : Q) : result (Q * Q) :=
  let size := p_size p in
  let xmin := p_xmin p in
  let xmax := p_xmax p in
  let xrange := xmax - xmin in
  let* ratiox :=
    (if truthy xrange then truediv (x1 size - x0 size) xrange else Ok 0) in
  let ymin := p_ymin p in
  let ymax := p_ymax p in
  let yrange := ymax - ymin in
  let* ratioy :=
    (if truthy yrange then truediv (y1 size - y0 size) yrange else Ok 0) in
  let* qx := truediv (x - x0 size) ratiox in
  let x0' := qx + xmin in
  let* qy := truediv (y - y0 size) ratioy in
  let y0' := qy + ymin in
  Ok (x0', y0').

(** The axis state of the graph and the geometry of its plot area. *)
Record axes : Type := Axes {
  xlog : bool; xmin : Q; xmax : Q;
  ylog : bool; ymin : Q; ymax : Q
}.

Record plot_area : Type := PlotArea { pos : Q * Q; size : Q * Q }.

(** The assignments of [Graph._redraw_size] to [_plot_area.pos] and
    [_plot_area.size]. *)
Definition place_plot_area (sz : viewport) : plot_area :=
  PlotArea (x0 sz, y0 sz) (x1 sz - x0 sz, y1 sz - y0 sz).

(** [Graph._update_plots] for a plot on the primary axes. *)
Definition update_plot (a : axes) (sz : viewport) : plot_params :=
  update (xlog a) (xmin a) (xmax a) (ylog a) (ymin a) (ymax a) sz.

(** One coordinate of [Graph.to_data]. *)
Definition to_data1 (log : bool) (amin amax : Q) (norm : Q) : result Q :=
  if log then
    let* lmin := log10 amin in
    let* lmax := log10 amax in
    Ok (pow10r (norm * (lmax - lmin) + lmin))
  else Ok (norm * (amax - amin) + amin).

(** [Graph.to_data(x, y)], in exact arithmetic. *)
Definition to_data (a : axes) (pa : plot_area) (x y : Q) : result (Q * Q) :=
  let adj_x := x - fst (pos pa) in
  let adj_y := y - snd (pos pa) in
  let* norm_x := truediv adj_x (fst (size pa)) in
  let* norm_y := truediv adj_y (snd (size pa)) in
  let* conv_x := to_data1 (xlog a) (xmin a) (xmax a) norm_x in
  let* conv_y := to_data1 (ylog a) (ymin a) (ymax a) norm_y in
  Ok (conv_x, conv_y).

(** ** Layout reconciler: [Graph._update_labels] *)

(** A label widget: its text, the size of its rendered texture, and its
    size and position. *)
Record label : Type := Label {
  text : string;
  texture_size : Q * Q;
  lsize : Q * Q;
  lpos : Q * Q;
  angle : Q
}.

Definition lwidth (l : label) : Q := fst (lsize l).
Definition lheight (l : label) : Q := snd (lsize l).
Definition lx (l : label) : Q := fst (lpos l).
Definition ly (l : label) : Q := snd (lpos l).
Definition ltop (l : label) : Q := ly l + lheight l.
Definition lright (l : label) : Q := lx l + lwidth l.

Definition set_text (l : label) (t : string) : label :=
  Label t (texture_size l) (lsize l) (lpos l) (angle l).
Definition set_size (l : label) (sz : Q * Q) : label :=
  Label (text l) (texture_size l) sz (lpos l) (angle l).
Definition set_pos (l : label) (p : Q * Q) : label :=
  Label (text l) (texture_size l) (lsize l) p (angle l).
Definition set_angle (l : label) (a : Q) : label :=
  Label (text l) (texture_size l) (lsize l) (lpos l) a.

(** [x_grid_label] / [y_grid_label]: a boolean, a callable, or a sequence
    of strings (a [str] is the sequence of its characters). *)
Inductive grid_label : Type :=
| GLBool (b : bool)
| GLCall (f : Q -> string)
| GLSeq (l : list string).

Definition gl_truthy (gl : grid_label) : bool :=
  match gl with
  | GLBool b => b
  | GLCall _ => true
  | GLSeq l => (0 <? length l)%nat
  end.

(** [l[k]] for a possibly negative index. *)
Definition getitem_z {A : Type} (l : list A) (k : Z) : result A :=
  let k' := (if k <? 0 then Z.of_nat (length l) + k else k)%Z in
  if (k' <? 0)%Z then Raise IndexError else getitem l (Z.to_nat k').

(** The state read and written by [_update_labels]. *)
Record graph : Type := Graph {
  g_x : Q; g_y : Q; g_width : Q; g_height : Q; g_padding : Q;
  g_axes : axes;
  g_xlabel : string;                 (* xlabel *)
  g_ylabel : string;                 (* ylabel *)
  g_xlabel_w : option label;         (* _xlabel *)
  g_ylabel_w : option label;         (* _ylabel *)
  g_ticks_majorx : list Q;           (* _ticks_majorx *)
  g_ticks_majory : list Q;           (* _ticks_majory *)
  g_x_grid_label : grid_label;       (* x_grid_label *)
  g_y_grid_label : grid_label;       (* y_grid_label *)
  g_x_grid_labels : list label;      (* _x_grid_label *)
  g_y_grid_labels : list label       (* _y_grid_label *)
}.

Section Layout.

(** Text measurement ([Label.texture_update]) and the default numeric
    formatting ([precision % value]). *)
Variable measure : string -> Q * Q.
Variable precision : Q -> string.

Definition texture_update (l : label) : label :=
  Label (text l) (measure (text l)) (lsize l) (lpos l) (angle l).

Definition funcexp (log : bool) (x : Q) : Q := if log then exp10 x else x.

(** The three forms of [get_text]. *)
Definition get_text (gl : grid_label) (log : bool) (points : list Q) (k : Z)
  : result string :=
  match gl with
  | GLCall f => let* p := getitem_z points k in Ok (f (funcexp log p))
  | GLSeq l => getitem_z l k
  | GLBool _ => let* p := getitem_z points k in Ok (precision (funcexp log p))
  end.

(** [try: labels[k].text = get_text(k) / except IndexError: ...]. *)
Definition try_get_text (gl : grid_label) (log : bool) (points : list Q)
  (k : nat) : result (option string) :=
  match get_text gl log points (Z.of_nat k) with
  | Ok t => Ok (Some t)
  | Raise IndexError => Ok None
  | Raise e => Raise e
  end.

(** First loop over the y tick labels, from index [k]: set the texts and
    sizes, track the largest width [y1]; [break] on [IndexError]. *)
Fixpoint y_text_loop (gl : grid_label) (log : bool) (points : list Q)
  (k : nat) (ls : list label) (y1 : Q) : result (list label * Q) :=
  match ls with
  | [] => Ok ([], y1)
  | l :: ls' =>
      let* t := try_get_text gl log points k in
      match t with
      | None => Ok (l :: ls', y1)
      | Some t =>
          let l := texture_update (set_text l t) in
          let l := set_size l (texture_size l) in
          let y1 := max y1 (fst (texture_size l)) in
          let* (ls'', y1) := y_text_loop gl log points (S k) ls' y1 in
          Ok (l :: ls'', y1)
      end
  end.

(** Second loop over the y tick labels: positions. *)
Fixpoint y_pos_loop (points : list Q) (x_next y1 y_start ymin ratio : Q)
  (k : nat) (ls : list label) : result (list label) :=
  match ls with
  | [] => Ok []
  | l :: ls' =>
      let* p := getitem points k in
      let l := set_pos l
        (inject_Z (int x_next) - lwidth l + y1,
         inject_Z (int (y_start + (p - ymin) * ratio))) in
      let* ls'' := y_pos_loop points x_next y1 y_start ymin ratio (S k) ls' in
      Ok (l :: ls'')
  end.

(** [len(ylabels) > 1 and ylabels[0].top > ylabels[1].y]. *)
Definition y_overlap_test (ls : list label) : bool :=
  match ls with
  | l0 :: l1 :: _ => ltb (ly l1) (ltop l0)
  | _ => false
  end.

(** The loop over the x tick labels, from index [k]; returns the labels
    and [x_overlap]. *)
Fixpoint x_loop (gl : grid_label) (log : bool) (points : list Q)
  (x_next y_next xmin ratio : Q) (k : nat) (ls : list label) (right : Q)
  : result (list label * bool) :=
  match ls with
  | [] => Ok ([], false)
  | l :: ls' =>
      let* t := try_get_text gl log points k in
      let l := match t with Some t => set_text l t | None => l end in
      let l := texture_update l in
      let l := set_size l (texture_size l) in
      let half_ts := fst (texture_size l) / 2 in
      let* p := getitem points k in
      let l := set_pos l
        (inject_Z (int (x_next + (p - xmin) * ratio - half_ts)),
         inject_Z (int y_next)) in
      if ltb (lx l) right then Ok (l :: ls', true)
      else
        let* (ls'', ov) :=
          x_loop gl log points x_next y_next xmin ratio (S k) ls' (lright l) in
        Ok (l :: ls'', ov)
  end.

Definition blank (ls : list label) : list label :=
  map (fun l => set_text l EmptyString) ls.

(** Result of a layout pass: the updated widgets and the returned
    4-tuple. *)
Record layout : Type := Layout {
  o_xlabel_w : option label;
  o_ylabel_w : option label;
  o_x_grid_labels : list label;
  o_y_grid_labels : list label;
  o_x_overlap : bool;
  o_y_overlap : bool;
  o_x_next : Q;
  o_y_next : Q;
  o_xextent : Q;
  o_yextent : Q;
  o_size : viewport
}.

(** The block [if len(ylabels) and ylabel_grid]. *)
Definition y_tick_labels (g : graph) (x_next y_next yextent : Q)
  : result (list label * Q * Q * bool) :=
  let ylabels := g_y_grid_labels g in
  let ypoints := g_ticks_majory g in
  let padding := g_padding g in
  let gl := g_y_grid_label g in
  let log := ylog (g_axes g) in
  if (0 <? length ylabels)%nat && gl_truthy gl then
    let* t := get_text gl log ypoints 0 in
    let* l0 := getitem ylabels 0 in
    let l0 := texture_update (set_text l0 t) in
    let ylabels := <[0%nat := l0]> ylabels in
    let y1 := texture_size l0 in
    let y_start :=
      y_next
      + (if (0 <? length (g_x_grid_labels g))%nat
            && gl_truthy (g_x_grid_label g)
         then padding + snd y1 else 0)
      + (if negb (truthy y_next) then padding + snd y1 else 0) in
    let yextent := g_y g + g_height g - padding - snd y1 / 2 in
    let* ymin := func log (ymin (g_axes g)) in
    let* ymax := func log (ymax (g_axes g)) in
    let* ratio := truediv (yextent - y_start) (ymax - ymin) in
    let y_start := y_start - snd y1 / 2 in
    let y1 := fst y1 in
    let* (ylabels, y1) := y_text_loop gl log ypoints 0 ylabels y1 in
    let* ylabels := y_pos_loop ypoints x_next y1 y_start ymin ratio 0 ylabels in
    if y_overlap_test ylabels
    then Ok (ylabels, x_next, yextent, true)
    else Ok (ylabels, x_next + (y1 + padding), yextent, false)
  else Ok (ylabels, x_next, yextent, false).

(** The block [if len(xlabels) and xlabel_grid]. *)
Definition x_tick_labels (g : graph) (x_next y_next xextent : Q)
  : result (list label * Q * Q * Q * bool) :=
  let xlabels := g_x_grid_labels g in
  let xpoints := g_ticks_majorx g in
  let padding := g_padding g in
  let gl := g_x_grid_label g in
  let log := xlog (g_axes g) in
  if (0 <? length xlabels)%nat && gl_truthy gl then
    let* t := get_text gl log xpoints (-1) in
    let* l0 := getitem xlabels 0 in
    let l0 := texture_update (set_text l0 t) in
    let xextent := g_x g + g_width g - fst (texture_size l0) / 2 - padding in
    let* (l0, x_next) :=
      (if negb (truthy x_next) then
         let* t := get_text gl log xpoints 0 in
         let l0 := texture_update (set_text l0 t) in
         Ok (l0, padding + fst (texture_size l0) / 2)
       else Ok (l0, x_next)) in
    let xlabels := <[0%nat := l0]> xlabels in
    let* xmin := func log (xmin (g_axes g)) in
    let* xmax := func log (xmax (g_axes g)) in
    let* ratio := truediv (xextent - x_next) (xmax - xmin) in
    let* (xlabels, x_overlap) :=
      x_loop gl log xpoints x_next y_next xmin ratio 0 xlabels (-1) in
    let* y_next :=
      (if negb x_overlap then
         let* l0 := getitem xlabels 0 in
         Ok (y_next + (padding + snd (texture_size l0)))
       else Ok y_next) in
    Ok (xlabels, x_next, y_next, xextent, x_overlap)
  else Ok (xlabels, x_next, y_next, xextent, false).

(** [Graph._update_labels]. *)
Definition update_labels (g : graph) : result layout :=
  let x := g_x g in
  let y := g_y g in
  let width := g_width g in
  let height := g_height g in
  let padding := g_padding g in
  let x_next := padding + x in
  let y_next := padding + y in
  let xextent := width + x in
  let yextent := height + y in
  (* set up x and y axis labels *)
  let '(xlabel, y_next) :=
    match g_xlabel_w g with
    | Some xl =>
        let xl := texture_update (set_text xl (g_xlabel g)) in
        let xl := set_size xl (texture_size xl) in
        let xl := set_pos xl
          (inject_Z (int (x + width / 2 - lwidth xl / 2)),
           inject_Z (int (padding + y))) in
        (Some xl, y_next + (padding + lheight xl))
    | None => (None, y_next)
    end in
  let '(ylabel, x_next) :=
    match g_ylabel_w g with
    | Some yl =>
        let yl := texture_update (set_text yl (g_ylabel g)) in
        let yl := set_size yl (texture_size yl) in
        let yl := set_pos yl
          (padding + x - (lwidth yl / 2 - lheight yl / 2), ly yl) in
        (Some yl, x_next + (padding + lheight yl))
    | None => (None, x_next)
    end in
  (* now x and y tick mark labels *)
  let* (ylabels, x_next, yextent, y_overlap) :=
    y_tick_labels g x_next y_next yextent in
  let* (xlabels, x_next, y_next, xextent, x_overlap) :=
    x_tick_labels g x_next y_next xextent in
  (* now re-center the x and y axis labels *)
  let xlabel :=
    option_map (fun xl =>
      set_pos xl
        (inject_Z (int (x_next + (xextent - x_next) / 2 - lwidth xl / 2)),
         ly xl)) xlabel in
  let ylabel :=
    option_map (fun yl =>
      set_angle
        (set_pos yl
           (lx yl,
            inject_Z (int (y_next + (yextent - y_next) / 2 - lheight yl / 2))))
        90) ylabel in
  let xlabels := if x_overlap then blank xlabels else xlabels in
  let ylabels := if y_overlap then blank ylabels else ylabels in
  Ok (Layout xlabel ylabel xlabels ylabels x_overlap y_overlap
        x_next y_next xextent yextent
        (Viewport (x_next - x) (y_next - y) (xextent - x) (yextent - y))).

End Layout.

End Transcendental.

(** ** Running the embedding

    Instances of [log10r] and [pow10r] that are exact on whole decades
    ([10 ** n] for an integer [n]); they are used to run the embedding on
    concrete inputs. *)

Fixpoint log10_steps (fuel : nat) (x : Q) : Z :=
  match fuel with
  | O => 0
  | S fuel' =>
      if leb 10 x then (log10_steps fuel' (x / 10) + 1)%Z
      else if ltb x 1 then (log10_steps fuel' (x * 10) - 1)%Z
      else 0%Z
  end.

Definition log10_whole (x : Q) : Q := inject_Z (log10_steps 64 x).
Definition pow10_whole (x : Q) : Q := pow10i (Qfloor x).

(** A monospace font: 8 pixels per character, 16 pixels high. *)
Definition measure_mono (t : string) : Q * Q :=
  (inject_Z (8 * Z.of_nat (String.length t)), 16).

(** [precision % value] for an integral value. *)
Definition precision_int (v : Q) : string :=
  NilZero.string_of_int (Z.to_int (Qfloor v)).

(** A label widget as created by [Label()]. *)
Definition fresh_label : label := Label EmptyString (0, 0) (100, 100) (0, 0) 0.

(** A graph of width 200 and height 218 at the origin, with padding 5,
    [y_ticks_major = [0, 50, 55]], [ymin = 0], [ymax = 100], default y tick
    labels and no x tick labels. *)
Definition graph_three_y_ticks : graph :=
  Graph 0 0 200 218 5 (Axes false 0 100 false 0 100)
    EmptyString EmptyString None None
    [] [0; 50; 55] (GLBool false) (GLBool true)
    [] [fresh_label; fresh_label; fresh_label].

(** ** Vocabulary of the statements *)

(** The order of [sorted(..., reverse=r)]: ascending, or descending when
    [r] holds. *)
Definition dir (r : bool) (a b : Q) : Prop := if r then b <= a else a <= b.

(** Number of elements of [l] numerically equal to [q]. *)
Definition countq (q : Q) (l : list Q) : nat :=
  length (List.filter (Qeq_bool q) l).

(** Number of subdivisions of a major interval: [minor], or one when
    [minor] is zero. *)
Definition subdiv (n : Z) : Z := Z.max n 1.

(** Axis direction: [1] when [s_min < s_max], else [-1]. *)
Definition sign (s_min s_max : Q) : Q := if ltb s_min s_max then 1 else -1.

(** [p] lies between [s_min] and [s_max], whichever is larger. *)
Definition between (s_min s_max p : Q) : Prop :=
  (s_min <= p /\ p <= s_max) \/ (s_max <= p /\ p <= s_min).

(** Quantities of the linear branch for a major distance [major] and an
    integer number [n] of subdivisions: the tick distance, the number of
    ticks, the number of major ticks and the signed tick distance. *)
Definition lin_dist (major : Q) (n : Z) : Q := major / inject_Z (subdiv n).

Definition lin_count (major : Q) (n : Z) (a b : Q) : Z :=
  (Qfloor (Qabs ((b - a) / lin_dist major n)) + 1)%Z.

Definition lin_major_count (major a b : Q) : Z :=
  (Qfloor (Qabs ((b - a) / major)) + 1)%Z.

Definition lin_step (major : Q) (n : Z) (a b : Q) : Q :=
  Qabs (lin_dist major n) * sign a b.


(** The lists [l] and [l'] hold the same positions. *)
Definition same_positions (l l' : list Q) : Prop :=
  forall p, InA Qeq p l <-> InA Qeq p l'.

(** The transformed bound [f(x)] of an axis: [log10(x)] or [x]. *)
Definition transformed (log10r : Q -> Q) (log : bool) (x : Q) : Q :=
  if log then log10r x else x.

(** No label starts left of the right edge of its predecessor; [right] is
    the right edge before the first label. *)
Fixpoint chain_ok (right : Q) (ls : list label) : Prop :=
  match ls with
  | [] => True
  | l :: ls' => ~ lx l < right /\ chain_ok (lright l) ls'
  end.

(** The computation [c] does not raise [TypeError]. *)
Definition well_typed {A : Type} (c : result A) : Prop :=
  c <> Raise TypeError.

(** * The drawing code *)

Section Drawing.

Variable log10r : Q -> Q.

(** ** [Plot.get_px_bounds], [Plot.iterate_points], [Graph.collide_plot] *)

(** The dict returned by [Plot.get_px_bounds]. *)
Record px_bounds : Type := PxBounds {
  b_xmin : Q; b_xmax : Q; b_ymin : Q; b_ymax : Q
}.

(** [Plot.get_px_bounds]. *)
Definition get_px_bounds (p : plot_params) : result px_bounds :=
  let* x_px := x_px log10r p in
  let* y_px := y_px log10r p in
  let* bxmin := x_px (p_xmin p) in
  let* bxmax := x_px (p_xmax p) in
  let* bymin := y_px (p_ymin p) in
  let* bymax := y_px (p_ymax p) in
  Ok (PxBounds bxmin bxmax bymin bymax).

(** [Plot.iterate_points], run to its end: the pixel position of every
    point of [points]. *)
Definition iterate_points (p : plot_params) (points : list (Q * Q))
  : result (list (Q * Q)) :=
  let* x_px := x_px log10r p in
  let* y_px := y_px log10r p in
  mapM (fun '(x, y) => let* px := x_px x in let* py := y_px y in Ok (px, py))
    points.


(** ** Secondary axes: [Graph.add_x_axis], [Graph.get_x_axis],
       [Graph._update_plots] *)

(** The dict [{"log": .., "min": .., "max": ..}] of a secondary axis. *)
Record axis_info : Type := AxisInfo { a_log : bool; a_min : Q; a_max : Q }.

(** The primary axes with the lists [x_axis] and [y_axis]; both lists
    start as [[None]]. *)
Record axis_registry : Type := AxisRegistry {
  r_axes : axes;
  x_axis : list (option axis_info);
  y_axis : list (option axis_info)
}.

Definition default_registry (a : axes) : axis_registry :=
  AxisRegistry a [None] [None].

(** [info["log"], info["min"], info["max"]]: [None] is not subscriptable. *)
Definition axis_triple (info : option axis_info) : result (bool * Q * Q) :=
  match info with
  | Some i => Ok (a_log i, a_min i, a_max i)
  | None => Raise TypeError
  end.

Definition get_x_axis (r : axis_registry) (axis : Z) : result (bool * Q * Q) :=
  if (axis =? 0)%Z
  then Ok (xlog (r_axes r), xmin (r_axes r), xmax (r_axes r))
  else let* info := getitem_z (x_axis r) axis in axis_triple info.

Definition get_y_axis (r : axis_registry) (axis : Z) : result (bool * Q * Q) :=
  if (axis =? 0)%Z
  then Ok (ylog (r_axes r), ymin (r_axes r), ymax (r_axes r))
  else let* info := getitem_z (y_axis r) axis in axis_triple info.

Definition add_x_axis (r : axis_registry) (xmin xmax : Q) (xlog : bool)
  : axis_registry * axis_info :=
  let data := AxisInfo xlog xmin xmax in
  (AxisRegistry (r_axes r) (x_axis r ++ [Some data]) (y_axis r), data).

Definition add_y_axis (r : axis_registry) (ymin ymax : Q) (ylog : bool)
  : axis_registry * axis_info :=
  let data := AxisInfo ylog ymin ymax in
  (AxisRegistry (r_axes r) (x_axis r) (y_axis r ++ [Some data]), data).

(** A plot: its parameters, its points and the indices of its axes. *)
Record plot : Type := Plot {
  params : plot_params;
  points : list (Q * Q);
  pl_x_axis : Z;
  pl_y_axis : Z
}.

(** [Graph._update_plots]. *)
Definition update_plots (r : axis_registry) (size : viewport)
  (plots : list plot) : result (list plot) :=
  mapM (fun pl =>
          let* (xlog, xmin, xmax) := get_x_axis r (pl_x_axis pl) in
          let* (ylog, ymin, ymax) := get_y_axis r (pl_y_axis pl) in
          Ok (Plot (update xlog xmin xmax ylog ymin ymax size)
                (points pl) (pl_x_axis pl) (pl_y_axis pl)))
    plots.

(** ** Meshes: [MeshLinePlot], [MeshStemPlot], [HBar], [VBar], [BarPlot] *)

(** The vertex list, the index list and the mode of a [Mesh] as the plot
    code reads and writes them.  A vertex takes four entries of
    [vertices]: [x], [y] and two texture coordinates. *)
Record mesh : Type := Mesh {
  vertices : list Q;
  indices : list Z;
  mode : string
}.

(** [range(a, b)]. *)
Definition range2 (a b : Z) : list Z := map (Z.add a) (range (b - a)).

(** [enumerate(l)], counting from [start]. *)
Definition enumerate_from {A : Type} (start : nat) (l : list A)
  : list (nat * A) :=
  combine (seq start (length l)) l.

Definition enumerate {A : Type} (l : list A) : list (nat * A) :=
  enumerate_from 0 l.

(** The item assignments [vert[i1] = v1; vert[i2] = v2; ...], in order. *)
Definition setitems (vert : list Q) (a : list (nat * Q)) : result (list Q) :=
  for_each (fun vert '(i, v) => setitem vert i v) a vert.

(** [MeshLinePlot.set_mesh_size]; [size] is a number of vertices (a
    length at every call). *)
Definition set_mesh_size (m : mesh) (size : nat) : mesh :=
  let vert := vertices m in
  let ind := indices m in
  let diff := (Z.of_nat size - Z.of_nat (length vert / 4))%Z in
  if (diff <? 0)%Z then
    Mesh (take (4 * size) vert) (take size ind) (mode m)
  else if (0 <? diff)%Z then
    Mesh (vert ++ repeat_list 0 (diff * 4))
      (ind ++ range2 (Z.of_nat (length ind)) (Z.of_nat (length ind) + diff))
      (mode m)
  else m.

Definition set_vertices (m : mesh) (vert : list Q) : mesh :=
  Mesh vert (indices m) (mode m).

Definition set_mode (m : mesh) (md : string) : mesh :=
  Mesh (vertices m) (indices m) md.

(** [MeshLinePlot.plot_mesh]. *)
Definition plot_mesh (p : plot_params) (pts : list (Q * Q)) (m : mesh)
  : result mesh :=
  let* points := iterate_points p pts in
  let m := set_mesh_size m (length points) in
  let* vert :=
    for_each (fun vert '(k, (x, y)) =>
                setitems vert [(k * 4, x); (k * 4 + 1, y)]%nat)
      (enumerate points) (vertices m) in
  Ok (set_vertices m vert).

(** [MeshStemPlot.plot_mesh]. *)
Definition stem_plot_mesh (p : plot_params) (pts : list (Q * Q)) (m : mesh)
  : result mesh :=
  let* points := iterate_points p pts in
  let m := set_mesh_size m (length points * 2) in
  let* y_px := y_px log10r p in
  let* y0 := y_px 0 in
  let* points := iterate_points p pts in
  let* vert :=
    for_each (fun vert '(k, (x, y)) =>
                setitems vert [(k * 8, x); (k * 8 + 1, y0);
                               (k * 8 + 4, x); (k * 8 + 5, y)]%nat)
      (enumerate points) (vertices m) in
  Ok (set_vertices m vert).

(** [HBar.plot_mesh]: the points of an [HBar] are its y values. *)
Definition hbar_plot_mesh (p : plot_params) (points : list Q) (m : mesh)
  : result mesh :=
  let m := set_mesh_size m (length points * 2) in
  let m := set_mode m "lines" in
  let* bounds := get_px_bounds p in
  let px_xmin := b_xmin bounds in
  let px_xmax := b_xmax bounds in
  let* y_px := y_px log10r p in
  let* vert :=
    for_each (fun vert '(k, y) =>
                let* y := y_px y in
                setitems vert [(k * 8, px_xmin); (k * 8 + 1, y);
                               (k * 8 + 4, px_xmax); (k * 8 + 5, y)]%nat)
      (enumerate points) (vertices m) in
  Ok (set_vertices m vert).

(** [VBar.plot_mesh]: the points of a [VBar] are its x values. *)
Definition vbar_plot_mesh (p : plot_params) (points : list Q) (m : mesh)
  : result mesh :=
  let m := set_mesh_size m (length points * 2) in
  let m := set_mode m "lines" in
  let* bounds := get_px_bounds p in
  let px_ymin := b_ymin bounds in
  let px_ymax := b_ymax bounds in
  let* x_px := x_px log10r p in
  let* vert :=
    for_each (fun vert '(k, x) =>
                let* x := x_px x in
                setitems vert [(k * 8, x); (k * 8 + 1, px_ymin);
                               (k * 8 + 4, x); (k * 8 + 5, px_ymax)]%nat)
      (enumerate points) (vertices m) in
  Ok (set_vertices m vert).

(** [BarPlot.draw]. *)
Definition bar_draw (p : plot_params) (bar_width : Q) (points : list (Q * Q))
  (m : mesh) : result mesh :=
  let points :=
    if (65535 <? Z.of_nat (length points) * 6)%Z
    then take (Z.to_nat 10922) points else points in
  let point_len := length points in
  let m := set_mode m "triangles" in
  let vert := vertices m in
  let ind := indices m in
  let diff := (Z.of_nat (length points * 6) - Z.of_nat (length vert / 4))%Z in
  let '(vert, ind) :=
    if (diff <? 0)%Z then (take (24 * point_len) vert, take point_len ind)
    else if (0 <? diff)%Z then
      (vert ++ repeat_list 0 (diff * 4),
       ind ++ range2 (Z.of_nat (length ind)) (Z.of_nat (length ind) + diff))
    else (vert, ind) in
  let* bounds := get_px_bounds p in
  let* x_px := x_px log10r p in
  let* y_px := y_px log10r p in
  let* ymin := y_px 0 in
  let* bar_width :=
    (if ltb bar_width 0 then
       let* w := x_px bar_width in Ok (w - b_xmin bounds)
     else Ok bar_width) in
  let* vert :=
    for_each (fun vert '(k, pt) =>
                let* x1 := x_px (fst pt) in
                let x2 := (x1 + bar_width)%Q in
                let y1 := ymin in
                let* y2 := y_px (snd pt) in
                let idx := (k * 24)%nat in
                setitems vert
                  [(idx, x1); (idx + 1, y2); (idx + 4, x1); (idx + 5, y1);
                   (idx + 8, x2); (idx + 9, y1);
                   (idx + 12, x1); (idx + 13, y2); (idx + 16, x2);
                   (idx + 17, y2); (idx + 20, x2); (idx + 21, y1)]%nat)
      (enumerate points) vert in
  Ok (Mesh vert ind (mode m)).

(** ** [BarPlot.update_bar_width] *)

(** The attributes of the bound graph read by [update_bar_width]. *)
Record bar_graph : Type := BarGraph {
  bg_xmin : Q; bg_xmax : Q; bg_width : Q; bg_padding : Q
}.

Record bar_plot : Type := BarPlot {
  bar_width : Q;
  bar_spacing : Q;
  bar_points : list (Q * Q);
  bar_graph_of : option bar_graph
}.

(** [p < q] on 2-tuples: the lexicographic order. *)
Definition tuple_ltb (p q : Q * Q) : bool :=
  ltb (fst p) (fst q) || (Qeq_bool (fst p) (fst q) && ltb (snd p) (snd q)).

(** [max(l)] and [min(l)] of a non-empty list [p0 :: l]: the first
    largest and the first smallest element. *)
Definition max_point (p0 : Q * Q) (l : list (Q * Q)) : Q * Q :=
  fold_left (fun m p => if tuple_ltb m p then p else m) l p0.

Definition min_point (p0 : Q * Q) (l : list (Q * Q)) : Q * Q :=
  fold_left (fun m p => if tuple_ltb p m then p else m) l p0.

Definition set_bar_width (b : bar_plot) (w : Q) : bar_plot :=
  BarPlot w (bar_spacing b) (bar_points b) (bar_graph_of b).

(** [BarPlot.update_bar_width], in exact arithmetic, with the operations
    in the order of the source. *)
Definition update_bar_width (b : bar_plot) : result bar_plot :=
  match bar_graph_of b with
  | None => Ok b
  | Some g =>
      if (length (bar_points b) <? 2)%nat then Ok b
      else if Qeq_bool (bg_xmax g) (bg_xmin g) then Ok b
      else
        match bar_points b with
        | [] => Raise ValueError   (* max() of an empty list; not reached *)
        | p0 :: l =>
            let* point_width :=
              truediv
                (inject_Z (Z.of_nat (length (bar_points b)))
                 * (Qabs (bg_xmax g) + Qabs (bg_xmin g)))
                (Qabs (fst (max_point p0 l)) + Qabs (fst (min_point p0 l))) in
            if (length (bar_points b) =? 0)%nat then Ok (set_bar_width b 1)
            else
              let* w := truediv (bg_width g - bg_padding g) point_width in
              Ok (set_bar_width b (w * bar_spacing b))
        end
  end.

(** ** [LineAndMarkerPlot.simplify_points] *)

(** The loop [while len(points) > i + 2]; [None] when the iteration bound
    [fuel] is exhausted. *)
Fixpoint simplify_loop (fuel : nat) (points : list (Q * Q)) (i : nat)
  : result (option (list (Q * Q))) :=
  match fuel with
  | O => Ok None
  | S fuel' =>
      if (i + 2 <? length points)%nat then
        let* p0 := getitem points i in
        let* p1 := getitem points (i + 1) in
        let* p2 := getitem points (i + 2) in
        let* s1 := truediv (snd p1 - snd p0) (fst p1 - fst p0) in
        let* s2 := truediv (snd p2 - snd p0) (fst p2 - fst p0) in
        if ltb (Qabs (s1 - s2)) (1 # 100000)
        then simplify_loop fuel' (delete (i + 1)%nat points) i
        else simplify_loop fuel' points (i + 1)
      else Ok (Some points)
  end.

(** [simplify_points(points)]: every iteration removes a point or moves
    on by one, so the loop ends within [len(points)] iterations. *)
Definition simplify_points (points : list (Q * Q))
  : result (option (list (Q * Q))) :=
  simplify_loop (S (length points)) points 0.

(** [[xy for p in points for xy in p]]. *)
Definition flatten (points : list (Q * Q)) : list Q :=
  concat (map (fun p => [fst p; snd p]) points).

(** The points given to the line of a [LineAndMarkerPlot] by its [draw]. *)
Definition marker_line_points (p : plot_params) (pts : list (Q * Q))
  : result (option (list Q)) :=
  let* px := iterate_points p pts in
  let* s := simplify_points px in
  Ok (option_map flatten s).

(** ** Tick marks: [Graph._update_ticks] *)

(** [metrics.dp]. *)
Variable dp : Q -> Q.

(** The state read by [_update_ticks]. *)
Record tick_marks : Type := TickMarks {
  draw_border : bool;
  x_grid : bool;
  y_grid : bool;
  t_axes : axes;
  ticks_majorx : list Q;
  ticks_minorx : list Q;
  ticks_majory : list Q;
  ticks_minory : list Q
}.

(** The border: [vert[0] = s0; ...], or [vert[0:18] = [0] * 18]. *)
Definition border_vertices (border : bool) (size : viewport) (vert : list Q)
  : result (list Q) :=
  if border then
    let '(s0, s1, s2, s3) := (x0 size, y0 size, x1 size, y1 size) in
    setitems vert
      [(0, s0); (1, s1); (4, s2); (5, s1); (8, s2); (9, s3);
       (12, s0); (13, s3); (16, s0); (17, s1)]%nat
  else Ok (replicate 18 0 ++ drop 18 vert).

(** One loop over the ticks of the x axis, and one over those of the
    y axis. *)
Definition x_tick_loop (size : viewport) (xmin ratio top : Q) (start : nat)
  (xpoints : list Q) (vert : list Q) : result (list Q) :=
  for_each (fun vert '(k, x) =>
              let* vert :=
                setitems vert [((k * 8)%nat, x0 size + (x - xmin) * ratio);
                               ((k * 8 + 1)%nat, y0 size)] in
              let* v := getitem vert (k * 8) in
              setitems vert [(k * 8 + 4, v); (k * 8 + 5, top)]%nat)
    (enumerate_from start xpoints) vert.

Definition y_tick_loop (size : viewport) (ymin ratio top : Q) (start : nat)
  (ypoints : list Q) (vert : list Q) : result (list Q) :=
  for_each (fun vert '(k, y) =>
              let* vert :=
                setitems vert
                  [((k * 8 + 1)%nat, y0 size + (y - ymin) * ratio)] in
              let* v := getitem vert (k * 8 + 1) in
              setitems vert [((k * 8 + 5)%nat, v); ((k * 8)%nat, x0 size);
                             ((k * 8 + 4)%nat, top)])
    (enumerate_from start ypoints) vert.

(** The four blocks [if len(points): ...] of [_update_ticks]. *)
Definition x_tick_block (size : viewport) (xmin xmax top : Q) (start : nat)
  (xpoints : list Q) (vert : list Q) : result (list Q * nat) :=
  if (0 <? length xpoints)%nat then
    let* ratio := truediv (x1 size - x0 size) (xmax - xmin) in
    let* vert := x_tick_loop size xmin ratio top start xpoints vert in
    Ok (vert, (start + length xpoints)%nat)
  else Ok (vert, start).

Definition y_tick_block (size : viewport) (ymin ymax top : Q) (start : nat)
  (ypoints : list Q) (vert : list Q) : result (list Q * nat) :=
  if (0 <? length ypoints)%nat then
    let* ratio := truediv (y1 size - y0 size) (ymax - ymin) in
    let* vert := y_tick_loop size ymin ratio top start ypoints vert in
    Ok (vert, (start + length ypoints)%nat)
  else Ok (vert, start).

(** [Graph._update_ticks]: the new vertices of [_mesh_rect] and of
    [_mesh_ticks]. *)
Definition update_ticks (t : tick_marks) (size : viewport)
  (mesh_rect mesh_ticks : list Q) : result (list Q * list Q) :=
  let* rect := border_vertices (draw_border t) size mesh_rect in
  let vert := mesh_ticks in
  let a := t_axes t in
  let* xmin := func log10r (xlog a) (xmin a) in
  let* xmax := func log10r (xlog a) (xmax a) in
  let* ymin := func log10r (ylog a) (ymin a) in
  let* ymax := func log10r (ylog a) (ymax a) in
  let* (vert, start) :=
    x_tick_block size xmin xmax
      (if x_grid t then y1 size else dp 12 + y0 size)
      0 (ticks_majorx t) vert in
  let* (vert, start) :=
    x_tick_block size xmin xmax (dp 8 + y0 size)
      start (ticks_minorx t) vert in
  let* (vert, start) :=
    y_tick_block size ymin ymax
      (if y_grid t then x1 size else dp 12 + x0 size)
      start (ticks_majory t) vert in
  let* (vert, _) :=
    y_tick_block size ymin ymax (dp 8 + x0 size)
      start (ticks_minory t) vert in
  Ok (rect, vert).

(** The vertex list [[0] * (n_points * 8)] that [Graph._redraw_all] gives
    to [_mesh_ticks]. *)
Definition fresh_tick_vertices (t : tick_marks) : list Q :=
  let n_points :=
    (length (ticks_majorx t) + length (ticks_minorx t)
     + length (ticks_majory t) + length (ticks_minory t))%nat in
  replicate (n_points * 8) 0.

(** ** The plots of a graph: [Graph.add_plot], [Graph.remove_plot] *)

(** [plot in plots] and [plots.remove(plot)], on plot identities. *)
Definition add_plot (plots : list nat) (pl : nat) : list nat :=
  if existsb (Nat.eqb pl) plots then plots else plots ++ [pl].

Fixpoint list_remove (pl : nat) (plots : list nat) : list nat :=
  match plots with
  | [] => []
  | q :: plots' => if Nat.eqb pl q then plots' else q :: list_remove pl plots'
  end.

Definition remove_plot (plots : list nat) (pl : nat) : list nat :=
  if negb (existsb (Nat.eqb pl) plots) then plots else list_remove pl plots.

End Drawing.

(** ** Redrawing: [Graph._redraw_x], [Graph._redraw_y],
       [Graph._redraw_all], [Graph._redraw_size] *)

Section Redraw.

Variable log10r : Q -> Q.
Variable pow10r : Q -> Q.
Variable measure : string -> Q * Q.
Variable precision : Q -> string.
Variable dp : Q -> Q.

(** The tick settings of the graph. *)
Record tick_config : Type := TickConfig {
  x_ticks_major : tickspec;
  x_ticks_minor : tickspec;
  y_ticks_major : tickspec;
  y_ticks_minor : tickspec;
  x_ticks_angle : Q
}.

(** The state of the graph that a redraw reads and writes: the state of
    the label layout, the tick settings, the minor ticks, the secondary
    axes, the plots, the vertices of the border and of the tick marks, the
    plot area and the size of the frame buffer.  The widget tree, the
    colours and the legend are left out. *)
Record widget : Type := Widget {
  w_graph : graph;
  w_config : tick_config;
  w_draw_border : bool;
  w_x_grid : bool;
  w_y_grid : bool;
  w_ticks_minorx : list Q;
  w_ticks_minory : list Q;
  w_x_axis : list (option axis_info);
  w_y_axis : list (option axis_info);
  w_plots : list plot;
  w_mesh_rect : list Q;
  w_mesh_ticks : mesh;
  w_plot_area : plot_area;
  w_fbo_size : Q * Q
}.

Definition set_graph (w : widget) (g : graph) : widget :=
  Widget g (w_config w) (w_draw_border w) (w_x_grid w) (w_y_grid w)
    (w_ticks_minorx w) (w_ticks_minory w) (w_x_axis w) (w_y_axis w)
    (w_plots w) (w_mesh_rect w) (w_mesh_ticks w) (w_plot_area w)
    (w_fbo_size w).

Definition set_ticks_minorx (w : widget) (l : list Q) : widget :=
  Widget (w_graph w) (w_config w) (w_draw_border w) (w_x_grid w) (w_y_grid w)
    l (w_ticks_minory w) (w_x_axis w) (w_y_axis w)
    (w_plots w) (w_mesh_rect w) (w_mesh_ticks w) (w_plot_area w)
    (w_fbo_size w).

Definition set_ticks_minory (w : widget) (l : list Q) : widget :=
  Widget (w_graph w) (w_config w) (w_draw_border w) (w_x_grid w) (w_y_grid w)
    (w_ticks_minorx w) l (w_x_axis w) (w_y_axis w)
    (w_plots w) (w_mesh_rect w) (w_mesh_ticks w) (w_plot_area w)
    (w_fbo_size w).

Definition set_mesh_ticks (w : widget) (m : mesh) : widget :=
  Widget (w_graph w) (w_config w) (w_draw_border w) (w_x_grid w) (w_y_grid w)
    (w_ticks_minorx w) (w_ticks_minory w) (w_x_axis w) (w_y_axis w)
    (w_plots w) (w_mesh_rect w) m (w_plot_area w) (w_fbo_size w).

(** The views of the state taken by [_update_ticks] and by
    [_update_plots]. *)
Definition marks_of (w : widget) : tick_marks :=
  TickMarks (w_draw_border w) (w_x_grid w) (w_y_grid w) (g_axes (w_graph w))
    (g_ticks_majorx (w_graph w)) (w_ticks_minorx w)
    (g_ticks_majory (w_graph w)) (w_ticks_minory w).

Definition registry_of (w : widget) : axis_registry :=
  AxisRegistry (g_axes (w_graph w)) (w_x_axis w) (w_y_axis w).

(** The widget of an axis title: created when the title is set, removed
    when it is empty. *)
Definition title_widget (title : string) (w : option label) : option label :=
  if negb (String.eqb title EmptyString)
  then Some (match w with Some l => l | None => fresh_label end)
  else None.

(** The number of tick labels wanted for the major ticks. *)
Definition n_labels (gl : grid_label) (points_major : list Q) : nat :=
  if negb (gl_truthy gl) then 0%nat
  else match gl with
       | GLSeq l => Nat.min (length points_major) (length l)
       | _ => length points_major
       end.

(** [del grids[n_labels:]], then new labels up to [n_labels]. *)
Definition reconcile_labels (n : nat) (new : label) (grids : list label)
  : list label :=
  let grids := take n grids in
  let grid_len := length grids in
  grids ++ replicate (n - grid_len) new.

Definition redraw_x (fuel : nat) (w : widget)
  : result (option (widget * list Q * list Q)) :=
  let g := w_graph w in
  let xlabel := title_widget (g_xlabel g) (g_xlabel_w g) in
  let grids := g_x_grid_labels g in
  let* r := get_ticks log10r pow10r fuel
              (x_ticks_major (w_config w)) (x_ticks_minor (w_config w))
              (xlog (g_axes g)) (xmin (g_axes g)) (xmax (g_axes g)) in
  match r with
  | None => Ok None
  | Some (xpoints_major, xpoints_minor) =>
      let n := n_labels (g_x_grid_label g) xpoints_major in
      let grids :=
        reconcile_labels n
          (set_angle fresh_label (x_ticks_angle (w_config w))) grids in
      let g :=
        Graph (g_x g) (g_y g) (g_width g) (g_height g) (g_padding g)
          (g_axes g) (g_xlabel g) (g_ylabel g) xlabel (g_ylabel_w g)
          xpoints_major (g_ticks_majory g)
          (g_x_grid_label g) (g_y_grid_label g) grids (g_y_grid_labels g) in
      Ok (Some (set_ticks_minorx (set_graph w g) xpoints_minor,
                xpoints_major, xpoints_minor))
  end.

Definition redraw_y (fuel : nat) (w : widget)
  : result (option (widget * list Q * list Q)) :=
  let g := w_graph w in
  let ylabel := title_widget (g_ylabel g) (g_ylabel_w g) in
  let grids := g_y_grid_labels g in
  let* r := get_ticks log10r pow10r fuel
              (y_ticks_major (w_config w)) (y_ticks_minor (w_config w))
              (ylog (g_axes g)) (ymin (g_axes g)) (ymax (g_axes g)) in
  match r with
  | None => Ok None
  | Some (ypoints_major, ypoints_minor) =>
      let n := n_labels (g_y_grid_label g) ypoints_major in
      let grids := reconcile_labels n fresh_label grids in
      let g :=
        Graph (g_x g) (g_y g) (g_width g) (g_height g) (g_padding g)
          (g_axes g) (g_xlabel g) (g_ylabel g) (g_xlabel_w g) ylabel
          (g_ticks_majorx g) ypoints_major
          (g_x_grid_label g) (g_y_grid_label g) (g_x_grid_labels g) grids in
      Ok (Some (set_ticks_minory (set_graph w g) ypoints_minor,
                ypoints_major, ypoints_minor))
  end.

Definition redraw_size (w : widget) : result widget :=
  let g := w_graph w in
  let* lay := update_labels log10r pow10r measure precision g in
  let size := o_size lay in
  let g :=
    Graph (g_x g) (g_y g) (g_width g) (g_height g) (g_padding g)
      (g_axes g) (g_xlabel g) (g_ylabel g) (o_xlabel_w lay) (o_ylabel_w lay)
      (g_ticks_majorx g) (g_ticks_majory g)
      (g_x_grid_label g) (g_y_grid_label g)
      (o_x_grid_labels lay) (o_y_grid_labels lay) in
  let area := place_plot_area size in
  let fbo_size :=
    if truthy (g_width g) && truthy (g_height g)
    then (g_width g, g_height g) else (1, 1) in
  let* (rect, vert) :=
    update_ticks log10r dp (marks_of w) size (w_mesh_rect w)
      (vertices (w_mesh_ticks w)) in
  let* plots := update_plots (registry_of w) size (w_plots w) in
  Ok (Widget g (w_config w) (w_draw_border w) (w_x_grid w) (w_y_grid w)
        (w_ticks_minorx w) (w_ticks_minory w) (w_x_axis w) (w_y_axis w)
        plots rect (set_vertices (w_mesh_ticks w) vert) area fbo_size).

Definition redraw_all (fuel : nat) (w : widget) : result (option widget) :=
  let* rx := redraw_x fuel w in
  match rx with
  | None => Ok None
  | Some (w, xpoints_major, xpoints_minor) =>
      let* ry := redraw_y fuel w in
      match ry with
      | None => Ok None
      | Some (w, ypoints_major, ypoints_minor) =>
          let n_points :=
            (length xpoints_major + length xpoints_minor
             + length ypoints_major + length ypoints_minor)%nat in
          let m :=
            Mesh (replicate (n_points * 8) 0)
              (range (Z.of_nat (n_points * 2))) (mode (w_mesh_ticks w)) in
          let* w := redraw_size (set_mesh_ticks w m) in
          Ok (Some w)
      end
  end.

End Redraw.

(** ** Markers: [LineAndMarkerPlot.get_marker], [draw_marker] and
    [draw_markers] *)

(** The marker code raises [NotImplementedError] besides the exceptions of
    the axis transforms. *)
Inductive marker_exn : Type :=
| Builtin (e : exn)
| NotImplementedError.

Inductive attempt (A : Type) : Type :=
| Success (a : A)
| Failure (e : marker_exn).
Arguments Success {A} a.
Arguments Failure {A} e.

Definition attempt_bind {A B : Type} (c : attempt A) (k : A -> attempt B)
  : attempt B :=
  match c with
  | Success a => k a
  | Failure e => Failure e
  end.

Notation "'let+' x ':=' c 'in' k" := (attempt_bind c (fun x => k))
  (at level 10, x pattern, c at level 100, k at level 200,
   format "'[v' 'let+'  x  ':='  c  'in' '/' k ']'").

Definition lift {A : Type} (c : result A) : attempt A :=
  match c with
  | Ok a => Success a
  | Raise e => Failure (Builtin e)
  end.

(** [sub in s] on strings. *)
Fixpoint str_contains (sub s : string) : bool :=
  String.prefix sub s
  || match s with
     | EmptyString => false
     | String _ s' => str_contains sub s'
     end.

(** The drawing instructions [get_marker] creates, with the arguments it
    gives them. *)
Inductive instruction : Type :=
| Instruction
| Line (width : Q) (joint : option string)
| SmoothLine (width : Q) (close : bool) (joint : string)
| Ellipse
| Rectangle
| MeshInstruction (indices : list Z) (mode : string).

(** What [draw_marker] assigns to [marker.points]: a tuple of coordinates
    or the constant [NotImplemented]. *)
Inductive points_value : Type :=
| Coordinates (l : list Q)
| NotImplemented.

(** A marker: its instruction and the attributes [draw_marker] has assigned
    to it so far. *)
Record marker_t : Type := MarkerOf {
  instruction_of : instruction;
  m_points : option points_value;
  m_ellipse : option (Q * Q * Q * Q);
  m_pos : option (Q * Q);
  m_size : option (Q * Q);
  m_vertices : option (list Q)
}.

Definition new_marker (i : instruction) : marker_t :=
  MarkerOf i None None None None None.

Definition assign_points (m : marker_t) (v : points_value) : marker_t :=
  MarkerOf (instruction_of m) (Some v) (m_ellipse m) (m_pos m) (m_size m)
    (m_vertices m).

Definition assign_ellipse (m : marker_t) (v : Q * Q * Q * Q) : marker_t :=
  MarkerOf (instruction_of m) (m_points m) (Some v) (m_pos m) (m_size m)
    (m_vertices m).

Definition assign_pos (m : marker_t) (v : Q * Q) : marker_t :=
  MarkerOf (instruction_of m) (m_points m) (m_ellipse m) (Some v) (m_size m)
    (m_vertices m).

Definition assign_size (m : marker_t) (v : Q * Q) : marker_t :=
  MarkerOf (instruction_of m) (m_points m) (m_ellipse m) (m_pos m) (Some v)
    (m_vertices m).

Definition assign_vertices (m : marker_t) (v : list Q) : marker_t :=
  MarkerOf (instruction_of m) (m_points m) (m_ellipse m) (m_pos m) (m_size m)
    (Some v).

(** The values [marker_shape] accepts:
    [options=[None, *'x+*-|<>v^osdOSD']]. *)
Definition marker_shape_options : list (option string) :=
  None :: map (fun c => Some (String c EmptyString))
            (list_ascii_of_string "x+*-|<>v^osdOSD").

(** [get_marker()], for the [marker_shape] and [marker_line_width] of the
    plot. *)
Definition get_marker (marker_shape : option string) (marker_line_width : Q)
  : attempt instruction :=
  match marker_shape with
  | None => Success Instruction
  | Some shape =>
      if str_contains shape "x+*" then
        Success (Line marker_line_width None)
      else if str_contains shape "-|<>v^sd" then
        Success (Line marker_line_width (Some "miter"%string))
      else if str_contains shape "o" then
        Success (SmoothLine marker_line_width true "round")
      else if String.eqb shape "O" then Success Ellipse
      else if String.eqb shape "S" then Success Rectangle
      else if String.eqb shape "D" then
        Success (MeshInstruction [0; 1; 2; 3]%Z "triangle_fan")
      else Failure NotImplementedError
  end.

Section Markers.

Variable log10r : Q -> Q.

(** [sqrt(.5)]. *)
Variable sqrt_half : Q.

(** [draw_marker(marker, s, x, y)]. *)
Definition draw_marker (marker_shape : option string) (marker : marker_t)
  (s x y : Q) : attempt marker_t :=
  match marker_shape with
  | None => Success marker
  | Some shape =>
      let cx := x in
      let r := x + s / 2 in
      let x := x - s / 2 in
      let cy := y in
      let t := y + s / 2 in
      let y := y - s / 2 in
      let d := (1 # 2) * sqrt_half * s in
      if str_contains shape "x+*-|<>v^sd" then
        Success (assign_points marker
          (if String.eqb shape "x" then
             Coordinates [x; y; r; t; cx; cy; x; t; r; y]
           else if String.eqb shape "+" then
             Coordinates [x; cy; r; cy; cx; cy; cx; y; cx; t]
           else if String.eqb shape "*" then
             Coordinates [x; cy; r; cy; cx; cy; cx; y; cx; t; cx; cy;
                          cx - d; cy - d; cx + d; cy + d; cx; cy;
                          cx - d; cy + d; cx + d; cy - d]
           else if String.eqb shape "-" then Coordinates [x; cy; r; cy]
           else if String.eqb shape "|" then Coordinates [cx; y; cx; t]
           else if String.eqb shape ">" then
             Coordinates [x; y; r; cy; x; t]
           else if String.eqb shape "<" then
             Coordinates [r; y; x; cy; r; t]
           else if String.eqb shape "v" then
             Coordinates [x; t; cx; y; r; t]
           else if String.eqb shape "^" then
             Coordinates [x; y; cx; t; r; y]
           else if String.eqb shape "s" then
             Coordinates [x; y; x; t; r; t; r; y; x; y; x; t]
           else if String.eqb shape "d" then
             Coordinates [x; cy; cx; t; r; cy; cx; y; x; cy; cx; t]
           else NotImplemented))
      else if String.eqb shape "o" then
        Success (assign_ellipse marker (x, y, s, s))
      else if str_contains shape "OS" then
        Success (assign_size (assign_pos marker (x, y)) (s, s))
      else if String.eqb shape "D" then
        Success (assign_vertices marker
                   [x; cy; 0; 0; cx; t; 0; 0; r; cy; 0; 0; cx; y; 0; 0])
      else Failure NotImplementedError
  end.

(** [self._markers.pop()]. *)
Definition pop_last (markers : list marker_t) : attempt (list marker_t) :=
  match markers with
  | [] => Failure (Builtin IndexError)
  | _ => Success (removelast markers)
  end.

Definition nonempty (markers : list marker_t) : bool :=
  match markers with
  | [] => false
  | _ => true
  end.

(** [while len(self.points) < len(self._markers) or (force_new and
    self._markers): ... self._markers.pop()]; [None] when the fuel runs
    out. *)
Fixpoint remove_markers (fuel : nat) (force_new : bool) (n_points : nat)
  (markers : list marker_t) : attempt (option (list marker_t)) :=
  match fuel with
  | O => Success None
  | S fuel' =>
      if (n_points <? length markers)%nat || (force_new && nonempty markers)
      then
        let+ markers' := pop_last markers in
        remove_markers fuel' force_new n_points markers'
      else Success (Some markers)
  end.

(** [while len(self.points) > len(self._markers):
    self._markers.append(self.get_marker())]. *)
Fixpoint append_markers (fuel : nat) (marker_shape : option string)
  (marker_line_width : Q) (n_points : nat) (markers : list marker_t)
  : attempt (option (list marker_t)) :=
  match fuel with
  | O => Success None
  | S fuel' =>
      if (length markers <? n_points)%nat then
        let+ i := get_marker marker_shape marker_line_width in
        append_markers fuel' marker_shape marker_line_width n_points
          (markers ++ [new_marker i])
      else Success (Some markers)
  end.

(** [for marker, point in zip(self._markers, self.iterate_points()):
    self.draw_marker(marker, self.marker_size, *point)], once the generator
    has computed [x_px] and [y_px]: the pixel position of a point is
    computed when [zip] asks for it, after the marker before it is drawn. *)
Fixpoint draw_each (marker_shape : option string) (marker_size : Q)
  (x_px y_px : Q -> result Q) (markers : list marker_t) (points : list (Q * Q))
  : attempt (list marker_t) :=
  match markers, points with
  | marker :: markers', (x, y) :: points' =>
      let+ px := lift (x_px x) in
      let+ py := lift (y_px y) in
      let+ marker' := draw_marker marker_shape marker marker_size px py in
      let+ rest := draw_each marker_shape marker_size x_px y_px markers'
                     points' in
      Success (marker' :: rest)
  | _, _ => Success markers
  end.

(** [draw_markers(force_new)] on the list [self._markers]; the instruction
    group follows the list ([remove] of what is popped, [add] of what is
    appended). Both [while] loops end within the fuel given here: the first
    removes a marker, the second adds one, in every iteration. [zip] asks
    the list of markers first, so that without markers the generator
    [iterate_points] is never started. *)
Definition draw_markers (marker_shape : option string)
  (marker_line_width marker_size : Q) (force_new : bool) (p : plot_params)
  (points : list (Q * Q)) (markers : list marker_t)
  : attempt (option (list marker_t)) :=
  let+ kept := remove_markers (S (length markers)) force_new (length points)
                 markers in
  match kept with
  | None => Success None
  | Some kept =>
      let+ all := append_markers (S (length points)) marker_shape
                    marker_line_width (length points) kept in
      match all with
      | None => Success None
      | Some [] => Success (Some [])
      | Some all =>
          let+ x_px := lift (x_px log10r p) in
          let+ y_px := lift (y_px log10r p) in
          let+ drawn := draw_each marker_shape marker_size x_px y_px all
                          points in
          Success (Some drawn)
      end
  end.

End Markers.

(** ** Vocabulary of the statements on the drawing code *)

(** The pixel position given to the data value [v] by an axis from [amin]
    to [amax] drawn from pixel [lo] to pixel [hi]; the ratio is zero on a
    degenerate range. *)
Definition px_of (log10r : Q -> Q) (log : bool) (amin amax lo hi v : Q) : Q :=
  let fmin := transformed log10r log amin in
  let fmax := transformed log10r log amax in
  (transformed log10r log v - fmin)
  * (if truthy (fmax - fmin) then (hi - lo) / (fmax - fmin) else 0) + lo.

(** The pixel position of a point under the parameters [p]. *)
Definition point_px (log10r : Q -> Q) (p : plot_params) (pt : Q * Q) : Q * Q :=
  (px_of log10r (p_xlog p) (p_xmin p) (p_xmax p)
     (x0 (p_size p)) (x1 (p_size p)) (fst pt),
   px_of log10r (p_ylog p) (p_ymin p) (p_ymax p)
     (y0 (p_size p)) (y1 (p_size p)) (snd pt)).

(** The axes of [p] and the coordinates of the points [pts] are in the
    domain of the axis transforms: positive on a log axis. *)
Definition drawable (p : plot_params) (pts : list (Q * Q)) : Prop :=
  (p_xlog p = true ->
   0 < p_xmin p /\ 0 < p_xmax p /\ Forall (fun pt => 0 < fst pt) pts)
  /\ (p_ylog p = true ->
      0 < p_ymin p /\ 0 < p_ymax p /\ Forall (fun pt => 0 < snd pt) pts).

(** The list after the assignments [a], all in range. *)
Definition inserted (vert : list Q) (a : list (nat * Q)) : list Q :=
  fold_left (fun v iv => <[fst iv := snd iv]> v) a vert.

(** The mesh holds one index per vertex: [0, 1, ..., n - 1]. *)
Definition indexed (m : mesh) : Prop :=
  indices m = range (Z.of_nat (length (vertices m) / 4)).

(** Segment [k] of a mesh of lines goes from [(xa, ya)] to [(xb, yb)]: a
    segment takes two vertices, eight entries. *)
Definition segment (v : list Q) (k : nat) (xa ya xb yb : Q) : Prop :=
  v !! (k * 8)%nat = Some xa /\ v !! (k * 8 + 1)%nat = Some ya
  /\ v !! (k * 8 + 4)%nat = Some xb /\ v !! (k * 8 + 5)%nat = Some yb.

(** The pixel position of a tick at the transformed position [x] on an
    axis whose transformed bounds are [fmin] and [fmax], drawn from pixel
    [lo] to pixel [hi]. *)
Definition tick_px (lo hi fmin fmax x : Q) : Q :=
  lo + (x - fmin) * ((hi - lo) / (fmax - fmin)).

(** The points drawn by [BarPlot.draw]: at most 10922. *)
Definition shown_bars (pts : list (Q * Q)) : list (Q * Q) :=
  if (65535 <? Z.of_nat (length pts) * 6)%Z
  then take (Z.to_nat 10922) pts else pts.

(** The width in pixels of the bars: a negative [bar_width] is a length
    in data units, measured from the start of the x axis. *)
Definition bar_width_px (log10r : Q -> Q) (p : plot_params) (w : Q) : Q :=
  if ltb w 0
  then fst (point_px log10r p (w, 0)) - fst (point_px log10r p (p_xmin p, 0))
  else w.

(** The twelve entries written for bar [k]: two triangles on the corners
    [x1], [x2], [y1], [y2]. *)
Definition bar_entries (v : list Q) (k : nat) : list (option Q) :=
  map (fun o => v !! (k * 24 + o)%nat)
    [0; 1; 4; 5; 8; 9; 12; 13; 16; 17; 20; 21]%nat.

Definition bar_triangles (x1 x2 y1 y2 : Q) : list (option Q) :=
  map Some [x1; y2; x1; y1; x2; y1; x1; y2; x2; y2; x2; y1].

(** The computation [c] does not raise [IndexError]. *)
Definition in_bounds {A : Type} (c : result A) : Prop :=
  c <> Raise IndexError.

(** The index [i] selects an entry of [l], counted from the start or,
    when negative, from the end; index [0] is the primary axis. *)
Definition axis_index (l : list (option axis_info)) (i : Z) : Prop :=
  i = 0%Z \/ (- Z.of_nat (length l) <= i < Z.of_nat (length l))%Z.

(** The positions of a marker drawn as a line or a mesh: the points of its
    line, the positions of its vertices. *)
Fixpoint pairs (l : list Q) : list (Q * Q) :=
  match l with
  | a :: b :: l' => (a, b) :: pairs l'
  | _ => []
  end.

Fixpoint vertex_positions (l : list Q) : list (Q * Q) :=
  match l with
  | a :: b :: _ :: _ :: l' => (a, b) :: vertex_positions l'
  | _ => []
  end.

Definition extent (m : marker_t) : list (Q * Q) :=
  match m_points m with
  | Some (Coordinates l) => pairs l
  | _ => []
  end
  ++ match m_vertices m with
     | Some l => vertex_positions l
     | None => []
     end.

(** The boxes of a marker drawn as an ellipse or a rectangle, each with its
    lower-left corner and its sides: the box of [ellipse], and that of
    [pos] and [size]. *)
Definition boxes (m : marker_t) : list ((Q * Q) * (Q * Q)) :=
  match m_ellipse m with
  | Some (x, y, w, h) => [((x, y), (w, h))]
  | None => []
  end
  ++ match m_pos m, m_size m with
     | Some xy, Some wh => [(xy, wh)]
     | _, _ => []
     end.

(** [pt] lies in the square of side [s] centred at [c]. *)
Definition in_square (s : Q) (c pt : Q * Q) : Prop :=
  (fst c - s / 2 <= fst pt /\ fst pt <= fst c + s / 2)
  /\ (snd c - s / 2 <= snd pt /\ snd pt <= snd c + s / 2).

(** [m] is what a new marker of the shape looks like once it is drawn with
    size [s] at [c]. *)
Definition marker_at (sqrt_half : Q) (shape : option string) (lw s : Q)
  (c : Q * Q) (m : marker_t) : Prop :=
  exists i, get_marker shape lw = Success i
            /\ draw_marker sqrt_half shape (new_marker i) s (fst c) (snd c)
               = Success m.

(** A marker made for the shape: drawn before, with some size at some
    place. *)
Definition made_for (sqrt_half : Q) (shape : option string) (lw : Q)
  (m : marker_t) : Prop :=
  exists s c, marker_at sqrt_half shape lw s c m.

(** A marker [draw_markers] meets in the list: new, or drawn before. *)
Definition new_or_made (sqrt_half : Q) (shape : option string) (lw : Q)
  (m : marker_t) : Prop :=
  (exists i, get_marker shape lw = Success i /\ m = new_marker i)
  \/ made_for sqrt_half shape lw m.

(** A marker of the shape drawn with size [s] at [c] has geometry, and
    never the constant [NotImplemented] for points; the positions of its
    line or mesh lie in the square of side [s] centred at [c], and its box
    is that square, given by the lower-left corner [c - s / 2] and the
    sides [s]. *)
Definition well_drawn (shape : option string) (s : Q) (c : Q * Q)
  (m : marker_t) : Prop :=
  m_points m <> Some NotImplemented
  /\ (shape <> None -> extent m <> [] \/ boxes m <> [])
  /\ Forall (in_square s c) (extent m)
  /\ Forall (fun b => b = ((fst c - s / 2, snd c - s / 2), (s, s)))
       (boxes m).

(** What drawing a marker of the shape gives: the marker a new one would
    be, well drawn. *)
Definition draws_well (sqrt_half : Q) (shape : option string) : Prop :=
  forall lw s cx cy m0,
    0 <= s -> 0 <= sqrt_half -> sqrt_half <= 1 ->
    new_or_made sqrt_half shape lw m0 ->
    exists m,
      draw_marker sqrt_half shape m0 s cx cy = Success m
      /\ marker_at sqrt_half shape lw s (cx, cy) m
      /\ well_drawn shape s (cx, cy) m.


(** ** Running the drawing code *)

(** Linear axes [0 .. 100] on the viewport [(40, 5, 200, 187)], the same
    with a log y axis [1 .. 100], and with a degenerate x range. *)
Definition params_linear : plot_params :=
  update false 0 100 false 0 100 (Viewport 40 5 200 187).

Definition params_log_y : plot_params :=
  update false 0 100 true 1 100 (Viewport 40 5 200 187).

Definition params_flat_x : plot_params :=
  update false 5 5 false 0 100 (Viewport 40 5 200 187).

Definition three_points : list (Q * Q) := [(0, 10); (50, 1); (100, 100)].

(** The mesh of a new plot, and a mesh of twelve vertices. *)
Definition new_mesh : mesh := Mesh [] [] "line_strip".

Definition mesh_of_twelve : mesh :=
  Mesh (replicate 48 0) (range 12) "triangles".

(** [metrics.dp] at density 1. *)
Definition dp_unit (x : Q) : Q := x.

Definition marks_example : tick_marks :=
  TickMarks true true false (Axes false 0 100 false 0 100)
    [0; 50; 100] [25; 75] [0; 100] [].

(** A graph of width 200 and height 218 with default tick labels, major x
    ticks every 50 and the y ticks [0, 50, 100], before its first redraw;
    it holds one plot. *)
Definition widget_example : widget :=
  Widget
    (Graph 0 0 200 218 5 (Axes false 0 100 false 0 100)
       EmptyString EmptyString None None
       [] [] (GLBool true) (GLBool true) [] [])
    (TickConfig (Num 50) (Num 0) (Seq [0; 50; 100]) (Seq []) 0)
    true true false [] [] [None] [None]
    [Plot default_params three_points 0 0]
    (replicate 20 0) (Mesh [] [] "lines")
    (PlotArea (0, 0) (0, 0)) (1, 1).

(** [sqrt(.5)] to four digits, and an asterisk marker of size 12 drawn at
    the origin with line width 1.5. *)
Definition sqrt_half_4 : Q := 7071 # 10000.

Definition marker_example : marker_t :=
  match draw_marker sqrt_half_4 (Some "*"%string)
          (new_marker (Line (3 # 2) None)) 12 0 0 with
  | Success m => m
  | Failure _ => new_marker Instruction
  end.

(** ** Binary64 runs

    The numbers of the program are Python floats: IEEE 754 binary64.  The
    embedding above takes them as exact rationals; it is the program on
    calls none of whose operations rounds.  This module has the linear tick
    generator and the pixel transform on the kernel's binary64 numbers, with
    every operation rounded as Python rounds it, to run calls that round. *)
Module F64.

Import PrimFloat.
#[local] Open Scope float_scope.

(** What the float code raises. *)
Inductive error : Type :=
| ZeroDivisionError
| IndexError
| OverflowError
| ValueError.

Inductive outcome (A : Type) : Type :=
| Returns (a : A)
| Raises (e : error).
Arguments Returns {A} a.
Arguments Raises {A} e.

Definition and_then {A B : Type} (c : outcome A) (f : A -> outcome B)
  : outcome B :=
  match c with
  | Returns a => f a
  | Raises e => Raises e
  end.

Notation "'let!' x ':=' c 'in' k" := (and_then c (fun x => k))
  (at level 10, x pattern, c at level 100, k at level 200,
   format "'[v' 'let!'  x  ':='  c  'in' '/' k ']'").

(** [float(z)] for an [int] below [2 ** 63]. *)
Definition of_int (z : Z) : float :=
  match z with
  | Z0 => 0
  | Zpos _ => of_uint63 (Uint63.of_Z z)
  | Zneg p => - of_uint63 (Uint63.of_Z (Zpos p))
  end.

(** The float written [n / 10 ** k] in decimal, as Python reads the
    literal: the binary64 number nearest to it, which the correctly rounded
    quotient of two exact floats is. *)
Definition decimal (n : Z) (k : positive) : float :=
  of_int n / of_int (10 ^ Zpos k).

(** [x / y]: raises [ZeroDivisionError] on a zero divisor. *)
Definition truediv (x y : float) : outcome float :=
  if y =? 0 then Raises ZeroDivisionError else Returns (x / y).

(** [math.floor(x)]: an [int]; raises on an infinity or a NaN. *)
Definition floor (x : float) : outcome Z :=
  match FloatOps.Prim2SF x with
  | SpecFloat.S754_zero _ => Returns 0%Z
  | SpecFloat.S754_finite s m e =>
      let v := match e with
               | Z0 => (Zpos m, 1%Z)
               | Zpos p => (Zpos m * 2 ^ Zpos p, 1)%Z
               | Zneg p => (Zpos m, 2 ^ Zpos p)%Z
               end in
      Returns (if s then (- fst v) / snd v else fst v / snd v)%Z
  | SpecFloat.S754_infinity _ => Raises OverflowError
  | SpecFloat.S754_nan => Raises ValueError
  end.

(** [l[k] = v] for [k >= 0]. *)
Definition setitem (l : list float) (k : nat) (v : float)
  : outcome (list float) :=
  if (k <? length l)%nat then Returns (<[k := v]> l) else Raises IndexError.

(** [sorted(l, reverse=r)]: a stable insertion sort. *)
Fixpoint insert_sorted (r : bool) (x : float) (l : list float) : list float :=
  match l with
  | [] => [x]
  | y :: l' =>
      if (if r then y <=? x else x <=? y)
      then x :: y :: l'
      else y :: insert_sorted r x l'
  end.

Definition sorted (r : bool) (l : list float) : list float :=
  fold_right (insert_sorted r) [] l.

(** [for m in range(0, n_ticks)] of the linear branch on the buffers
    [(points_major, points_minor, k, k2)]. *)
Fixpoint linear_loop (minor : Z) (tick_dist s_min : float) (ms : list Z)
  (b : list float * list float * nat * nat)
  : outcome (list float * list float * nat * nat) :=
  match ms with
  | [] => Returns b
  | m :: ms' =>
      let '(points_major, points_minor, k, k2) := b in
      let! b' :=
        (if negb (minor =? 0)%Z && negb (m mod minor =? 0)%Z then
           let! pm := setitem points_minor k2 (of_int m * tick_dist + s_min) in
           Returns (points_major, pm, k, S k2)
         else
           let! pm := setitem points_major k (of_int m * tick_dist + s_min) in
           Returns (pm, points_minor, S k, k2)) in
      linear_loop minor tick_dist s_min ms' b'
  end.

(** [_get_ticks(major, minor, False, s_min, s_max)] for a float [major],
    an [int] [minor] and float bounds. *)
Definition get_ticks_linear (major : float) (minor : Z) (s_min s_max : float)
  : outcome (list float * list float) :=
  if 0 <? major then
    let minor := Z.max minor 0 in
    let! b :=
      (if negb (s_max =? s_min) then
         let! tick_dist :=
           truediv major (if (minor =? 0)%Z then 1 else of_int minor) in
         let! q := truediv (s_max - s_min) tick_dist in
         let! fl := floor (abs q) in
         let n_ticks := (fl + 1)%Z in
         let tick_dist := abs tick_dist * (if s_min <? s_max then 1 else -1) in
         let! q' := truediv (s_max - s_min) major in
         let! fl' := floor (abs q') in
         let points_major := replicate (Z.to_nat (fl' + 1)) 0 in
         let points_minor :=
           replicate (Z.to_nat (n_ticks - Z.of_nat (length points_major) + 1))
             0 in
         linear_loop minor tick_dist s_min
           (map Z.of_nat (seq 0 (Z.to_nat n_ticks)))
           (points_major, points_minor, 0%nat, 0%nat)
       else Returns ([], [], 1%nat, 1%nat)) in
    let '(points_major, points_minor, k, k2) := b in
    Returns (sorted (s_max <? s_min) (take k points_major),
             sorted (s_max <? s_min) (take k2 points_minor))
  else Returns (sorted (s_max <? s_min) [], sorted (s_max <? s_min) []).

(** The viewport [size] of a plot. *)
Record viewport : Type := Viewport {
  x0 : float; y0 : float; x1 : float; y1 : float
}.

(** [Plot.x_px()(x)] on a linear axis. *)
Definition x_px (xmin xmax : float) (size : viewport) (x : float)
  : outcome float :=
  let xrange := xmax - xmin in
  let! ratiox :=
    (if negb (xrange =? 0) then truediv (x1 size - x0 size) xrange
     else Returns 0) in
  Returns ((x - xmin) * ratiox + x0 size).

End F64.


(** * Properties *)

(** ** The Python runtime *)

Lemma leb_true (a b : Q) : leb a b = true <-> a <= b.
Proof. unfold leb. apply Qle_bool_iff. Qed.

Lemma leb_false (a b : Q) : leb a b = false <-> b < a.
Proof.
  unfold leb. split; intros H.
  - apply Qnot_le_lt. intros Hle. apply Qle_bool_iff in Hle. congruence.
  - destruct (Qle_bool a b) eqn:E; [|reflexivity].
    apply Qle_bool_iff in E. exfalso. lra.
Qed.

Lemma ltb_true (a b : Q) : ltb a b = true <-> a < b.
Proof.
  unfold ltb. rewrite negb_true_iff. apply (leb_false b a).
Qed.

Lemma ltb_false (a b : Q) : ltb a b = false <-> b <= a.
Proof.
  unfold ltb. rewrite negb_false_iff. apply (leb_true b a).
Qed.

Lemma truthy_true (q : Q) : truthy q = true <-> ~ q == 0.
Proof.
  unfold truthy. rewrite negb_true_iff. split; intros H.
  - intros E. apply Qeq_bool_iff in E. congruence.
  - destruct (Qeq_bool q 0) eqn:E; [|reflexivity].
    apply Qeq_bool_iff in E. contradiction.
Qed.

Lemma truthy_false (q : Q) : truthy q = false <-> q == 0.
Proof.
  unfold truthy. rewrite negb_false_iff. apply Qeq_bool_iff.
Qed.

Lemma truediv_ok (a b : Q) : ~ b == 0 -> truediv a b = Ok (a / b).
Proof.
  intros H. unfold truediv.
  destruct (Qeq_bool b 0) eqn:E; [|reflexivity].
  apply Qeq_bool_iff in E. contradiction.
Qed.

Lemma truediv_zero (a b : Q) : b == 0 -> truediv a b = Raise ZeroDivisionError.
Proof.
  intros H. unfold truediv. apply Qeq_bool_iff in H. now rewrite H.
Qed.

Lemma bind_ok {A B : Type} (c : result A) (f : A -> result B) (v : B) :
  bind c f = Ok v -> exists a, c = Ok a /\ f a = Ok v.
Proof. destruct c as [a|e]; cbn; [eauto|discriminate]. Qed.

(** Invert a [let*] that ends in [Ok]. *)
Tactic Notation "bind_inv" hyp(H) "as" simple_intropattern(a) ident(E) :=
  apply bind_ok in H; destruct H as (a & E & H).

(** *** [sorted] *)

Lemma dir_test (r : bool) (x y : Q) :
  (if r then leb y x else leb x y) = true <-> dir r x y.
Proof. destruct r; apply leb_true. Qed.

Lemma dir_total (r : bool) (x y : Q) : dir r x y \/ dir r y x.
Proof. destruct r; cbn; destruct (Qlt_le_dec x y); lra. Qed.

Lemma dir_trans (r : bool) (x y z : Q) : dir r x y -> dir r y z -> dir r x z.
Proof. destruct r; cbn; lra. Qed.

Lemma dir_antisym (r : bool) (x y : Q) : dir r x y -> dir r y x -> x == y.
Proof. destruct r; cbn; lra. Qed.

Lemma dir_compat (r : bool) (x x' y y' : Q) :
  x == x' -> y == y' -> dir r x y -> dir r x' y'.
Proof. destruct r; cbn; lra. Qed.

Lemma insert_sorted_perm (r : bool) (x : Q) (l : list Q) :
  Permutation (x :: l) (insert_sorted r x l).
Proof.
  induction l as [|y l IH]; cbn.
  - apply Permutation_refl.
  - destruct (if r then leb y x else leb x y).
    + apply Permutation_refl.
    + eapply Permutation_trans; [apply perm_swap|].
      now apply perm_skip.
Qed.

Lemma sorted_perm (r : bool) (l : list Q) : Permutation l (sorted r l).
Proof.
  induction l as [|x l IH]; cbn.
  - apply perm_nil.
  - eapply Permutation_trans; [|apply insert_sorted_perm].
    now apply perm_skip.
Qed.

Lemma sorted_In (r : bool) (l : list Q) (p : Q) : In p (sorted r l) <-> In p l.
Proof.
  split; apply Permutation_in;
    [apply Permutation_sym|]; apply sorted_perm.
Qed.

Lemma sorted_length (r : bool) (l : list Q) : length (sorted r l) = length l.
Proof. symmetry. apply Permutation_length, sorted_perm. Qed.

Lemma insert_sorted_StronglySorted (r : bool) (x : Q) (l : list Q) :
  StronglySorted (dir r) l -> StronglySorted (dir r) (insert_sorted r x l).
Proof.
  induction 1 as [|y l Hl IH Hy]; cbn.
  - repeat constructor.
  - destruct (if r then leb y x else leb x y) eqn:E.
    + apply dir_test in E.
      constructor; [now constructor|].
      constructor; [exact E|].
      eapply Forall_impl; [exact Hy|].
      intros z Hz. eapply dir_trans; eassumption.
    + assert (Hyx : dir r y x).
      { destruct (dir_total r x y) as [H|H]; [|exact H].
        apply dir_test in H. congruence. }
      constructor; [exact IH|].
      apply List.Forall_forall. intros z Hz.
      apply (Permutation_in _ (Permutation_sym (insert_sorted_perm r x l)))
        in Hz.
      destruct Hz as [<-|Hz]; [exact Hyx|].
      rewrite List.Forall_forall in Hy. now apply Hy.
Qed.

Lemma sorted_StronglySorted (r : bool) (l : list Q) :
  StronglySorted (dir r) (sorted r l).
Proof.
  induction l as [|x l IH]; cbn.
  - constructor.
  - now apply insert_sorted_StronglySorted.
Qed.

(** Sorting a list that is already in order returns it unchanged. *)
Lemma sorted_id (r : bool) (l : list Q) :
  Sorted (dir r) l -> sorted r l = l.
Proof.
  induction 1 as [|x l Hl IH Hx]; cbn; [reflexivity|].
  rewrite IH. destruct Hx as [|y l Hxy]; cbn; [reflexivity|].
  apply dir_test in Hxy. now rewrite Hxy.
Qed.

Lemma countq_perm (q : Q) (l l' : list Q) :
  Permutation l l' -> countq q l = countq q l'.
Proof.
  unfold countq. induction 1 as [|x l l' _ IH|x y l|l l' l'' _ IH1 _ IH2]; cbn.
  - reflexivity.
  - destruct (Qeq_bool q x); cbn; congruence.
  - destruct (Qeq_bool q x), (Qeq_bool q y); reflexivity.
  - congruence.
Qed.

Lemma countq_pos (q : Q) (l : list Q) :
  (0 < countq q l)%nat -> exists y, In y l /\ q == y.
Proof.
  unfold countq. induction l as [|x l IH]; cbn; [lia|].
  destruct (Qeq_bool q x) eqn:E.
  - intros _. exists x. split; [now left|now apply Qeq_bool_iff].
  - intros H. destruct (IH H) as (y & Hy & Hq). exists y. auto.
Qed.

Lemma Qeq_bool_compat (q a b : Q) : a == b -> Qeq_bool q a = Qeq_bool q b.
Proof.
  intros H. destruct (Qeq_bool q a) eqn:Ea, (Qeq_bool q b) eqn:Eb;
    try reflexivity; exfalso.
  - apply Qeq_bool_iff in Ea. apply Qeq_bool_neq in Eb. apply Eb. lra.
  - apply Qeq_bool_iff in Eb. apply Qeq_bool_neq in Ea. apply Ea. lra.
Qed.

(** Two lists in the same order with the same numbers are equal as
    sequences of numbers. *)
Lemma sorted_unique (r : bool) (l1 l2 : list Q) :
  StronglySorted (dir r) l1 -> StronglySorted (dir r) l2 ->
  (forall q, countq q l1 = countq q l2) ->
  Forall2 Qeq l1 l2.
Proof.
  intros H1. revert l2.
  induction H1 as [|a l1 Hl1 IH Ha]; intros l2 H2 Hc.
  - destruct l2 as [|b l2]; [constructor|].
    specialize (Hc b). unfold countq in Hc. cbn in Hc.
    rewrite Qeq_bool_refl in Hc. discriminate.
  - destruct H2 as [|b l2 Hl2 Hb].
    { specialize (Hc a). unfold countq in Hc. cbn in Hc.
      rewrite Qeq_bool_refl in Hc. discriminate. }
    rewrite List.Forall_forall in Ha, Hb.
    assert (Hba : dir r a b).
    { assert (Hp : (0 < countq b (a :: l1))%nat).
      { rewrite Hc. unfold countq. cbn. rewrite Qeq_bool_refl. cbn. lia. }
      destruct (countq_pos b _ Hp) as (y & [Hy|Hy] & Hq).
      - subst y. apply (dir_compat r a a a b); [reflexivity|now symmetry|].
        destruct (dir_total r a a); assumption.
      - apply (dir_compat r a a y b); [reflexivity|now symmetry|].
        now apply Ha. }
    assert (Hab' : dir r b a).
    { assert (Hp : (0 < countq a (b :: l2))%nat).
      { rewrite <- Hc. unfold countq. cbn. rewrite Qeq_bool_refl. cbn. lia. }
      destruct (countq_pos a _ Hp) as (y & [Hy|Hy] & Hq).
      - subst y. apply (dir_compat r b b b a); [reflexivity|now symmetry|].
        destruct (dir_total r b b); assumption.
      - apply (dir_compat r b b y a); [reflexivity|now symmetry|].
        now apply Hb. }
    assert (Hab : a == b) by (apply (dir_antisym r); assumption).
    constructor; [exact Hab|].
    apply IH; [exact Hl2|].
    intros q. specialize (Hc q). unfold countq in *. cbn in Hc.
    rewrite (Qeq_bool_compat q a b Hab) in Hc.
    destruct (Qeq_bool q b); cbn in Hc; lia.
Qed.

Lemma StronglySorted_snoc {A : Type} (R : A -> A -> Prop) (l : list A)
  (x : A) :
  StronglySorted R l -> Forall (fun y => R y x) l ->
  StronglySorted R (l ++ [x]).
Proof.
  induction 1 as [|y l Hl IH Hy]; intros Hx; cbn.
  - repeat constructor.
  - inversion Hx as [|? ? Hyx Hlx]; subst.
    constructor; [now apply IH|].
    apply List.Forall_app. split; [exact Hy|]. now constructor.
Qed.

Lemma rev_StronglySorted (r : bool) (l : list Q) :
  StronglySorted (dir r) l -> StronglySorted (dir (negb r)) (rev l).
Proof.
  induction 1 as [|x l Hl IH Hx]; cbn.
  - constructor.
  - apply StronglySorted_snoc; [exact IH|].
    apply List.Forall_forall. intros y Hy. apply in_rev in Hy.
    rewrite List.Forall_forall in Hx. specialize (Hx y Hy).
    destruct r; exact Hx.
Qed.

(** [sorted(l, reverse=True)] is [sorted(l)] read backwards. *)
Lemma sorted_reverse (r : bool) (l : list Q) :
  Forall2 Qeq (sorted (negb r) l) (rev (sorted r l)).
Proof.
  apply (sorted_unique (negb r)).
  - apply sorted_StronglySorted.
  - apply rev_StronglySorted, sorted_StronglySorted.
  - intros q. apply countq_perm.
    eapply Permutation_trans; [apply Permutation_sym, sorted_perm|].
    eapply Permutation_trans; [apply (sorted_perm r)|].
    apply Permutation_rev.
Qed.

Section TickProperties.

Variable log10r : Q -> Q.
Variable pow10r : Q -> Q.

(** *** Invalid and degenerate configurations *)

Lemma get_ticks_mixed_seq (fuel : nat) (major : list Q) (q : Q) (log : bool)
  (s_min s_max : Q) :
  get_ticks log10r pow10r fuel (Seq major) (Num q) log s_min s_max
  = get_ticks log10r pow10r fuel (Seq major) (Seq []) log s_min s_max.
Proof. reflexivity. Qed.

Lemma get_ticks_mixed_num (fuel : nat) (major : Q) (l : list Q) (log : bool)
  (s_min s_max : Q) :
  get_ticks log10r pow10r fuel (Num major) (Seq l) log s_min s_max
  = get_ticks log10r pow10r fuel (Num major) (Num 0) log s_min s_max.
Proof. reflexivity. Qed.


Lemma get_ticks_degenerate (fuel : nat) (major : Q) (minor : tickspec)
  (s_min s_max : Q) :
  0 < major -> s_min == s_max ->
  get_ticks log10r pow10r fuel (Num major) minor false s_min s_max
    = Ok (Some ([], [])).
Proof.
  intros Hm He. apply ltb_true in Hm.
  assert (Hq : Qeq_bool s_max s_min = true)
    by (apply Qeq_bool_iff; symmetry; exact He).
  destruct minor as [q|l]; cbn [get_ticks is_seq eqb negb empty_like];
    rewrite Hm; cbn; rewrite Hq; reflexivity.
Qed.

End TickProperties.

(** *** The linear branch *)

Lemma setitem_ok (l : list Q) (i : nat) (v : Q) :
  (i < length l)%nat -> setitem l i v = Ok (<[i := v]> l).
Proof.
  intros H. unfold setitem. apply Nat.ltb_lt in H. now rewrite H.
Qed.

Lemma take_setitem (l : list Q) (i : nat) (v : Q) :
  (i < length l)%nat -> take (S i) (<[i := v]> l) = take i l ++ [v].
Proof.
  intros H.
  rewrite (take_S_r _ _ v).
  - now rewrite take_insert_ge by lia.
  - now apply list_lookup_insert_eq.
Qed.

Lemma linear_loop_spec (minor td s_min : Q) (ms : list Z) (b : tickbuf) :
  (k b + length (List.filter (is_major minor) ms)
   <= length (points_major b))%nat ->
  (k2 b + length (List.filter (is_minor minor) ms)
   <= length (points_minor b))%nat ->
  exists b',
    for_each (linear_step minor td s_min) ms b = Ok b'
    /\ take (k b') (points_major b')
       = take (k b) (points_major b)
         ++ map (tick_pos td s_min) (List.filter (is_major minor) ms)
    /\ take (k2 b') (points_minor b')
       = take (k2 b) (points_minor b)
         ++ map (tick_pos td s_min) (List.filter (is_minor minor) ms).
Proof.
  revert b. induction ms as [|m ms IH]; intros b HM Hm.
  - exists b. cbn. rewrite !app_nil_r. auto.
  - cbn [for_each]. unfold linear_step. fold (tick_pos td s_min m).
    cbn [List.filter] in HM, Hm |- *. unfold is_major in HM |- *.
    destruct (is_minor minor m) eqn:E; cbn [negb length] in HM, Hm |- *.
    + unfold put_minor. rewrite setitem_ok by lia. cbn [bind].
      destruct (IH (TickBuf (points_major b)
                      (<[k2 b := tick_pos td s_min m]> (points_minor b))
                      (k b) (S (k2 b)))) as (b' & Hb & H1 & H2).
      { cbn [k k2 points_major points_minor]. unfold is_major. lia. }
      { cbn [k k2 points_major points_minor]. rewrite length_insert. lia. }
      exists b'. split; [exact Hb|]. split; [exact H1|].
      rewrite H2. cbn [points_minor k2]. rewrite take_setitem by lia.
      now rewrite <- app_assoc.
    + unfold put_major. rewrite setitem_ok by lia. cbn [bind].
      destruct (IH (TickBuf (<[k b := tick_pos td s_min m]> (points_major b))
                      (points_minor b) (S (k b)) (k2 b)))
        as (b' & Hb & H1 & H2).
      { cbn [k k2 points_major points_minor]. rewrite length_insert.
        unfold is_major. lia. }
      { cbn [k k2 points_major points_minor]. lia. }
      exists b'. split; [exact Hb|]. split; [|exact H2].
      rewrite H1. cbn [points_major k]. rewrite take_setitem by lia.
      now rewrite <- app_assoc.
Qed.

Lemma Qfloor_div_inject (m n : Z) :
  (0 < n)%Z -> Qfloor (inject_Z m / inject_Z n) = (m / n)%Z.
Proof.
  intros Hn. destruct n as [|p|p]; try lia.
  unfold Qdiv, Qinv, inject_Z, Qmult, Qfloor. cbn [Qnum Qden].
  f_equal; lia.
Qed.

Lemma mod_inject (m n : Z) :
  (0 < n)%Z -> mod_ (inject_Z m) (inject_Z n) == inject_Z (m mod n).
Proof.
  intros Hn. unfold mod_. rewrite Qfloor_div_inject by exact Hn.
  rewrite Z.mod_eq by lia.
  rewrite <- inject_Z_mult. unfold Qminus.
  rewrite <- inject_Z_opp, <- inject_Z_plus.
  apply inject_Z_injective. lia.
Qed.

Lemma truthy_inject (n : Z) : truthy (inject_Z n) = negb (n =? 0)%Z.
Proof.
  destruct (Z.eqb_spec n 0) as [->|Hn]; cbn.
  - reflexivity.
  - apply truthy_true. intros H.
    apply Hn. apply inject_Z_injective. exact H.
Qed.

Lemma truthy_compat (x y : Q) : x == y -> truthy x = truthy y.
Proof.
  intros H. destruct (truthy y) eqn:E.
  - apply truthy_true. apply truthy_true in E. lra.
  - apply truthy_false. apply truthy_false in E. lra.
Qed.

Lemma is_minor_inject (n m : Z) :
  (0 <= n)%Z ->
  is_minor (inject_Z n) m = negb (n =? 0)%Z && negb (m mod n =? 0)%Z.
Proof.
  intros Hn. unfold is_minor. rewrite truthy_inject.
  destruct (Z.eqb_spec n 0) as [->|Hn0]; cbn [negb andb]; [reflexivity|].
  rewrite (truthy_compat _ _ (mod_inject m n ltac:(lia))).
  apply truthy_inject.
Qed.

Lemma inject_Z_lt (x y : Z) : (x < y)%Z <-> inject_Z x < inject_Z y.
Proof. now rewrite Zlt_Qlt. Qed.

Lemma inject_Z_le (x y : Z) : (x <= y)%Z <-> inject_Z x <= inject_Z y.
Proof. now rewrite Zle_Qle. Qed.

Lemma Qfloor_mul_div (X : Q) (n : Z) :
  (0 < n)%Z -> (Qfloor (X * inject_Z n) / n)%Z = Qfloor X.
Proof.
  intros Hn.
  assert (Hq : 0 < inject_Z n) by (apply (inject_Z_lt 0 n); exact Hn).
  pose proof (Qfloor_le X) as H1. pose proof (Qlt_floor X) as H2.
  pose proof (Qfloor_le (X * inject_Z n)) as H3.
  pose proof (Qlt_floor (X * inject_Z n)) as H4.
  set (f := Qfloor X) in *. set (g := Qfloor (X * inject_Z n)) in *.
  assert (Hlo : (f * n <= g)%Z).
  { apply Z.lt_succ_r. apply inject_Z_lt.
    rewrite inject_Z_mult. unfold Z.succ. rewrite inject_Z_plus in H4 |- *.
    eapply Qle_lt_trans; [|exact H4].
    apply Qmult_le_compat_r; lra. }
  assert (Hhi : (g < (f + 1) * n)%Z).
  { apply inject_Z_lt. rewrite inject_Z_mult.
    eapply Qle_lt_trans; [exact H3|].
    apply Qmult_lt_compat_r; [exact Hq|]. exact H2. }
  symmetry. apply (Z.div_unique g n f (g - f * n)); lia.
Qed.

Lemma range_snoc (c : Z) : (0 <= c)%Z -> range (c + 1) = range c ++ [c].
Proof.
  intros Hc. unfold range.
  replace (Z.to_nat (c + 1)) with (S (Z.to_nat c)) by lia.
  rewrite seq_S, map_app. cbn. now rewrite Z2Nat.id by exact Hc.
Qed.

Lemma range_nonpos (c : Z) : (c <= 0)%Z -> range c = [].
Proof.
  intros Hc. unfold range. now replace (Z.to_nat c) with 0%nat by lia.
Qed.

Lemma length_range (c : Z) : length (range c) = Z.to_nat c.
Proof. unfold range. now rewrite length_map, length_seq. Qed.

Lemma range_ind (P : Z -> Prop) :
  P 0%Z -> (forall c, (0 <= c)%Z -> P c -> P (c + 1)%Z) ->
  forall c, (0 <= c)%Z -> P c.
Proof.
  intros H0 HS c Hc. rewrite <- (Z2Nat.id c Hc).
  induction (Z.to_nat c) as [|i IH]; [exact H0|].
  rewrite Nat2Z.inj_succ. apply HS; [lia|exact IH].
Qed.

Lemma range_sorted (c : Z) : StronglySorted Z.lt (range c).
Proof.
  destruct (Z.le_gt_cases c 0) as [H|H].
  { rewrite range_nonpos by exact H. constructor. }
  assert (Hc : (0 <= c)%Z) by lia. clear H. revert c Hc.
  apply range_ind; [constructor|].
  intros c Hc IH. rewrite range_snoc by exact Hc.
  apply StronglySorted_snoc; [exact IH|].
  apply List.Forall_forall. intros x Hx. unfold range in Hx.
  apply in_map_iff in Hx. destruct Hx as (i & <- & Hi).
  apply in_seq in Hi. lia.
Qed.

(** The indices below [c] that are multiples of [n]. *)
Lemma filter_multiples (n c : Z) :
  (0 < n)%Z -> (0 <= c)%Z ->
  List.filter (fun m => (m mod n =? 0)%Z) (range c)
  = map (fun j => (j * n)%Z) (range ((c + n - 1) / n)).
Proof.
  intros Hn. revert c. apply range_ind.
  - cbn. now rewrite Z.div_small by lia.
  - intros c Hc IH. rewrite range_snoc by exact Hc.
    rewrite List.filter_app, IH. cbn [List.filter].
    destruct (Z.eqb_spec (c mod n) 0) as [E|E].
    + assert (Hq : c = (c / n * n)%Z).
      { rewrite Z.mul_comm. apply Z.div_exact; lia. }
      assert (Hq0 : (0 <= c / n)%Z) by (apply Z.div_pos; lia).
      set (q := (c / n)%Z) in *.
      assert (H1 : ((c + n - 1) / n = q)%Z).
      { rewrite Hq. replace (q * n + n - 1)%Z with (n - 1 + q * n)%Z by lia.
        rewrite Z.div_add by lia. rewrite Z.div_small by lia. lia. }
      assert (H2 : ((c + 1 + n - 1) / n = q + 1)%Z).
      { rewrite Hq.
        replace (q * n + 1 + n - 1)%Z with (0 + (q + 1) * n)%Z by lia.
        rewrite Z.div_add by lia. rewrite Z.div_small by lia. lia. }
      rewrite H1, H2, range_snoc by exact Hq0.
      rewrite map_app. cbn [map]. now rewrite <- Hq.
    + replace ((c + 1 + n - 1) / n)%Z with ((c + n - 1) / n)%Z.
      2:{ pose proof (Z.div_mod c n ltac:(lia)) as Hd.
          pose proof (Z.mod_pos_bound c n Hn) as Hb.
          set (q := (c / n)%Z) in *. set (t := (c mod n)%Z) in *.
          rewrite Hd.
          replace (n * q + t + n - 1)%Z with (t - 1 + (q + 1) * n)%Z by lia.
          replace (n * q + t + 1 + n - 1)%Z with (t + (q + 1) * n)%Z by lia.
          rewrite !Z.div_add by lia. rewrite !Z.div_small by lia. reflexivity. }
      now rewrite app_nil_r.
Qed.

Lemma subdiv_pos (n : Z) : (0 < subdiv n)%Z.
Proof. unfold subdiv. lia. Qed.

Lemma divisor_inject (n : Z) :
  (0 <= n)%Z ->
  (if truthy (inject_Z n) then inject_Z n else 1) = inject_Z (subdiv n).
Proof.
  intros Hn. rewrite truthy_inject. unfold subdiv.
  destruct (Z.eqb_spec n 0) as [->|H0]; cbn [negb]; [reflexivity|].
  f_equal. lia.
Qed.

Lemma is_major_inject (n m : Z) :
  (0 <= n)%Z -> is_major (inject_Z n) m = (m mod subdiv n =? 0)%Z.
Proof.
  intros Hn. unfold is_major. rewrite is_minor_inject by exact Hn.
  unfold subdiv. destruct (Z.eqb_spec n 0) as [->|H0]; cbn [negb andb].
  - now rewrite Z.mod_1_r.
  - rewrite negb_involutive. f_equal. f_equal. lia.
Qed.

Lemma max_inject_0 (n : Z) : (0 <= n)%Z -> max (inject_Z n) 0 = inject_Z n.
Proof.
  intros Hn. unfold max.
  assert (H : ltb (inject_Z n) 0 = false).
  { apply ltb_false. exact (proj1 (inject_Z_le 0 n) Hn). }
  now rewrite H.
Qed.

Section Linear.

Variables (major : Q) (n : Z) (a b : Q).
Hypothesis Hmajor : 0 < major.
Hypothesis Hn : (0 <= n)%Z.

#[local] Abbreviation d := (lin_dist major n).
#[local] Abbreviation n_ticks := (lin_count major n a b).
#[local] Abbreviation n_major := (lin_major_count major a b).
#[local] Abbreviation td := (lin_step major n a b).

Lemma subdiv_Qpos : 0 < inject_Z (subdiv n).
Proof. exact (proj1 (inject_Z_lt 0 (subdiv n)) (subdiv_pos n)). Qed.

Lemma d_pos : 0 < d.
Proof.
  unfold lin_dist. apply Qlt_shift_div_l; [apply subdiv_Qpos|lra].
Qed.

Lemma n_major_div : ((n_ticks - 1) / subdiv n + 1 = n_major)%Z.
Proof.
  unfold lin_count, lin_major_count.
  replace (Qfloor (Qabs ((b - a) / d)) + 1 - 1)%Z
    with (Qfloor (Qabs ((b - a) / d))) by lia.
  f_equal.
  rewrite <- (Qfloor_mul_div (Qabs ((b - a) / major)) (subdiv n))
    by (apply subdiv_pos).
  f_equal. apply Qfloor_comp.
  pose proof subdiv_Qpos as Hs.
  assert (E : (b - a) / d == (b - a) / major * inject_Z (subdiv n))
    by (unfold lin_dist; field; split; lra).
  rewrite E, Qabs_Qmult, (Qabs_pos (inject_Z (subdiv n))) by lra.
  reflexivity.
Qed.

Lemma n_ticks_pos : (1 <= n_ticks)%Z.
Proof.
  unfold lin_count.
  pose proof (Qfloor_resp_le 0 _ (Qabs_nonneg ((b - a) / d))) as H.
  change (Qfloor 0) with 0%Z in H. lia.
Qed.

Lemma majors_multiples :
  List.filter (is_major (inject_Z n)) (range n_ticks)
  = map (fun j => (j * subdiv n)%Z) (range n_major).
Proof.
  rewrite (List.filter_ext _ (fun m => (m mod subdiv n =? 0)%Z))
    by (intros m; now apply is_major_inject).
  pose proof n_ticks_pos as Hp. pose proof (subdiv_pos n) as Hs.
  rewrite filter_multiples by lia.
  rewrite <- n_major_div. f_equal. f_equal.
  replace (n_ticks + subdiv n - 1)%Z with (n_ticks - 1 + 1 * subdiv n)%Z by lia.
  now rewrite Z.div_add by lia.
Qed.

Lemma n_major_le : (1 <= n_major <= n_ticks)%Z.
Proof.
  pose proof n_ticks_pos as Hp. pose proof (subdiv_pos n) as Hs.
  rewrite <- n_major_div. split.
  - assert (0 <= (n_ticks - 1) / subdiv n)%Z by (apply Z.div_pos; lia). lia.
  - assert ((n_ticks - 1) / subdiv n <= n_ticks - 1)%Z; [|lia].
    apply Z.div_le_upper_bound; [lia|]. nia.
Qed.

Lemma linear_ticks_spec :
  exists buf,
    linear_ticks major (inject_Z n) a b = Ok buf
    /\ take (k buf) (points_major buf)
       = map (tick_pos td a)
           (List.filter (is_major (inject_Z n)) (range n_ticks))
    /\ take (k2 buf) (points_minor buf)
       = map (tick_pos td a)
           (List.filter (is_minor (inject_Z n)) (range n_ticks)).
Proof.
  pose proof d_pos as Hd. pose proof subdiv_Qpos as Hs.
  pose proof n_major_le as Hle.
  unfold linear_ticks. rewrite divisor_inject by exact Hn.
  rewrite truediv_ok by lra. cbn [bind]. fold d.
  rewrite truediv_ok by lra. cbn [bind]. fold n_ticks.
  fold (sign a b). fold td.
  rewrite truediv_ok by lra. cbn [bind]. fold n_major.
  destruct (linear_loop_spec (inject_Z n) td a (range n_ticks)
              (TickBuf (repeat_list 0 n_major)
                 (repeat_list 0
                    (n_ticks - Z.of_nat (length (repeat_list 0 n_major)) + 1))
                 0 0)) as (buf & Hb & H1 & H2).
  - cbn [k points_major]. unfold repeat_list. rewrite length_replicate.
    rewrite majors_multiples, length_map, length_range. lia.
  - cbn [k2 points_minor]. unfold repeat_list. rewrite !length_replicate.
    pose proof (List.filter_length (is_minor (inject_Z n)) (range n_ticks))
      as Hf.
    fold (is_major (inject_Z n)) in Hf.
    rewrite majors_multiples, length_map, !length_range in Hf. lia.
  - exists buf. auto.
Qed.

Lemma td_direction (x y : Z) :
  ~ a == b -> (x < y)%Z ->
  dir (ltb b a) (tick_pos td a x) (tick_pos td a y).
Proof.
  intros Hab Hxy. apply inject_Z_lt in Hxy.
  pose proof (Qabs_nonneg d) as Hd.
  unfold tick_pos, lin_step, sign. set (D := Qabs d) in *.
  set (X := inject_Z x) in *. set (Y := inject_Z y) in *.
  destruct (ltb a b) eqn:E1.
  - apply ltb_true in E1.
    assert (E2 : ltb b a = false) by (apply ltb_false; lra).
    rewrite E2. cbn [dir]. nra.
  - apply ltb_false in E1.
    assert (E2 : ltb b a = true) by (apply ltb_true; lra).
    rewrite E2. cbn [dir]. nra.
Qed.

Lemma ticks_in_order (f : Z -> bool) (ms : list Z) :
  ~ a == b -> StronglySorted Z.lt ms ->
  StronglySorted (dir (ltb b a)) (map (tick_pos td a) (List.filter f ms)).
Proof.
  intros Hab. induction 1 as [|x ms Hms IH Hx]; cbn; [constructor|].
  destruct (f x); [|exact IH].
  cbn. constructor; [exact IH|].
  apply List.Forall_forall. intros q Hq.
  apply in_map_iff in Hq. destruct Hq as (y & <- & Hy).
  apply List.filter_In in Hy. destruct Hy as [Hy _].
  rewrite List.Forall_forall in Hx. apply td_direction; auto.
Qed.

Lemma get_ticks_linear (log10r pow10r : Q -> Q) (fuel : nat) :
  ~ a == b ->
  get_ticks log10r pow10r fuel (Num major) (Num (inject_Z n)) false a b
  = Ok (Some
         (map (tick_pos td a)
            (List.filter (is_major (inject_Z n)) (range n_ticks)),
          map (tick_pos td a)
            (List.filter (is_minor (inject_Z n)) (range n_ticks)))).
Proof.
  intros Hab.
  destruct linear_ticks_spec as (buf & Hb & H1 & H2).
  unfold get_ticks. cbn [is_seq Bool.eqb negb].
  assert (Hm : ltb 0 major = true) by (now apply ltb_true).
  rewrite Hm, max_inject_0 by exact Hn. cbn [andb negb].
  assert (Hq : Qeq_bool b a = false).
  { destruct (Qeq_bool b a) eqn:E; [|reflexivity].
    apply Qeq_bool_iff in E. exfalso. apply Hab. now symmetry. }
  rewrite Hq. cbn [negb]. rewrite Hb. cbn [bind]. rewrite H1, H2.
  rewrite !sorted_id; [reflexivity| |];
    apply StronglySorted_Sorted, ticks_in_order; auto using range_sorted.
Qed.






End Linear.



(** *** The explicit-list branch and the order of the results *)

Lemma in_range_between (s_min s_max p : Q) :
  in_range s_min s_max p = true <-> between s_min s_max p.
Proof.
  unfold in_range, between.
  rewrite orb_true_iff, !andb_true_iff, !leb_true. tauto.
Qed.

Lemma in_range_swap (s_min s_max p : Q) :
  in_range s_min s_max p = in_range s_max s_min p.
Proof.
  unfold in_range.
  destruct (leb s_min p), (leb p s_max), (leb p s_min), (leb s_max p);
    reflexivity.
Qed.

Lemma contains_spec (l : list Q) (p : Q) :
  contains l p = true <-> exists q, In q l /\ p == q.
Proof.
  unfold contains. rewrite existsb_exists.
  split; intros (q & Hq & H); exists q; split; auto; now apply Qeq_bool_iff.
Qed.

Section Log.

Variable log10r : Q -> Q.

Lemma log10_ok (x : Q) : 0 < x -> log10 log10r x = Ok (log10r x).
Proof.
  intros H. unfold log10.
  assert (E : leb x 0 = false) by (now apply leb_false).
  now rewrite E.
Qed.

Lemma log10_domain (x : Q) : x <= 0 -> log10 log10r x = Raise ValueError.
Proof.
  intros H. unfold log10. apply leb_true in H. now rewrite H.
Qed.

Lemma mapM_log10 (l : list Q) :
  Forall (fun x => 0 < x) l -> mapM (log10 log10r) l = Ok (map log10r l).
Proof.
  induction 1 as [|x l Hx _ IH]; cbn; [reflexivity|].
  now rewrite log10_ok, IH.
Qed.

End Log.

Lemma between_pos (s_min s_max p : Q) :
  0 < s_min -> 0 < s_max -> between s_min s_max p -> 0 < p.
Proof. unfold between. intros ? ? [[? ?]|[? ?]]; lra. Qed.

Lemma Forall2_all_eq (x : Q) (l1 l2 : list Q) :
  Forall (Qeq x) l1 -> Forall (Qeq x) l2 -> length l1 = length l2 ->
  Forall2 Qeq l1 l2.
Proof.
  intros H1. revert l2. induction H1 as [|a l1 Ha _ IH]; intros l2 H2 Hl.
  - destruct l2; [constructor|discriminate].
  - destruct H2 as [|b l2 Hb H2]; [discriminate|].
    constructor; [lra|]. apply IH; auto.
Qed.

(** Sorting the same numbers in the two directions of an axis. *)
Lemma sorted_swap (s_min s_max : Q) (l : list Q) :
  (s_min == s_max -> exists x, Forall (Qeq x) l) ->
  Forall2 Qeq (sorted (ltb s_min s_max) l) (rev (sorted (ltb s_max s_min) l)).
Proof.
  intros Hdeg.
  destruct (ltb s_max s_min) eqn:E1.
  - apply ltb_true in E1.
    assert (E2 : ltb s_min s_max = false) by (apply ltb_false; lra).
    rewrite E2. apply (sorted_reverse true).
  - apply ltb_false in E1. destruct (ltb s_min s_max) eqn:E2.
    + apply (sorted_reverse false).
    + apply ltb_false in E2.
      assert (He : s_min == s_max) by lra.
      destruct (Hdeg He) as (x & Hx).
      assert (Hall : forall l', Permutation l l' -> Forall (Qeq x) l').
      { intros l' Hp. apply List.Forall_forall. intros p Hp'.
        rewrite List.Forall_forall in Hx.
        apply Hx.
        eapply Permutation_in; [apply Permutation_sym|]; eassumption. }
      apply (Forall2_all_eq x).
      * apply Hall, sorted_perm.
      * apply Hall. eapply Permutation_trans; [apply (sorted_perm false)|].
        apply Permutation_rev.
      * now rewrite length_rev.
Qed.

(** *** Absence of [TypeError] *)

Lemma well_typed_ok {A : Type} (a : A) : well_typed (Ok a).
Proof. discriminate. Qed.

Lemma well_typed_bind {A B : Type} (c : result A) (f : A -> result B) :
  well_typed c -> (forall a, well_typed (f a)) -> well_typed (bind c f).
Proof.
  unfold well_typed. intros Hc Hf. destruct c as [a|e]; cbn; [apply Hf|].
  congruence.
Qed.

Lemma well_typed_truediv (a b : Q) : well_typed (truediv a b).
Proof. unfold well_typed, truediv. destruct (Qeq_bool b 0); discriminate. Qed.

Lemma well_typed_setitem (l : list Q) (i : nat) (v : Q) :
  well_typed (setitem l i v).
Proof. unfold well_typed, setitem. destruct (i <? length l)%nat; discriminate. Qed.

Lemma well_typed_log10 (log10r : Q -> Q) (x : Q) : well_typed (log10 log10r x).
Proof. unfold well_typed, log10. destruct (leb x 0); discriminate. Qed.

Create HintDb well_typed.

#[local] Hint Resolve well_typed_ok well_typed_truediv well_typed_setitem
  well_typed_log10 : well_typed.

(** Decompose a computation into its [let*] steps. *)
Ltac well_typed_steps :=
  repeat first
    [ solve [auto with well_typed]
    | apply well_typed_bind; [|intros ?]
    | match goal with
      | |- well_typed (if ?b then _ else _) => destruct b
      | |- well_typed (match ?x with _ => _ end) => destruct x
      end ].

Lemma well_typed_put_major (b : tickbuf) (v : Q) : well_typed (put_major b v).
Proof. unfold put_major. well_typed_steps. Qed.

Lemma well_typed_put_minor (b : tickbuf) (v : Q) : well_typed (put_minor b v).
Proof. unfold put_minor. well_typed_steps. Qed.

#[local] Hint Resolve well_typed_put_major well_typed_put_minor : well_typed.

Lemma well_typed_mapM_log10 (log10r : Q -> Q) (l : list Q) :
  well_typed (mapM (log10 log10r) l).
Proof.
  induction l as [|x l IH]; cbn [mapM]; well_typed_steps.
Qed.

Lemma well_typed_for_each {S A : Type} (body : S -> A -> result S)
  (ms : list A) :
  (forall st m, well_typed (body st m)) ->
  forall st, well_typed (for_each body ms st).
Proof.
  intros Hb. induction ms as [|m ms IH]; intros st; cbn [for_each];
    well_typed_steps.
Qed.

Lemma well_typed_linear_ticks (major minor s_min s_max : Q) :
  well_typed (linear_ticks major minor s_min s_max).
Proof.
  unfold linear_ticks. well_typed_steps.
  apply well_typed_for_each. intros st m. unfold linear_step. well_typed_steps.
Qed.

Lemma well_typed_log_loop (log10r : Q -> Q) (fuel : nat)
  (minor decade_dist min_pos start_dec s_max : Q) :
  forall st,
    well_typed (log_loop log10r fuel minor decade_dist min_pos start_dec
                  s_max st).
Proof.
  induction fuel as [|fuel IH]; intros st; cbn [log_loop]; well_typed_steps.
Qed.

Lemma well_typed_log_ticks (log10r pow10r : Q -> Q) (fuel : nat)
  (major minor s_min s_max : Q) :
  well_typed (log_ticks log10r pow10r fuel major minor s_min s_max).
Proof.
  unfold log_ticks. well_typed_steps. apply well_typed_log_loop.
Qed.

#[local] Hint Resolve well_typed_mapM_log10 well_typed_linear_ticks
  well_typed_log_ticks : well_typed.


(** ** Claims on the tick generator *)

Section Claims.
Variable log10r pow10r : Q -> Q.



(** The explicit-list branch, for a valid axis range. *)
Lemma get_ticks_seq (fuel : nat) (major minor : list Q) (log : bool)
  (s_min s_max : Q) :
  (log = true -> 0 < s_min /\ 0 < s_max) ->
  let sel_major := List.filter (in_range s_min s_max) major in
  let sel_minor :=
    List.filter (fun p => in_range s_min s_max p
                          && negb (contains sel_major p)) minor in
  get_ticks log10r pow10r fuel (Seq major) (Seq minor) log s_min s_max
  = Ok (Some (sorted (ltb s_max s_min)
                (if log then map log10r sel_major else sel_major),
              sorted (ltb s_max s_min)
                (if log then map log10r sel_minor else sel_minor))).
Proof.
  intros Hlog sel_major sel_minor. unfold get_ticks. cbn [is_seq Bool.eqb negb].
  fold sel_major. fold sel_minor.
  destruct log. 2:{ reflexivity. }
  destruct (Hlog eq_refl) as [H1 H2].
  assert (Hsel : forall p, in_range s_min s_max p = true -> 0 < p).
  { intros p Hp. apply in_range_between in Hp.
    apply (between_pos s_min s_max); assumption. }
  rewrite (mapM_log10 log10r sel_major).
  2:{ apply List.Forall_forall. intros p Hp.
      apply List.filter_In in Hp. now apply Hsel. }
  cbn [bind]. rewrite (mapM_log10 log10r sel_minor).
  2:{ apply List.Forall_forall. intros p Hp.
      apply List.filter_In in Hp. destruct Hp as [_ Hp].
      apply andb_true_iff in Hp. now apply Hsel. }
  reflexivity.
Qed.

Lemma mapM_log10_ok (l l' : list Q) :
  mapM (log10 log10r) l = Ok l' -> l' = map log10r l.
Proof.
  revert l'. induction l as [|x l IH]; intros l' H; cbn in H.
  - now injection H as <-.
  - bind_inv H as y Ey. bind_inv H as l'' El. injection H as <-.
    rewrite (IH _ El). unfold log10 in Ey.
    destruct (leb x 0); [discriminate|]. now injection Ey as <-.
Qed.

(** C6: in explicit-list mode the selected major (minor) values are
    exactly the elements of the major (minor) list that lie between [s_min]
    and [s_max] in either direction, the minor ones being moreover different
    from every selected major value; the returned sequences are the selected
    values in linear mode and their [log10] in log mode, reordered.  The
    call returns whenever the axis range is valid (positive bounds in log
    mode). *)
Theorem explicit_list_ticks (fuel : nat) (major minor : list Q) (log : bool)
  (s_min s_max : Q) :
  exists sel_major sel_minor,
    (forall p, In p sel_major <-> In p major /\ between s_min s_max p)
    /\ (forall p, In p sel_minor <->
          In p minor /\ between s_min s_max p
          /\ forall q, In q sel_major -> ~ p == q)
    /\ (forall majors minors,
          get_ticks log10r pow10r fuel (Seq major) (Seq minor) log s_min s_max
            = Ok (Some (majors, minors)) ->
          Permutation majors (if log then map log10r sel_major else sel_major)
          /\ Permutation minors
               (if log then map log10r sel_minor else sel_minor))
    /\ ((log = true -> 0 < s_min /\ 0 < s_max) ->
        exists majors minors,
          get_ticks log10r pow10r fuel (Seq major) (Seq minor) log s_min s_max
            = Ok (Some (majors, minors))).
Proof.
  exists (List.filter (in_range s_min s_max) major).
  exists (List.filter
            (fun p => in_range s_min s_max p
                      && negb (contains
                                 (List.filter (in_range s_min s_max) major) p))
            minor).
  split; [|split; [|split]].
  - intros p. now rewrite List.filter_In, in_range_between.
  - intros p. rewrite List.filter_In, andb_true_iff, in_range_between.
    rewrite negb_true_iff.
    split.
    + intros (Hp & Hb & Hc). repeat split; auto.
      intros q Hq Hpq.
      assert (Ht : contains (List.filter (in_range s_min s_max) major) p = true)
        by (apply contains_spec; eauto).
      congruence.
    + intros (Hp & Hb & Hc). repeat split; auto.
      destruct (contains _ p) eqn:E; [|reflexivity].
      apply contains_spec in E. destruct E as (q & Hq & Hpq).
      exfalso. exact (Hc q Hq Hpq).
  - intros majors minors H. unfold get_ticks in H.
    cbn [is_seq Bool.eqb negb] in H.
    bind_inv H as X EX. bind_inv H as Y EY. injection H as <- <-.
    destruct log.
    + apply mapM_log10_ok in EX, EY. subst X Y.
      split; apply Permutation_sym, sorted_perm.
    + injection EX as <-. injection EY as <-.
      split; apply Permutation_sym, sorted_perm.
  - intros Hlog. eexists. eexists. apply get_ticks_seq. exact Hlog.
Qed.

(** The bounds returned by the log branch are the logarithms of the
    axis bounds. *)
Lemma log_ticks_bounds (fuel : nat) (major minor s_min s_max : Q)
  (b : tickbuf) (lmin lmax : Q) :
  log_ticks log10r pow10r fuel major minor s_min s_max
    = Ok (Some (b, lmin, lmax)) ->
  lmin = log10r s_min /\ lmax = log10r s_max.
Proof.
  unfold log_ticks. intros H.
  bind_inv H as l1 E1. bind_inv H as l2 E2. bind_inv H as nd End.
  bind_inv H as ntm Entm. bind_inv H as dd Edd. bind_inv H as sd Esd.
  bind_inv H as cm Ecm. bind_inv H as [b'|] Eloop; cbn in H; [|discriminate].
  unfold log10 in E1, E2.
  destruct (leb s_min 0); [discriminate|].
  destruct (leb s_max 0); [discriminate|].
  injection E1 as <-. injection E2 as <-. now injection H as _ <- <-.
Qed.

(** The numeric branches return their ticks in the direction of the
    axis. *)
Lemma get_ticks_num_ordered (fuel : nat) (major minor : Q) (log : bool)
  (s_min s_max : Q) (majors minors : list Q) :
  get_ticks log10r pow10r fuel (Num major) (Num minor) log s_min s_max
    = Ok (Some (majors, minors)) ->
  (log = true -> s_min < s_max -> log10r s_min <= log10r s_max) ->
  StronglySorted (dir (ltb s_max s_min)) majors
  /\ StronglySorted (dir (ltb s_max s_min)) minors.
Proof.
  intros H Hmono. unfold get_ticks in H. cbn [is_seq Bool.eqb negb] in H.
  destruct (ltb 0 major).
  2:{ injection H as <- <-. split; constructor. }
  bind_inv H as [[[b lmin] lmax]|] E; [|discriminate].
  injection H as <- <-.
  assert (Hr : ltb lmax lmin = ltb s_max s_min).
  { destruct (log && ltb s_min s_max) eqn:El.
    - apply andb_true_iff in El. destruct El as [-> El].
      apply ltb_true in El.
      apply log_ticks_bounds in E. destruct E as [-> ->].
      specialize (Hmono eq_refl El).
      transitivity false; [|symmetry]; apply ltb_false; lra.
    - destruct (negb log && negb (Qeq_bool s_max s_min)).
      + bind_inv E as b' Eb. now injection E as _ <- <-.
      + now injection E as _ <- <-. }
  rewrite Hr. split; apply sorted_StronglySorted.
Qed.

(** The explicit-list branch returns its ticks in the direction of the
    axis, and the same positions backwards when the bounds are swapped. *)
Lemma get_ticks_seq_ordered (fuel : nat) (major minor : list Q) (log : bool)
  (s_min s_max : Q) (majors minors : list Q) :
  get_ticks log10r pow10r fuel (Seq major) (Seq minor) log s_min s_max
    = Ok (Some (majors, minors)) ->
  (log = true -> forall p q, p == q -> log10r p == log10r q) ->
  (StronglySorted (dir (ltb s_max s_min)) majors
   /\ StronglySorted (dir (ltb s_max s_min)) minors)
  /\ exists majors' minors',
       get_ticks log10r pow10r fuel (Seq major) (Seq minor) log s_max s_min
         = Ok (Some (majors', minors'))
       /\ Forall2 Qeq majors' (rev majors)
       /\ Forall2 Qeq minors' (rev minors).
Proof.
  intros H Hcompat. unfold get_ticks in H |- *.
  cbn [is_seq Bool.eqb negb] in H |- *.
  rewrite (List.filter_ext (in_range s_max s_min) (in_range s_min s_max))
    by (intros p; apply in_range_swap).
  set (sel_major := List.filter (in_range s_min s_max) major) in *.
  rewrite (List.filter_ext
             (fun p => in_range s_max s_min p && negb (contains sel_major p))
             (fun p => in_range s_min s_max p && negb (contains sel_major p)))
    by (intros p; now rewrite in_range_swap).
  set (sel_minor := List.filter _ minor) in *.
  assert (HM : forall p, In p sel_major -> s_min == s_max -> s_min == p).
  { intros p Hp He. apply List.filter_In in Hp. destruct Hp as [_ Hp].
    apply in_range_between in Hp. unfold between in Hp. lra. }
  assert (Hm : forall p, In p sel_minor -> s_min == s_max -> s_min == p).
  { intros p Hp He. apply List.filter_In in Hp. destruct Hp as [_ Hp].
    apply andb_true_iff in Hp. destruct Hp as [Hp _].
    apply in_range_between in Hp. unfold between in Hp. lra. }
  bind_inv H as X EX. bind_inv H as Y EY. injection H as <- <-.
  rewrite EX, EY. cbn [bind].
  split; [split; apply sorted_StronglySorted|].
  eexists. eexists. split; [reflexivity|].
  destruct log.
  - apply mapM_log10_ok in EX, EY. subst X Y.
    split; apply sorted_swap; intros He; exists (log10r s_min);
      apply List.Forall_forall;
      intros q Hq; apply in_map_iff in Hq; destruct Hq as (p & <- & Hp);
      apply (Hcompat eq_refl); auto.
  - injection EX as <-. injection EY as <-.
    split; apply sorted_swap; intros He; exists s_min;
      apply List.Forall_forall; intros p Hp; auto.
Qed.

(** C5 (amended): every returned tick sequence is ascending when
    [s_min <= s_max] and descending otherwise; in explicit-list mode,
    swapping [s_min] and [s_max] returns the same positions in the reverse
    order.  (In numeric mode the ticks are anchored at [s_min], so the swapped
    call returns other positions in general.)  In log mode [log10] is taken
    to be monotone at the axis bounds and to respect numeric equality. *)
Theorem ticks_follow_axis_direction (fuel : nat) (major minor : tickspec)
  (log : bool) (s_min s_max : Q) (majors minors : list Q) :
  get_ticks log10r pow10r fuel major minor log s_min s_max
    = Ok (Some (majors, minors)) ->
  (log = true -> s_min < s_max -> log10r s_min <= log10r s_max) ->
  (log = true -> forall p q, p == q -> log10r p == log10r q) ->
  (StronglySorted (dir (ltb s_max s_min)) majors
   /\ StronglySorted (dir (ltb s_max s_min)) minors)
  /\ (is_seq major = true ->
      exists majors' minors',
        get_ticks log10r pow10r fuel major minor log s_max s_min
          = Ok (Some (majors', minors'))
        /\ Forall2 Qeq majors' (rev majors)
        /\ Forall2 Qeq minors' (rev minors)).
Proof.
  intros H Hmono Hcompat.
  destruct major as [major|major], minor as [minor|minor].
  - split; [|discriminate]. eapply get_ticks_num_ordered; eassumption.
  - split; [|discriminate]. rewrite get_ticks_mixed_num in H.
    eapply get_ticks_num_ordered; eassumption.
  - rewrite get_ticks_mixed_seq in H |- *.
    destruct (get_ticks_seq_ordered _ _ _ _ _ _ _ _ H Hcompat) as [Ho Hs].
    split; [exact Ho|]. intros _. exact Hs.
  - destruct (get_ticks_seq_ordered _ _ _ _ _ _ _ _ H Hcompat) as [Ho Hs].
    split; [exact Ho|]. intros _. exact Hs.
Qed.



(** C4 (amended): for a degenerate linear range [s_min = s_max] and a
    numeric [major > 0], [_get_ticks] returns no major tick and no minor
    tick. *)
Theorem degenerate_linear_range_has_no_ticks (fuel : nat) (major : Q)
  (minor : tickspec) (s_min s_max : Q) :
  0 < major -> s_min == s_max ->
  get_ticks log10r pow10r fuel (Num major) minor false s_min s_max
    = Ok (Some ([], [])).
Proof. apply get_ticks_degenerate. Qed.


End Claims.

(** Evaluate the closed arguments of [f] in the goal. *)
Ltac eval_args f :=
  repeat match goal with
         | |- context [f ?a] =>
             lazymatch a with
             | context [f] => fail
             | _ =>
                 let a' := eval vm_compute in a in
                 lazymatch a with
                 | a' => fail
                 | _ => change (f a) with (f a')
                 end
             end
         end.

(** C3: the log-mode run with [s_min = 1], [s_max = 100], [major = 1],
    [minor = 1].  The major ticks returned are the [log10] values [1] and
    [2]: the range start [0] is not among them. *)
Theorem log_two_decades_skips_range_start (log10r pow10r : Q -> Q)
  (fuel : nat) :
  log10r 1 = 0 -> log10r 100 = 2 ->
  pow10r 2 = 100 -> pow10r (-1 # 1) = 1 # 10 ->
  get_ticks log10r pow10r (3 + fuel) (Num 1) (Num 1) true 1 100
  = Ok (Some ([1; 2], [])).
Proof.
  intros L1 L100 P2 Pm1.
  unfold get_ticks. cbn [is_seq Bool.eqb negb].
  change (ltb 0 1) with true. cbn iota.
  change (max 1 0) with 1. change (true && ltb 1 100) with true. cbn iota.
  unfold log_ticks, log10.
  change (leb 1 0) with false. change (leb 100 0) with false. cbn iota.
  rewrite L1, L100. cbn [bind]. cbv zeta.
  eval_args pow10r. rewrite P2, Pm1.
  vm_compute. reflexivity.
Qed.

(** ** The axis transform *)

Section Transform.

Variable log10r pow10r : Q -> Q.

Lemma func_ok (log : bool) (x : Q) :
  (log = true -> 0 < x) ->
  func log10r log x = Ok (transformed log10r log x).
Proof.
  intros H. unfold func, transformed. destruct log; [|reflexivity].
  apply log10_ok. now apply H.
Qed.

Lemma func_not_zero_division (log : bool) (x : Q) :
  func log10r log x <> Raise ZeroDivisionError.
Proof.
  unfold func, log10. destruct log; [|discriminate].
  destruct (leb x 0); discriminate.
Qed.

(** One axis of the data-to-pixel map: a non-degenerate range. *)
Lemma ratio_ok (w fmin fmax : Q) :
  ~ fmax == fmin ->
  (if truthy (fmax - fmin) then truediv w (fmax - fmin) else Ok 0)
  = Ok (w / (fmax - fmin)).
Proof.
  intros H.
  assert (Ht : truthy (fmax - fmin) = true) by (apply truthy_true; lra).
  rewrite Ht. apply truediv_ok. lra.
Qed.

(** One axis of the data-to-pixel map: a degenerate range. *)
Lemma ratio_degenerate (w fmin fmax : Q) :
  fmax == fmin ->
  (if truthy (fmax - fmin) then truediv w (fmax - fmin) else Ok 0) = Ok 0.
Proof.
  intros H.
  assert (Ht : truthy (fmax - fmin) = false) by (apply truthy_false; lra).
  now rewrite Ht.
Qed.

Lemma ratio_not_zero_division (w fmin fmax : Q) :
  (if truthy (fmax - fmin) then truediv w (fmax - fmin) else Ok 0)
  <> Raise ZeroDivisionError.
Proof.
  destruct (truthy (fmax - fmin)) eqn:E; [|discriminate].
  apply truthy_true in E. now rewrite truediv_ok.
Qed.

(** One axis of the round trip. *)
Lemma round_trip_axis (log : bool) (amin amax lo hi v : Q) :
  (log = true -> 0 < amin /\ 0 < amax /\ 0 < v) ->
  ~ transformed log10r log amax == transformed log10r log amin ->
  ~ hi - lo == 0 ->
  (log = true -> forall y, y == log10r v -> pow10r y == v) ->
  let fmin := transformed log10r log amin in
  let fmax := transformed log10r log amax in
  let fv := transformed log10r log v in
  let px := (fv - fmin) * ((hi - lo) / (fmax - fmin)) + lo in
  exists d,
    to_data1 log10r pow10r log amin amax ((px - lo) / (hi - lo)) = Ok d
    /\ d == v.
Proof.
  intros Hdom Hne Hsz Hinv fmin fmax fv px.
  assert (Hnorm : (px - lo) / (hi - lo) * (fmax - fmin) + fmin == fv).
  { unfold px. field. split; [|lra]. intros H. apply Hne. fold fmax fmin. lra. }
  unfold to_data1. unfold transformed in fmin, fmax, fv. destruct log.
  - destruct (Hdom eq_refl) as (H1 & H2 & H3).
    rewrite !log10_ok by assumption. cbn [bind].
    eexists. split; [reflexivity|].
    apply (Hinv eq_refl). exact Hnorm.
  - eexists. split; [reflexivity|]. exact Hnorm.
Qed.

(** Data-to-pixel direction: a degenerate range maps every input to the
    pixel origin. *)
Lemma x_px_degenerate (p : plot_params) (fmin fmax : Q) :
  funcx log10r p (p_xmin p) = Ok fmin ->
  funcx log10r p (p_xmax p) = Ok fmax ->
  fmax == fmin ->
  exists f,
    x_px log10r p = Ok f
    /\ forall x fx, funcx log10r p x = Ok fx ->
         exists px, f x = Ok px /\ px == x0 (p_size p).
Proof.
  intros Hmin Hmax He. unfold x_px. rewrite Hmin, Hmax. cbn [bind].
  rewrite ratio_degenerate by exact He. cbn [bind].
  eexists. split; [reflexivity|].
  intros x fx Hx. cbn beta. rewrite Hx. cbn [bind].
  eexists. split; [reflexivity|]. ring.
Qed.

Lemma y_px_degenerate (p : plot_params) (fmin fmax : Q) :
  funcy log10r p (p_ymin p) = Ok fmin ->
  funcy log10r p (p_ymax p) = Ok fmax ->
  fmax == fmin ->
  exists f,
    y_px log10r p = Ok f
    /\ forall y fy, funcy log10r p y = Ok fy ->
         exists py, f y = Ok py /\ py == y0 (p_size p).
Proof.
  intros Hmin Hmax He. unfold y_px. rewrite Hmin, Hmax. cbn [bind].
  rewrite ratio_degenerate by exact He. cbn [bind].
  eexists. split; [reflexivity|].
  intros y fy Hy. cbn beta. rewrite Hy. cbn [bind].
  eexists. split; [reflexivity|]. ring.
Qed.

(** Data-to-pixel direction: no division by zero. *)
Lemma x_px_no_zero_division (p : plot_params) :
  x_px log10r p <> Raise ZeroDivisionError
  /\ forall f x, x_px log10r p = Ok f -> f x <> Raise ZeroDivisionError.
Proof.
  unfold x_px, funcx.
  pose proof (func_not_zero_division (p_xlog p) (p_xmin p)) as H1.
  pose proof (func_not_zero_division (p_xlog p) (p_xmax p)) as H2.
  destruct (func log10r (p_xlog p) (p_xmin p)) as [fmin|e1];
    [|cbn; split; [congruence|discriminate]].
  destruct (func log10r (p_xlog p) (p_xmax p)) as [fmax|e2];
    [|cbn; split; [congruence|discriminate]].
  cbn [bind].
  pose proof (ratio_not_zero_division
                (x1 (p_size p) - x0 (p_size p)) fmin fmax) as H3.
  destruct (if truthy (fmax - fmin) then _ else _) as [r|e3];
    [|cbn; split; [congruence|discriminate]].
  cbn [bind]. split; [discriminate|].
  intros f x Hf. injection Hf as <-.
  pose proof (func_not_zero_division (p_xlog p) x) as H4.
  destruct (func log10r (p_xlog p) x); cbn; [discriminate|congruence].
Qed.

(** Pixel-to-data direction: [Graph.to_data] divides by the size of the
    plot area only. *)
Lemma to_data_no_zero_division (a : axes) (pa : plot_area) (x y : Q) :
  ~ fst (size pa) == 0 -> ~ snd (size pa) == 0 ->
  to_data log10r pow10r a pa x y <> Raise ZeroDivisionError.
Proof.
  intros Hw Hh. unfold to_data. rewrite !truediv_ok by assumption.
  cbn [bind]. unfold to_data1.
  destruct (xlog a), (ylog a); cbn [bind];
    repeat match goal with
           | |- context [log10 log10r ?v] =>
               let E := fresh "E" in
               destruct (log10 log10r v) eqn:E; cbn [bind];
               [|unfold log10 in E; destruct (leb v 0); congruence]
           end;
    discriminate.
Qed.

(** Pixel-to-data direction: [unproject] divides by the zero ratio of a
    degenerate range. *)
Lemma unproject_degenerate (p : plot_params) (x y : Q) :
  p_xmax p == p_xmin p \/ p_ymax p == p_ymin p ->
  unproject p x y = Raise ZeroDivisionError.
Proof.
  intros H. unfold unproject.
  destruct (truthy (p_xmax p - p_xmin p)) eqn:Ex.
  - destruct H as [H|H]; [apply truthy_true in Ex; exfalso; lra|].
    destruct (truediv (x1 (p_size p) - x0 (p_size p)) (p_xmax p - p_xmin p))
      as [rx|e] eqn:Erx.
    2:{ unfold truediv in Erx.
        destruct (Qeq_bool (p_xmax p - p_xmin p) 0); [|discriminate].
        now injection Erx as <-. }
    cbn [bind]. rewrite ratio_degenerate by exact H. cbn [bind].
    unfold truediv at 1.
    destruct (Qeq_bool rx 0); [reflexivity|]. cbn [bind].
    now rewrite truediv_zero.
  - cbn [bind].
    destruct (if truthy (p_ymax p - p_ymin p) then _ else _) as [ry|e] eqn:Ery.
    + cbn [bind]. now rewrite truediv_zero.
    + cbn [bind]. destruct (truthy (p_ymax p - p_ymin p)); [|discriminate].
      unfold truediv in Ery.
      destruct (Qeq_bool (p_ymax p - p_ymin p) 0); [|discriminate].
      now injection Ery as <-.
Qed.

(** C2 (amended): for a non-degenerate axis range (different transformed
    bounds), a plot area of non-zero width and height and data values
    between the axis bounds, the data-to-pixel transform followed by
    [Graph.to_data] returns the data values, in linear and in log mode.  In
    log mode the axis bounds are positive and [10 ** x] inverts [log10] at
    the data value. *)
Theorem to_data_inverts_to_pixel (a : axes) (sz : viewport) (vx vy : Q) :
  (xlog a = true -> 0 < xmin a /\ 0 < xmax a) ->
  (ylog a = true -> 0 < ymin a /\ 0 < ymax a) ->
  ~ transformed log10r (xlog a) (xmax a)
    == transformed log10r (xlog a) (xmin a) ->
  ~ transformed log10r (ylog a) (ymax a)
    == transformed log10r (ylog a) (ymin a) ->
  ~ x1 sz - x0 sz == 0 -> ~ y1 sz - y0 sz == 0 ->
  between (xmin a) (xmax a) vx -> between (ymin a) (ymax a) vy ->
  (xlog a = true -> forall t, t == log10r vx -> pow10r t == vx) ->
  (ylog a = true -> forall t, t == log10r vy -> pow10r t == vy) ->
  exists fx fy px py dx dy,
    x_px log10r (update_plot a sz) = Ok fx
    /\ y_px log10r (update_plot a sz) = Ok fy
    /\ fx vx = Ok px /\ fy vy = Ok py
    /\ to_data log10r pow10r a (place_plot_area sz) px py = Ok (dx, dy)
    /\ dx == vx /\ dy == vy.
Proof.
  intros Hxd Hyd Hxr Hyr Hw Hh Hvx Hvy Hix Hiy.
  assert (Hxd' : xlog a = true -> 0 < xmin a /\ 0 < xmax a /\ 0 < vx).
  { intros E. destruct (Hxd E). repeat split; auto.
    now apply (between_pos (xmin a) (xmax a)). }
  assert (Hyd' : ylog a = true -> 0 < ymin a /\ 0 < ymax a /\ 0 < vy).
  { intros E. destruct (Hyd E). repeat split; auto.
    now apply (between_pos (ymin a) (ymax a)). }
  destruct (round_trip_axis (xlog a) (xmin a) (xmax a) (x0 sz) (x1 sz) vx
              Hxd' Hxr Hw Hix) as (dx & Hdx & Edx).
  destruct (round_trip_axis (ylog a) (ymin a) (ymax a) (y0 sz) (y1 sz) vy
              Hyd' Hyr Hh Hiy) as (dy & Hdy & Edy).
  unfold x_px, y_px, funcx, funcy, update_plot, update.
  cbn [p_xlog p_xmin p_xmax p_ylog p_ymin p_ymax p_size].
  rewrite !func_ok by (intros E; (apply Hxd in E || apply Hyd in E); tauto).
  cbn [bind]. rewrite !ratio_ok by assumption. cbn [bind].
  do 6 eexists. split; [reflexivity|]. split; [reflexivity|].
  cbn beta.
  rewrite !func_ok by (intros E; (apply Hxd' in E || apply Hyd' in E); tauto).
  cbn [bind]. split; [reflexivity|]. split; [reflexivity|].
  unfold to_data, place_plot_area. cbn [pos size fst snd].
  rewrite !truediv_ok by assumption. cbn [bind].
  rewrite Hdx, Hdy. cbn [bind]. auto.
Qed.

End Transform.

(** ** The label layout *)

Section LayoutProperties.

Variable log10r pow10r : Q -> Q.
Variable measure : string -> Q * Q.
Variable precision : Q -> string.

Lemma blank_texts (ls : list label) :
  Forall (fun l => text l = EmptyString) (blank ls).
Proof. induction ls; cbn; constructor; auto. Qed.

(** The x loop flags an overlap unless every label starts at or right of
    the right edge of its predecessor. *)
Lemma x_loop_no_overlap (gl : grid_label) (log : bool) (points : list Q)
  (x_next y_next xmin ratio : Q) (ls : list label) :
  forall (k : nat) (right : Q) (ls' : list label),
    x_loop pow10r measure precision gl log points x_next y_next xmin ratio
      k ls right = Ok (ls', false) ->
    chain_ok right ls'.
Proof.
  induction ls as [|l ls IH]; intros k right ls' H; cbn [x_loop] in H.
  - injection H as <-. exact I.
  - bind_inv H as t Et. bind_inv H as p Ep.
    match type of H with
    | (if ltb (lx ?l') right then _ else _) = _ => set (l1 := l') in *
    end.
    destruct (ltb (lx l1) right) eqn:Eo; [discriminate|].
    bind_inv H as [ls'' ov] Er. injection H as <- ->.
    apply ltb_false in Eo. cbn [chain_ok]. split; [lra|].
    eapply IH. exact Er.
Qed.

(** The x block of the layout: without a flagged overlap the tick labels
    form a chain. *)
Lemma x_tick_labels_no_overlap (g : graph) (x_next y_next xextent : Q)
  (ls : list label) (x_next' y_next' xextent' : Q) :
  (0 <? length (g_x_grid_labels g))%nat
  && gl_truthy (g_x_grid_label g) = true ->
  x_tick_labels log10r pow10r measure precision g x_next y_next xextent
  = Ok (ls, x_next', y_next', xextent', false) ->
  chain_ok (-1 # 1) ls.
Proof.
  intros Hc H. unfold x_tick_labels in H. rewrite Hc in H.
  bind_inv H as t Et. bind_inv H as l0 El0. bind_inv H as [l0' xn] Exn.
  bind_inv H as xmin Exmin. bind_inv H as xmax Exmax.
  bind_inv H as ratio Eratio. bind_inv H as [ls' ov] Eloop.
  bind_inv H as yn Eyn. injection H as <- _ _ _ ->.
  eapply x_loop_no_overlap. exact Eloop.
Qed.

(** A flagged overlap blanks every tick label of the axis. *)
Lemma update_labels_blanks (g : graph) (lay : layout) :
  update_labels log10r pow10r measure precision g = Ok lay ->
  (o_x_overlap lay = true ->
   Forall (fun l => text l = EmptyString) (o_x_grid_labels lay))
  /\ (o_y_overlap lay = true ->
      Forall (fun l => text l = EmptyString) (o_y_grid_labels lay)).
Proof.
  unfold update_labels. intros H.
  destruct (g_xlabel_w g), (g_ylabel_w g);
    bind_inv H as [[[yl xn] ye] yo] Ey;
    bind_inv H as [[[[xl xn'] yn'] xe] xo] Ex;
    injection H as <-;
    cbn [o_x_overlap o_y_overlap o_x_grid_labels o_y_grid_labels];
    split; intros ->; apply blank_texts.
Qed.

Lemma chain_ok_blank (right : Q) (ls : list label) :
  chain_ok right (blank ls) <-> chain_ok right ls.
Proof.
  revert right. induction ls as [|l ls IH]; intros right; cbn; [tauto|].
  now rewrite IH.
Qed.

Lemma y_overlap_test_blank (ls : list label) :
  y_overlap_test (blank ls) = y_overlap_test ls.
Proof. destruct ls as [|l0 [|l1 ls]]; reflexivity. Qed.

(** The y block flags an overlap exactly when the first two labels
    overlap. *)
Lemma y_tick_labels_first_pair (g : graph) (x_next y_next yextent : Q)
  (ls : list label) (x_next' yextent' : Q) (ov : bool) :
  (0 <? length (g_y_grid_labels g))%nat
  && gl_truthy (g_y_grid_label g) = true ->
  y_tick_labels log10r pow10r measure precision g x_next y_next yextent
  = Ok (ls, x_next', yextent', ov) ->
  ov = y_overlap_test ls
  /\ (ov = true -> x_next' = x_next).
Proof.
  intros Hc H. unfold y_tick_labels in H. rewrite Hc in H.
  bind_inv H as t Et. bind_inv H as l0 El0. bind_inv H as ymin Eymin.
  bind_inv H as ymax Eymax. bind_inv H as ratio Eratio.
  bind_inv H as [ls1 w] Etext. bind_inv H as ls2 Epos.
  destruct (y_overlap_test ls2) eqn:Eo; injection H as <- <- <- <-; auto.
  split; [auto|discriminate].
Qed.

(** A layout pass: the overlap flags and what they do. *)
Lemma update_labels_overlap (g : graph) (lay : layout) :
  update_labels log10r pow10r measure precision g = Ok lay ->
  ((0 <? length (g_x_grid_labels g))%nat
  && gl_truthy (g_x_grid_label g) = true ->
   o_x_overlap lay = false -> chain_ok (-1 # 1) (o_x_grid_labels lay))
  /\ ((0 <? length (g_y_grid_labels g))%nat
  && gl_truthy (g_y_grid_label g) = true ->
      o_y_overlap lay = y_overlap_test (o_y_grid_labels lay)).
Proof.
  unfold update_labels. intros H.
  destruct (g_xlabel_w g), (g_ylabel_w g);
    bind_inv H as [[[yl xn] ye] yo] Ey;
    bind_inv H as [[[[xl xn'] yn'] xe] xo] Ex;
    injection H as <-;
    cbn [o_x_overlap o_y_overlap o_x_grid_labels o_y_grid_labels];
    (split;
     [ intros Hc ->; eapply x_tick_labels_no_overlap; eassumption
     | intros Hc;
       destruct (y_tick_labels_first_pair _ _ _ _ _ _ _ _ Hc Ey) as [-> _];
       destruct (y_overlap_test yl) eqn:Eo;
         [now rewrite y_overlap_test_blank|now rewrite Eo] ]).
Qed.

End LayoutProperties.

(** C9: a layout pass with y ticks at [0], [50] and [55].  The second and
    the third tick label overlap vertically, the first and the second do
    not: no overlap is flagged, the labels keep their texts and the left
    inset is reserved. *)
Theorem y_overlap_beyond_first_pair_not_detected :
  exists lay l0 l1 l2,
    update_labels log10_whole pow10_whole measure_mono precision_int
      graph_three_y_ticks = Ok lay
    /\ o_y_grid_labels lay = [l0; l1; l2]
    /\ (ly l0, ly l1, ly l2) = (-3 # 1, 97, 107)
    /\ ly l2 < ltop l1
    /\ o_y_overlap lay = false
    /\ (text l0, text l1, text l2) = ("0", "50", "55")%string
    /\ o_x_next lay == 5 + (16 + 5).
Proof.
  do 4 eexists. split; [vm_compute; reflexivity|].
  repeat (split; [reflexivity|]). reflexivity.
Qed.

(** ** Concrete runs *)

(** C7: plot parameters with the degenerate x range [xmin = xmax = 5] and
    the viewport [(0, 0, 100, 100)].  [x_px] maps the input to the pixel
    origin, and [unproject] divides by the zero ratio. *)
Theorem unproject_raises_on_degenerate_range :
  let p := update false 5 5 false 0 100 (Viewport 0 0 100 100) in
  (exists f, x_px log10_whole p = Ok f /\ f 7 = Ok 0)
  /\ unproject p 10 10 = Raise ZeroDivisionError.
Proof.
  split; [eexists; split; reflexivity|reflexivity].
Qed.



(** Explicit lists on the reversed axis [10 .. 0]. *)
Lemma explicit_list_ticks_witness :
  exists sel_major sel_minor,
    (forall p, In p sel_major <-> In p [1; 7; 3; 20] /\ between 10 0 p)
    /\ (forall p, In p sel_minor <->
          In p [3; 4; 2] /\ between 10 0 p
          /\ forall q, In q sel_major -> ~ p == q)
    /\ Permutation [7; 3; 1] sel_major
    /\ Permutation [4; 2] sel_minor.
Proof.
  destruct (explicit_list_ticks log10_whole pow10_whole 0
              [1; 7; 3; 20] [3; 4; 2] false 10 0)
    as (sel_major & sel_minor & HM & Hm & Hret & Htot).
  exists sel_major, sel_minor.
  split; [exact HM|]. split; [exact Hm|].
  apply (Hret [7; 3; 1] [4; 2]). reflexivity.
Defined.

(** The same lists on [0 .. 10] and, swapped, on [10 .. 0]. *)
Lemma ticks_follow_axis_direction_witness :
  (StronglySorted (dir (ltb 10 0)) [1; 3; 7]
   /\ StronglySorted (dir (ltb 10 0)) [2; 4])
  /\ (is_seq (Seq [1; 7; 3; 20]) = true ->
      exists majors' minors',
        get_ticks log10_whole pow10_whole 0
          (Seq [1; 7; 3; 20]) (Seq [3; 4; 2]) false 10 0
        = Ok (Some (majors', minors'))
        /\ Forall2 Qeq majors' (rev [1; 3; 7])
        /\ Forall2 Qeq minors' (rev [2; 4])).
Proof.
  apply (ticks_follow_axis_direction log10_whole pow10_whole 0
           (Seq [1; 7; 3; 20]) (Seq [3; 4; 2]) false 0 10 [1; 3; 7] [2; 4]).
  - reflexivity.
  - discriminate.
  - discriminate.
Defined.

(** The degenerate range [5 .. 5]. *)
Lemma degenerate_linear_range_has_no_ticks_witness :
  get_ticks log10_whole pow10_whole 0 (Num 1) (Num 0) false 5 5
    = Ok (Some ([], [])).
Proof.
  apply (degenerate_linear_range_has_no_ticks log10_whole pow10_whole 0
           1 (Num 0) 5 5); reflexivity.
Defined.


(** The run with the instances that are exact on whole decades. *)
Lemma log_two_decades_skips_range_start_witness :
  get_ticks log10_whole pow10_whole 3 (Num 1) (Num 1) true 1 100
  = Ok (Some ([1; 2], [])).
Proof.
  apply (log_two_decades_skips_range_start log10_whole pow10_whole 0);
    reflexivity.
Defined.

(** A linear x axis [0 .. 100] and a log y axis [1 .. 100] on the viewport
    [(40, 5, 200, 187)]. *)
Lemma to_data_inverts_to_pixel_witness :
  exists fx fy px py dx dy,
    x_px log10_whole
      (update_plot (Axes false 0 100 true 1 100) (Viewport 40 5 200 187))
    = Ok fx
    /\ y_px log10_whole
         (update_plot (Axes false 0 100 true 1 100) (Viewport 40 5 200 187))
       = Ok fy
    /\ fx 25 = Ok px /\ fy 10 = Ok py
    /\ to_data log10_whole pow10_whole (Axes false 0 100 true 1 100)
         (place_plot_area (Viewport 40 5 200 187)) px py
       = Ok (dx, dy)
    /\ dx == 25 /\ dy == 10.
Proof.
  apply (to_data_inverts_to_pixel log10_whole pow10_whole
           (Axes false 0 100 true 1 100) (Viewport 40 5 200 187) 25 10).
  - discriminate.
  - intros _. split; reflexivity.
  - intros H. discriminate H.
  - intros H. discriminate H.
  - intros H. discriminate H.
  - intros H. discriminate H.
  - left. split; discriminate.
  - left. split; discriminate.
  - discriminate.
  - intros _ t Ht. unfold pow10_whole. rewrite (Qfloor_comp _ _ Ht).
    reflexivity.
Defined.

(** With the viewport [(0, 0, 0, 0)] of the default [Plot.params] every
    value maps to pixel [0], and [to_data] divides by the zero size of the
    plot area. *)
Lemma empty_viewport_has_no_inverse :
  ~ exists fx fy px py dx dy,
      x_px log10_whole
        (update_plot (Axes false 0 100 false 0 100) (p_size default_params))
      = Ok fx
      /\ y_px log10_whole
           (update_plot (Axes false 0 100 false 0 100) (p_size default_params))
         = Ok fy
      /\ fx 50 = Ok px /\ fy 50 = Ok py
      /\ to_data log10_whole pow10_whole (Axes false 0 100 false 0 100)
           (place_plot_area (p_size default_params)) px py
         = Ok (dx, dy)
      /\ dx == 50 /\ dy == 50.
Proof.
  intros (fx & fy & px & py & dx & dy & Hfx & Hfy & Hpx & Hpy & Hd & _).
  vm_compute in Hfx, Hfy. injection Hfx as <-. injection Hfy as <-.
  vm_compute in Hpx, Hpy. injection Hpx as <-. injection Hpy as <-.
  vm_compute in Hd. discriminate.
Qed.



(** [major = 1] on the degenerate range [5 .. 5]: no tick at [5]. *)
Lemma degenerate_range_counterexample :
  ~ exists t,
      get_ticks log10_whole pow10_whole 0 (Num 1) (Num 0) false 5 5
        = Ok (Some ([t], [])) /\ t == 5.
Proof. intros (t & H & _). vm_compute in H. discriminate. Qed.

(** [major = 3] on [0 .. 10] and on [10 .. 0]: the ticks are anchored at
    the first bound. *)
Lemma swap_changes_positions :
  get_ticks log10_whole pow10_whole 0 (Num 3) (Num 0) false 0 10
    = Ok (Some ([0; 3; 6; 9], []))
  /\ get_ticks log10_whole pow10_whole 0 (Num 3) (Num 0) false 10 0
    = Ok (Some ([10; 7; 4; 1], []))
  /\ ~ same_positions [0; 3; 6; 9] [10; 7; 4; 1].
Proof.
  split; [reflexivity|]. split; [reflexivity|].
  intros H. destruct (H 0) as [H0 _].
  assert (Hin : InA Qeq 0 [0; 3; 6; 9]) by (constructor; reflexivity).
  specialize (H0 Hin). rewrite InA_alt in H0. destruct H0 as (y & Hy & Hi).
  cbn in Hi. destruct Hi as [<-|[<-|[<-|[<-|[]]]]]; discriminate.
Qed.


(** The same configuration on the log axis [1 .. 100]: with [minor]
    replaced by zero the log generator returns its ticks, the [log10]
    values [1] and [2], as minor ticks and no major tick, where the linear
    generator returns them as major ticks. *)
Lemma log_minor_zero_ticks_are_minor :
  get_ticks log10_whole pow10_whole 8 (Num 1) (Seq [2; 3]) true 1 100
  = Ok (Some ([], [1; 2]))
  /\ get_ticks log10_whole pow10_whole 8 (Num 1) (Num 0) true 1 100
     = Ok (Some ([], [1; 2])).
Proof. split; vm_compute; reflexivity. Qed.

(** ** Calls that round

    The statements above take the numbers as exact rationals.  These runs
    of the binary64 definitions show calls on which the floats of the
    program round, and what the rounding changes. *)

(** [_get_ticks(3, 0, False, 0, 21)] rounds nowhere: the eight major ticks
    [0, 3, .., 21] of the exact progression. *)
Lemma f64_ticks_without_rounding :
  F64.get_ticks_linear (F64.of_int 3) 0 (F64.of_int 0) (F64.of_int 21)
  = F64.Returns (map F64.of_int [0; 3; 6; 9; 12; 15; 18; 21]%Z, []).
Proof. vm_compute. reflexivity. Qed.

(** [_get_ticks(3, 17, False, 0, 21)]: the quotient [21 / (3 / 17.0)] is
    rounded below [119], so that the call returns 119 ticks where the
    progression has 120 terms, and 7 major ticks where it has 8; the major
    tick after [12] is rounded above [15]. *)
Lemma f64_ticks_rounded_count :
  exists majors minors t,
    F64.get_ticks_linear (F64.of_int 3) 17 (F64.of_int 0) (F64.of_int 21)
    = F64.Returns (majors, minors)
    /\ length majors = 7%nat
    /\ length minors = 112%nat
    /\ majors !! 5%nat = Some t
    /\ PrimFloat.ltb (F64.of_int 15) t = true.
Proof.
  let r := eval vm_compute in
             (F64.get_ticks_linear (F64.of_int 3) 17 (F64.of_int 0)
                (F64.of_int 21)) in
  lazymatch r with
  | F64.Returns (?majors, ?minors) =>
      exists majors, minors;
      let t := eval vm_compute in (majors !! 5%nat) in
      lazymatch t with
      | Some ?t => exists t
      end
  end.
  repeat split; vm_compute; reflexivity.
Qed.

(** [_get_ticks(0.1, 3, False, 0, 0.3)]: the list of major ticks gets
    [floor(0.3 / 0.1) + 1 = 3] places, the loop runs over
    [floor(0.3 / (0.1 / 3.0)) + 1 = 10] ticks, of which 4 are major, and
    the fourth raises [IndexError]. *)
Lemma f64_ticks_index_error :
  F64.get_ticks_linear (F64.decimal 1 1) 3 (F64.of_int 0) (F64.decimal 3 1)
  = F64.Raises F64.IndexError.
Proof. vm_compute. reflexivity. Qed.

(** [x_px()(xmax)] for [xmin = 0], [xmax = 0.3] on the viewport
    [(5, 5, 187, 187)]: the upper bound is drawn one rounding step to the
    right of [size[2]]. *)
Lemma f64_x_px_rounds_past_edge :
  exists px,
    F64.x_px (F64.of_int 0) (F64.decimal 3 1)
      (F64.Viewport (F64.of_int 5) (F64.of_int 5) (F64.of_int 187)
         (F64.of_int 187))
      (F64.decimal 3 1)
    = F64.Returns px
    /\ PrimFloat.ltb (F64.of_int 187) px = true
    /\ PrimFloat.ltb px (F64.decimal 1870000001 7) = true.
Proof.
  eexists. split; [vm_compute; reflexivity|].
  split; vm_compute; reflexivity.
Qed.

(** * Properties of the drawing code *)

Section DrawingProperties.

Variable log10r : Q -> Q.

(** ** Pixel positions *)

Lemma x_px_eval (p : plot_params) :
  (p_xlog p = true -> 0 < p_xmin p /\ 0 < p_xmax p) ->
  exists f,
    x_px log10r p = Ok f
    /\ forall x, (p_xlog p = true -> 0 < x) ->
         f x = Ok (px_of log10r (p_xlog p) (p_xmin p) (p_xmax p)
                     (x0 (p_size p)) (x1 (p_size p)) x).
Proof.
  intros Hd. unfold x_px, funcx, px_of.
  rewrite !func_ok by (intros E; apply Hd in E; tauto). cbn [bind].
  destruct (truthy _) eqn:Et.
  - apply truthy_true in Et. rewrite truediv_ok by exact Et. cbn [bind].
    eexists. split; [reflexivity|]. intros x Hx. cbn beta.
    rewrite func_ok by exact Hx. reflexivity.
  - cbn [bind]. eexists. split; [reflexivity|]. intros x Hx. cbn beta.
    rewrite func_ok by exact Hx. reflexivity.
Qed.

Lemma y_px_eval (p : plot_params) :
  (p_ylog p = true -> 0 < p_ymin p /\ 0 < p_ymax p) ->
  exists f,
    y_px log10r p = Ok f
    /\ forall y, (p_ylog p = true -> 0 < y) ->
         f y = Ok (px_of log10r (p_ylog p) (p_ymin p) (p_ymax p)
                     (y0 (p_size p)) (y1 (p_size p)) y).
Proof.
  intros Hd. unfold y_px, funcy, px_of.
  rewrite !func_ok by (intros E; apply Hd in E; tauto). cbn [bind].
  destruct (truthy _) eqn:Et.
  - apply truthy_true in Et. rewrite truediv_ok by exact Et. cbn [bind].
    eexists. split; [reflexivity|]. intros x Hx. cbn beta.
    rewrite func_ok by exact Hx. reflexivity.
  - cbn [bind]. eexists. split; [reflexivity|]. intros x Hx. cbn beta.
    rewrite func_ok by exact Hx. reflexivity.
Qed.

Lemma px_of_min (log : bool) (amin amax lo hi : Q) :
  px_of log10r log amin amax lo hi amin == lo.
Proof. unfold px_of. ring. Qed.

Lemma px_of_max (log : bool) (amin amax lo hi : Q) :
  ~ transformed log10r log amax == transformed log10r log amin ->
  px_of log10r log amin amax lo hi amax == hi.
Proof.
  intros H. unfold px_of.
  assert (Ht : truthy (transformed log10r log amax
                       - transformed log10r log amin) = true)
    by (apply truthy_true; lra).
  rewrite Ht. field. lra.
Qed.

Lemma px_of_degenerate (log : bool) (amin amax lo hi v : Q) :
  transformed log10r log amax == transformed log10r log amin ->
  px_of log10r log amin amax lo hi v == lo.
Proof.
  intros H. unfold px_of.
  assert (Ht : truthy (transformed log10r log amax
                       - transformed log10r log amin) = false)
    by (apply truthy_false; lra).
  rewrite Ht. ring.
Qed.

Lemma mapM_ok_map {A B : Type} (f : A -> result B) (g : A -> B) (l : list A) :
  Forall (fun a => f a = Ok (g a)) l -> mapM f l = Ok (map g l).
Proof.
  induction 1 as [|a l Ha _ IH]; [reflexivity|].
  cbn [mapM map]. rewrite Ha, IH. reflexivity.
Qed.

Lemma iterate_points_eval (p : plot_params) (pts : list (Q * Q)) :
  drawable p pts ->
  iterate_points log10r p pts = Ok (map (point_px log10r p) pts).
Proof.
  intros [Hx Hy]. unfold iterate_points.
  destruct (x_px_eval p) as (fx & -> & Hfx); [intros E; apply Hx in E; tauto|].
  destruct (y_px_eval p) as (fy & -> & Hfy); [intros E; apply Hy in E; tauto|].
  cbn [bind]. apply mapM_ok_map.
  apply List.Forall_forall. intros [x y] Hin.
  rewrite Hfx, Hfy; [reflexivity| |].
  - intros E. destruct (Hy E) as (_ & _ & HF).
    rewrite List.Forall_forall in HF. exact (HF _ Hin).
  - intros E. destruct (Hx E) as (_ & _ & HF).
    rewrite List.Forall_forall in HF. exact (HF _ Hin).
Qed.

End DrawingProperties.

(** ** Item assignments and loops over mesh vertices *)

Lemma for_each_app {S A : Type} (body : S -> A -> result S) (l1 l2 : list A)
  (st : S) :
  for_each body (l1 ++ l2) st
  = let* st' := for_each body l1 st in for_each body l2 st'.
Proof.
  revert st. induction l1 as [|a l1 IH]; intros st; [reflexivity|].
  cbn [for_each app]. destruct (body st a); cbn [bind]; [apply IH|reflexivity].
Qed.

Lemma length_inserted (vert : list Q) (a : list (nat * Q)) :
  length (inserted vert a) = length vert.
Proof.
  revert vert. induction a as [|[i v] a IH]; intros vert; [reflexivity|].
  cbn. unfold inserted in IH. rewrite IH. apply length_insert.
Qed.

Lemma setitems_ok (vert : list Q) (a : list (nat * Q)) :
  Forall (fun iv => (fst iv < length vert)%nat) a ->
  setitems vert a = Ok (inserted vert a).
Proof.
  revert vert. induction a as [|[i v] a IH]; intros vert H; [reflexivity|].
  inversion H as [|? ? Hi Ha]; subst. cbn [fst] in Hi.
  unfold setitems. cbn [for_each]. unfold setitem.
  apply Nat.ltb_lt in Hi. rewrite Hi. cbn [bind].
  apply IH. apply Nat.ltb_lt in Hi.
  eapply List.Forall_impl; [|exact Ha]. intros iv. now rewrite length_insert.
Qed.

Lemma setitems_length (vert vert' : list Q) (a : list (nat * Q)) :
  setitems vert a = Ok vert' -> length vert' = length vert.
Proof.
  revert vert. induction a as [|[i v] a IH]; intros vert H.
  - cbn in H. now injection H as <-.
  - unfold setitems in H. cbn [for_each] in H. unfold setitem in H.
    destruct (i <? length vert)%nat; [|discriminate]. cbn [bind] in H.
    apply IH in H. now rewrite length_insert in H.
Qed.

(** Assignments never fail otherwise than with [IndexError]. *)
Lemma setitems_error (vert : list Q) (a : list (nat * Q)) (e : exn) :
  setitems vert a = Raise e -> e = IndexError.
Proof.
  revert vert. induction a as [|[i v] a IH]; intros vert H.
  - discriminate.
  - unfold setitems in H. cbn [for_each] in H. unfold setitem in H.
    destruct (i <? length vert)%nat; cbn [bind] in H.
    + now apply IH in H.
    + now injection H as <-.
Qed.

(** A loop whose [k]-th iteration writes the entries [k * stride, ...,
    k * stride + stride - 1] only: it succeeds on a list long enough, and
    what an iteration establishes on its own entries ([P]) holds at the
    end. *)
Lemma for_each_segments {A : Type} (stride : nat)
  (body : list Q -> nat * A -> result (list Q))
  (ok : A -> Prop) (P : nat -> A -> list Q -> Prop) :
  (forall k x v v',
      (forall j, (k * stride <= j < (k + 1) * stride)%nat -> v' !! j = v !! j) ->
      P k x v -> P k x v') ->
  (forall vert k x,
      ok x -> ((k + 1) * stride <= length vert)%nat ->
      exists vert',
        body vert (k, x) = Ok vert'
        /\ length vert' = length vert
        /\ (forall j, ~ (k * stride <= j < (k + 1) * stride)%nat ->
                      vert' !! j = vert !! j)
        /\ P k x vert') ->
  forall (items : list A) (start : nat) (vert : list Q),
    Forall ok items ->
    ((start + length items) * stride <= length vert)%nat ->
    exists vert',
      for_each body (enumerate_from start items) vert = Ok vert'
      /\ length vert' = length vert
      /\ (forall j, ~ (start * stride <= j < (start + length items) * stride)%nat
                    -> vert' !! j = vert !! j)
      /\ forall i x, items !! i = Some x -> P (start + i)%nat x vert'.
Proof.
  intros Hstable Hbody items.
  induction items as [|x items IH]; intros start vert Hok Hlen.
  - exists vert. cbn. repeat split; auto. intros i x H. discriminate.
  - inversion Hok as [|? ? Hx Hitems]; subst. cbn [length] in Hlen.
    destruct (Hbody vert start x Hx) as (v1 & E1 & L1 & U1 & P1); [nia|].
    destruct (IH (S start) v1 Hitems) as (v2 & E2 & L2 & U2 & P2);
      [rewrite L1; nia|].
    exists v2. unfold enumerate_from in *. cbn [length seq combine for_each].
    rewrite E1. cbn [bind]. rewrite E2.
    split; [reflexivity|]. split; [congruence|]. split.
    + intros j Hj. rewrite U2 by nia. apply U1. nia.
    + intros [|i] y Hy; cbn in Hy.
      * injection Hy as <-. replace (start + 0)%nat with start by lia.
        apply (Hstable start x v1 v2); [|exact P1].
        intros j Hj. apply U2. nia.
      * replace (start + S i)%nat with (S start + i)%nat by lia.
        now apply P2.
Qed.

(** Look up an entry of a list after item assignments. *)
Ltac lookup_inserted :=
  unfold inserted; cbn [fold_left fst snd]; rewrite ?Nat.add_0_r;
  repeat first
    [ rewrite list_lookup_insert_eq by (rewrite ?length_insert; lia)
    | rewrite list_lookup_insert_ne by lia ];
  try reflexivity.

(** ** [MeshLinePlot.set_mesh_size] *)

Lemma length_range2 (a b : Z) : length (range2 a b) = Z.to_nat (b - a).
Proof. unfold range2. now rewrite length_map, length_range. Qed.

Lemma seq_offset (s n : nat) :
  map Z.of_nat (seq s n) = map (Z.add (Z.of_nat s)) (map Z.of_nat (seq 0 n)).
Proof.
  revert s. induction n as [|n IH]; intros s; [reflexivity|].
  cbn [seq map]. f_equal; [lia|].
  rewrite (IH (S s)), (IH 1%nat), !map_map.
  apply map_ext. intros i. lia.
Qed.

Lemma range_app (a b : Z) :
  (0 <= a)%Z -> (0 <= b)%Z -> range (a + b) = range a ++ range2 a (a + b).
Proof.
  intros Ha Hb. unfold range2, range.
  replace (Z.to_nat (a + b)) with (Z.to_nat a + Z.to_nat b)%nat by lia.
  rewrite seq_app, map_app. f_equal.
  replace (Z.to_nat (a + b - a)) with (Z.to_nat b) by lia.
  cbn [plus]. rewrite seq_offset. now rewrite Z2Nat.id by exact Ha.
Qed.

Lemma range_take (a : Z) (n : nat) :
  (Z.of_nat n <= a)%Z -> take n (range a) = range (Z.of_nat n).
Proof.
  intros H. unfold range.
  rewrite <- fmap_take, Nat2Z.id.
  replace (Z.to_nat a) with (n + (Z.to_nat a - n))%nat by lia.
  rewrite seq_app, take_app_length'; [reflexivity|]. now rewrite length_seq.
Qed.

Lemma div4_bounds (n : nat) : (4 * (n / 4) <= n < 4 * (n / 4) + 4)%nat.
Proof.
  pose proof (Nat.div_mod_eq n 4). pose proof (Nat.mod_upper_bound n 4). lia.
Qed.

Lemma div4_unique (n q : nat) : (4 * q <= n < 4 * q + 4)%nat -> (n / 4 = q)%nat.
Proof.
  intros H. symmetry. apply (Nat.div_unique n 4 q (n - 4 * q)); lia.
Qed.

Lemma set_mesh_size_spec (m : mesh) (size : nat) :
  (length (vertices (set_mesh_size m size)) / 4 = size)%nat
  /\ (forall j, (j < 4 * size)%nat -> (j < length (vertices m))%nat ->
        vertices (set_mesh_size m size) !! j = vertices m !! j)
  /\ (forall j, (length (vertices m) <= j < length (vertices (set_mesh_size m size)))%nat ->
        vertices (set_mesh_size m size) !! j = Some 0)
  /\ (indexed m -> indexed (set_mesh_size m size))
  /\ mode (set_mesh_size m size) = mode m.
Proof.
  unfold set_mesh_size, indexed.
  pose proof (div4_bounds (length (vertices m))) as Hb.
  destruct (Z.ltb_spec (Z.of_nat size - Z.of_nat (length (vertices m) / 4)) 0)
    as [Hlt|Hge]; cbn [vertices indices mode].
  - assert (Hl : length (take (4 * size) (vertices m)) = (4 * size)%nat)
      by (rewrite length_take; lia).
    repeat split.
    + rewrite Hl. apply div4_unique. lia.
    + intros j Hj _. now apply lookup_take_lt.
    + intros j Hj. lia.
    + intros Hi. rewrite Hl, Hi.
      replace (4 * size / 4)%nat with size by (symmetry; apply div4_unique; lia).
      apply range_take. lia.
  - destruct (Z.ltb_spec 0 (Z.of_nat size - Z.of_nat (length (vertices m) / 4)))
      as [Hgt|Hle]; cbn [vertices indices mode].
    + unfold repeat_list.
      assert (Hl : length (vertices m ++ replicate
                     (Z.to_nat ((Z.of_nat size
                                 - Z.of_nat (length (vertices m) / 4)) * 4)) 0)
                   = (length (vertices m) + 4 * (size - length (vertices m) / 4))%nat)
        by (rewrite length_app, length_replicate; lia).
      repeat split.
      * rewrite Hl. apply div4_unique. lia.
      * intros j _ Hj. now apply lookup_app_l.
      * intros j Hj. rewrite lookup_app_r by lia.
        apply lookup_replicate_2. rewrite Hl in Hj. lia.
      * intros Hi. rewrite Hl.
        replace ((length (vertices m) + 4 * (size - length (vertices m) / 4)) / 4)%nat
          with size by (symmetry; apply div4_unique; lia).
        rewrite Hi at 1. rewrite Hi, length_range, Nat2Z.id.
        replace (Z.of_nat size)
          with (Z.of_nat (length (vertices m) / 4)
                + (Z.of_nat size - Z.of_nat (length (vertices m) / 4)))%Z at 2
          by lia.
        rewrite range_app by lia. do 2 f_equal. 
    + assert (size = length (vertices m) / 4)%nat by lia. subst size.
      repeat split; auto. intros j Hj. lia.
Qed.

Lemma set_mesh_size_length (m : mesh) (size : nat) :
  (4 * size <= length (vertices (set_mesh_size m size)))%nat.
Proof.
  destruct (set_mesh_size_spec m size) as (H & _).
  pose proof (div4_bounds (length (vertices (set_mesh_size m size)))). lia.
Qed.

Lemma set_mesh_size_same (m : mesh) (size : nat) :
  (length (vertices m) / 4 = size)%nat -> set_mesh_size m size = m.
Proof.
  intros H. unfold set_mesh_size. rewrite H, Z.sub_diag. reflexivity.
Qed.

(** X6: [set_mesh_size] leaves a mesh of exactly [size] vertices; it keeps
    the entries of the vertices that stay, sets the entries it adds to
    zero, keeps the index list [0, ..., n - 1] in step with the vertices,
    and a second call with the same size changes nothing. *)
Theorem set_mesh_size_resizes (m : mesh) (size : nat) :
  let m' := set_mesh_size m size in
  (length (vertices m') / 4 = size)%nat
  /\ (forall j, (j < 4 * size)%nat -> (j < length (vertices m))%nat ->
        vertices m' !! j = vertices m !! j)
  /\ (forall j, (length (vertices m) <= j < length (vertices m'))%nat ->
        vertices m' !! j = Some 0)
  /\ (indexed m -> indexed m')
  /\ set_mesh_size m' size = m'.
Proof.
  destruct (set_mesh_size_spec m size) as (H1 & H2 & H3 & H4 & _).
  cbn zeta. repeat split; auto using set_mesh_size_same.
Qed.

Section MeshProperties.

Variable log10r : Q -> Q.

(** A mesh resized to [n] vertices and then written by a loop that keeps
    the length of the vertex list. *)
Lemma resized_mesh (m : mesh) (n : nat) (vert : list Q) :
  length vert = length (vertices (set_mesh_size m n)) ->
  (length (vertices (set_vertices (set_mesh_size m n) vert)) / 4 = n)%nat
  /\ (indexed m -> indexed (set_vertices (set_mesh_size m n) vert)).
Proof.
  intros Hl. destruct (set_mesh_size_spec m n) as (H1 & _ & _ & H4 & _).
  unfold indexed in *. cbn [set_vertices vertices indices].
  rewrite Hl. auto.
Qed.

(** X7: [MeshLinePlot.plot_mesh] gives the mesh one vertex per point, at
    the pixel position of the point, whatever the mesh held before; it
    never fails on an index. *)
Theorem plot_mesh_draws_every_point (p : plot_params) (pts : list (Q * Q))
  (m : mesh) :
  drawable p pts ->
  exists m',
    plot_mesh log10r p pts m = Ok m'
    /\ (length (vertices m') / 4 = length pts)%nat
    /\ (forall k pt, pts !! k = Some pt ->
          vertices m' !! (k * 4)%nat = Some (fst (point_px log10r p pt))
          /\ vertices m' !! (k * 4 + 1)%nat = Some (snd (point_px log10r p pt)))
    /\ (indexed m -> indexed m').
Proof.
  intros Hd. unfold plot_mesh. rewrite (iterate_points_eval log10r p pts Hd).
  cbn [bind]. rewrite length_map.
  pose proof (set_mesh_size_length m (length pts)) as Hlen.
  set (m1 := set_mesh_size m (length pts)) in *.
  destruct (for_each_segments 4
              (fun vert (kp : nat * (Q * Q)) =>
                 let '(k, (x, y)) := kp in
                 setitems vert [((k * 4)%nat, x); ((k * 4 + 1)%nat, y)])
              (fun _ => True)
              (fun k pt v => v !! (k * 4)%nat = Some (fst pt)
                             /\ v !! (k * 4 + 1)%nat = Some (snd pt)))
    with (items := map (point_px log10r p) pts) (start := 0%nat)
         (vert := vertices m1)
    as (vert' & E & L & _ & HP).
  - intros k x v v' Hs [H1 H2]. rewrite !Hs by lia. auto.
  - intros vert k [x y] _ Hl.
    rewrite setitems_ok by (repeat constructor; cbn [fst]; lia).
    eexists. split; [reflexivity|]. split; [apply length_inserted|].
    split.
    + intros j Hj. lookup_inserted.
    + cbn [fst snd]. split; lookup_inserted.
  - apply List.Forall_forall. auto.
  - rewrite length_map. lia.
  - unfold enumerate. rewrite E. cbn [bind]. eexists. split; [reflexivity|].
    destruct (resized_mesh m (length pts) vert' L) as [R1 R2].
    split; [exact R1|]. split; [|exact R2].
    intros k pt Hk. cbn [set_vertices vertices].
    apply (HP k (point_px log10r p pt)).
    now rewrite list_lookup_fmap, Hk.
Qed.

(** *** Failures of the axis transforms *)

Lemma func_error (log : bool) (x : Q) (e : exn) :
  func log10r log x = Raise e -> e = ValueError /\ log = true /\ x <= 0.
Proof.
  unfold func, log10. destruct log; [|discriminate].
  destruct (leb x 0) eqn:E; [|discriminate].
  intros H. injection H as <-. apply leb_true in E. auto.
Qed.

Lemma ratio_total (w r : Q) :
  exists q, (if truthy r then truediv w r else Ok 0) = Ok q.
Proof.
  destruct (truthy r) eqn:E; [|eauto].
  apply truthy_true in E. rewrite truediv_ok by exact E. eauto.
Qed.

Lemma x_px_error (p : plot_params) :
  (forall e, x_px log10r p = Raise e -> e = ValueError)
  /\ (forall f x e, x_px log10r p = Ok f -> f x = Raise e -> e = ValueError).
Proof.
  unfold x_px, funcx.
  destruct (func log10r (p_xlog p) (p_xmin p)) as [fmin|e1] eqn:E1.
  2:{ apply func_error in E1 as [-> _]. cbn [bind].
      split; [now intros e [= <-]|discriminate]. }
  destruct (func log10r (p_xlog p) (p_xmax p)) as [fmax|e2] eqn:E2.
  2:{ apply func_error in E2 as [-> _]. cbn [bind].
      split; [now intros e [= <-]|discriminate]. }
  cbn [bind].
  destruct (ratio_total (x1 (p_size p) - x0 (p_size p)) (fmax - fmin))
    as [q ->].
  cbn [bind]. split; [discriminate|].
  intros f x e [= <-].
  destruct (func log10r (p_xlog p) x) as [fx|e3] eqn:E3; [discriminate|].
  apply func_error in E3 as [-> _]. cbn [bind]. now intros [= <-].
Qed.

Lemma y_px_error (p : plot_params) :
  (forall e, y_px log10r p = Raise e -> e = ValueError)
  /\ (forall f y e, y_px log10r p = Ok f -> f y = Raise e -> e = ValueError).
Proof.
  unfold y_px, funcy.
  destruct (func log10r (p_ylog p) (p_ymin p)) as [fmin|e1] eqn:E1.
  2:{ apply func_error in E1 as [-> _]. cbn [bind].
      split; [now intros e [= <-]|discriminate]. }
  destruct (func log10r (p_ylog p) (p_ymax p)) as [fmax|e2] eqn:E2.
  2:{ apply func_error in E2 as [-> _]. cbn [bind].
      split; [now intros e [= <-]|discriminate]. }
  cbn [bind].
  destruct (ratio_total (y1 (p_size p) - y0 (p_size p)) (fmax - fmin))
    as [q ->].
  cbn [bind]. split; [discriminate|].
  intros f x e [= <-].
  destruct (func log10r (p_ylog p) x) as [fx|e3] eqn:E3; [discriminate|].
  apply func_error in E3 as [-> _]. cbn [bind]. now intros [= <-].
Qed.

(** On a log axis the pixel position of a value that is not positive is a
    [ValueError]. *)
Lemma y_px_log_domain (p : plot_params) (f : Q -> result Q) (y : Q) :
  p_ylog p = true -> y <= 0 -> y_px log10r p = Ok f -> f y = Raise ValueError.
Proof.
  intros Hlog Hy. unfold y_px, funcy. rewrite Hlog.
  destruct (func log10r true (p_ymin p)) as [fmin|]; [|discriminate].
  destruct (func log10r true (p_ymax p)) as [fmax|]; [|discriminate].
  cbn [bind].
  destruct (ratio_total (y1 (p_size p) - y0 (p_size p)) (fmax - fmin))
    as [q ->].
  cbn [bind]. intros [= <-]. unfold func. now rewrite log10_domain.
Qed.

Lemma mapM_error {A B : Type} (f : A -> result B) (l : list A) (e0 e : exn) :
  (forall a e', f a = Raise e' -> e' = e0) ->
  mapM f l = Raise e -> e = e0.
Proof.
  intros Hf. induction l as [|a l IH]; [discriminate|].
  cbn [mapM]. destruct (f a) as [b|e'] eqn:Ea.
  - cbn [bind]. destruct (mapM f l); [discriminate|].
    cbn [bind]. intros [= <-]. now apply IH.
  - apply Hf in Ea as ->. cbn [bind]. now intros [= <-].
Qed.

Lemma iterate_points_error (p : plot_params) (pts : list (Q * Q)) (e : exn) :
  iterate_points log10r p pts = Raise e -> e = ValueError.
Proof.
  unfold iterate_points.
  destruct (x_px_error p) as [X1 X2]. destruct (y_px_error p) as [Y1 Y2].
  destruct (x_px log10r p) as [fx|ex]; [|cbn; intros [= <-]; now apply X1].
  destruct (y_px log10r p) as [fy|ey]; [|cbn; intros [= <-]; now apply Y1].
  cbn [bind]. apply mapM_error. intros [x y] e'.
  destruct (fx x) as [px|e1] eqn:E1.
  - cbn [bind]. destruct (fy y) as [py|e2] eqn:E2; [discriminate|].
    cbn [bind]. intros [= <-]. now apply (Y2 fy y).
  - cbn [bind]. intros [= <-]. now apply (X2 fx x).
Qed.

Lemma get_px_bounds_error (p : plot_params) (e : exn) :
  get_px_bounds log10r p = Raise e -> e = ValueError.
Proof.
  unfold get_px_bounds.
  destruct (x_px_error p) as [X1 X2]. destruct (y_px_error p) as [Y1 Y2].
  destruct (x_px log10r p) as [fx|ex]; [|cbn; intros [= <-]; now apply X1].
  destruct (y_px log10r p) as [fy|ey]; [|cbn; intros [= <-]; now apply Y1].
  cbn [bind].
  destruct (fx (p_xmin p)) eqn:E1;
    [|cbn; intros [= <-]; now apply (X2 fx (p_xmin p))].
  destruct (fx (p_xmax p)) eqn:E2;
    [|cbn; intros [= <-]; now apply (X2 fx (p_xmax p))].
  destruct (fy (p_ymin p)) eqn:E3;
    [|cbn; intros [= <-]; now apply (Y2 fy (p_ymin p))].
  destruct (fy (p_ymax p)) eqn:E4;
    [|cbn; intros [= <-]; now apply (Y2 fy (p_ymax p))].
  discriminate.
Qed.

(** X9: on a log y axis [MeshStemPlot.plot_mesh] and [BarPlot.draw] always
    raise [ValueError]: both take the pixel position of [y = 0]. *)
Theorem stems_and_bars_fail_on_log_y (p : plot_params) (pts : list (Q * Q))
  (w : Q) (m : mesh) :
  p_ylog p = true ->
  stem_plot_mesh log10r p pts m = Raise ValueError
  /\ bar_draw log10r p w pts m = Raise ValueError.
Proof.
  intros Hlog. split.
  - unfold stem_plot_mesh.
    destruct (iterate_points log10r p pts) as [px|e] eqn:E.
    2:{ apply iterate_points_error in E as ->. reflexivity. }
    cbn [bind]. destruct (y_px_error p) as [Y1 _].
    destruct (y_px log10r p) as [fy|e] eqn:Ey.
    2:{ rewrite (Y1 e eq_refl). reflexivity. }
    cbn [bind]. rewrite (y_px_log_domain p fy 0 Hlog); [reflexivity|lra|exact Ey].
  - unfold bar_draw. cbv zeta.
    destruct (if (_ <? _)%Z then _ else _) as [vert ind].
    destruct (get_px_bounds log10r p) as [b|e] eqn:E.
    2:{ apply get_px_bounds_error in E as ->. reflexivity. }
    cbn [bind]. destruct (x_px_error p) as [X1 _].
    destruct (x_px log10r p) as [fx|e] eqn:Ex.
    2:{ rewrite (X1 e eq_refl). reflexivity. }
    cbn [bind]. destruct (y_px_error p) as [Y1 _].
    destruct (y_px log10r p) as [fy|e] eqn:Ey.
    2:{ rewrite (Y1 e eq_refl). reflexivity. }
    cbn [bind]. rewrite (y_px_log_domain p fy 0 Hlog); [reflexivity|lra|exact Ey].
Qed.

End MeshProperties.

Section SegmentPlots.

Variable log10r : Q -> Q.

Lemma get_px_bounds_eval (p : plot_params) :
  (p_xlog p = true -> 0 < p_xmin p /\ 0 < p_xmax p) ->
  (p_ylog p = true -> 0 < p_ymin p /\ 0 < p_ymax p) ->
  get_px_bounds log10r p
  = Ok (PxBounds
          (px_of log10r (p_xlog p) (p_xmin p) (p_xmax p)
             (x0 (p_size p)) (x1 (p_size p)) (p_xmin p))
          (px_of log10r (p_xlog p) (p_xmin p) (p_xmax p)
             (x0 (p_size p)) (x1 (p_size p)) (p_xmax p))
          (px_of log10r (p_ylog p) (p_ymin p) (p_ymax p)
             (y0 (p_size p)) (y1 (p_size p)) (p_ymin p))
          (px_of log10r (p_ylog p) (p_ymin p) (p_ymax p)
             (y0 (p_size p)) (y1 (p_size p)) (p_ymax p))).
Proof.
  intros Hx Hy. unfold get_px_bounds.
  destruct (x_px_eval log10r p Hx) as (fx & -> & Hfx).
  destruct (y_px_eval log10r p Hy) as (fy & -> & Hfy).
  cbn [bind].
  rewrite !Hfx by (intros E; apply Hx in E; tauto). cbn [bind].
  rewrite !Hfy by (intros E; apply Hy in E; tauto). reflexivity.
Qed.

(** The pixel position of the lower bounds is the lower-left corner of the
    viewport: [(f(min) - f(min)) * ratio + size[0]]. *)
Lemma point_px_lower (p : plot_params) (x y : Q) :
  fst (point_px log10r p (p_xmin p, y)) == x0 (p_size p)
  /\ snd (point_px log10r p (x, p_ymin p)) == y0 (p_size p).
Proof. cbn [point_px fst snd]. split; apply px_of_min. Qed.

(** On a degenerate range the ratio is zero and every value is drawn on
    the lower corner. *)
Lemma point_px_degenerate (p : plot_params) (x y : Q) :
  (transformed log10r (p_xlog p) (p_xmax p)
   == transformed log10r (p_xlog p) (p_xmin p) ->
   fst (point_px log10r p (x, y)) == x0 (p_size p))
  /\ (transformed log10r (p_ylog p) (p_ymax p)
      == transformed log10r (p_ylog p) (p_ymin p) ->
      snd (point_px log10r p (x, y)) == y0 (p_size p)).
Proof. cbn [point_px fst snd]. split; intros H; now apply px_of_degenerate. Qed.

(** X8: on a linear y axis [MeshStemPlot.plot_mesh] draws, for every point,
    the segment from the pixel position of [(x, 0)] to that of [(x, y)]. *)
Theorem stem_plot_mesh_draws_stems (p : plot_params) (pts : list (Q * Q))
  (m : mesh) :
  p_ylog p = false -> drawable p pts ->
  exists m',
    stem_plot_mesh log10r p pts m = Ok m'
    /\ (length (vertices m') / 4 = length pts * 2)%nat
    /\ (forall k pt, pts !! k = Some pt ->
          vertices m' !! (k * 8)%nat = Some (fst (point_px log10r p pt))
          /\ vertices m' !! (k * 8 + 1)%nat
             = Some (snd (point_px log10r p (fst pt, 0)))
          /\ vertices m' !! (k * 8 + 4)%nat = Some (fst (point_px log10r p pt))
          /\ vertices m' !! (k * 8 + 5)%nat = Some (snd (point_px log10r p pt)))
    /\ (indexed m -> indexed m').
Proof.
  intros Hlin Hd. unfold stem_plot_mesh.
  rewrite (iterate_points_eval log10r p pts Hd). cbn [bind].
  rewrite length_map.
  destruct (y_px_eval log10r p) as (fy & -> & Hfy); [rewrite Hlin; discriminate|].
  cbn [bind]. rewrite Hfy by (rewrite Hlin; discriminate). cbn [bind].
  pose proof (set_mesh_size_length m (length pts * 2)) as Hlen.
  set (m1 := set_mesh_size m (length pts * 2)) in *.
  set (y0' := px_of log10r (p_ylog p) (p_ymin p) (p_ymax p)
                (y0 (p_size p)) (y1 (p_size p)) 0).
  destruct (for_each_segments 8
              (fun vert (kp : nat * (Q * Q)) =>
                 let '(k, (x, y)) := kp in
                 setitems vert [((k * 8)%nat, x); ((k * 8 + 1)%nat, y0');
                                ((k * 8 + 4)%nat, x); ((k * 8 + 5)%nat, y)])
              (fun _ => True)
              (fun k pt v => v !! (k * 8)%nat = Some (fst pt)
                             /\ v !! (k * 8 + 1)%nat = Some y0'
                             /\ v !! (k * 8 + 4)%nat = Some (fst pt)
                             /\ v !! (k * 8 + 5)%nat = Some (snd pt)))
    with (items := map (point_px log10r p) pts) (start := 0%nat)
         (vert := vertices m1)
    as (vert' & E & L & _ & HP).
  - intros k x v v' Hs (H1 & H2 & H3 & H4). rewrite !Hs by lia. auto.
  - intros vert k [x y] _ Hl.
    rewrite setitems_ok by (repeat constructor; cbn [fst]; lia).
    eexists. split; [reflexivity|]. split; [apply length_inserted|].
    split.
    + intros j Hj. lookup_inserted.
    + cbn [fst snd]. repeat split; lookup_inserted.
  - apply List.Forall_forall. auto.
  - rewrite length_map. lia.
  - unfold enumerate. rewrite E. cbn [bind]. eexists. split; [reflexivity|].
    destruct (resized_mesh m (length pts * 2) vert' L) as [R1 R2].
    split; [exact R1|]. split; [|exact R2].
    intros k pt Hk. cbn [set_vertices vertices].
    apply (HP k (point_px log10r p pt)).
    now rewrite list_lookup_fmap, Hk.
Qed.

(** A loop over the values [ys] that computes a pixel position for each
    and writes one segment. *)
Lemma bar_loop (f : Q -> result Q) (g : Q -> Q)
  (w : nat -> Q -> list (nat * Q)) (P : nat -> Q -> list Q -> Prop)
  (ys : list Q) (vert : list Q) :
  Forall (fun y => f y = Ok (g y)) ys ->
  (length ys * 8 <= length vert)%nat ->
  (forall k y, Forall (fun iv => (k * 8 <= fst iv < (k + 1) * 8)%nat) (w k y)) ->
  (forall k x v v',
      (forall j, (k * 8 <= j < (k + 1) * 8)%nat -> v' !! j = v !! j) ->
      P k x v -> P k x v') ->
  (forall k y v, ((k + 1) * 8 <= length v)%nat -> P k y (inserted v (w k (g y)))) ->
  exists vert',
    for_each (fun vert (ky : nat * Q) =>
                let '(k, y) := ky in let* y := f y in setitems vert (w k y))
      (enumerate ys) vert = Ok vert'
    /\ length vert' = length vert
    /\ forall k y, ys !! k = Some y -> P k y vert'.
Proof.
  intros Hf Hlen Hw Hstable HP.
  destruct (for_each_segments 8
              (fun vert (ky : nat * Q) =>
                 let '(k, y) := ky in let* y := f y in setitems vert (w k y))
              (fun y => f y = Ok (g y)) P Hstable)
    with (items := ys) (start := 0%nat) (vert := vert)
    as (vert' & E & L & _ & HP'); auto.
  - intros v k y Hy Hl. rewrite Hy. cbn [bind].
    rewrite setitems_ok.
    2:{ eapply List.Forall_impl; [|apply (Hw k (g y))]. cbn beta. intros; lia. }
    eexists. split; [reflexivity|]. split; [apply length_inserted|].
    split; [|now apply HP].
    intros j Hj. specialize (Hw k (g y)).
    unfold inserted. revert v Hl. induction (w k (g y)) as [|[i x] a IH];
      intros v Hl; [reflexivity|].
    inversion Hw; subst. cbn [fold_left fst snd] in *.
    rewrite IH by (auto; now rewrite length_insert).
    apply list_lookup_insert_ne. lia.
  - exists vert'. auto.
Qed.

(** X10: [HBar.plot_mesh] sets the mode to lines and draws one horizontal
    segment per value [y], from the pixel position of [(xmin, y)], which is
    on the left edge of the viewport, to the pixel position of [(xmax, y)],
    which is on the left edge too when the x range is degenerate. *)
Theorem hbar_spans_viewport (p : plot_params) (ys : list Q) (m : mesh) :
  (p_xlog p = true -> 0 < p_xmin p /\ 0 < p_xmax p) ->
  (p_ylog p = true ->
   0 < p_ymin p /\ 0 < p_ymax p /\ Forall (fun y => 0 < y) ys) ->
  exists m',
    hbar_plot_mesh log10r p ys m = Ok m'
    /\ mode m' = "lines"%string
    /\ (length (vertices m') / 4 = length ys * 2)%nat
    /\ (indexed m -> indexed m')
    /\ forall k y, ys !! k = Some y ->
         segment (vertices m') k
           (fst (point_px log10r p (p_xmin p, y)))
           (snd (point_px log10r p (p_xmin p, y)))
           (fst (point_px log10r p (p_xmax p, y)))
           (snd (point_px log10r p (p_xmax p, y)))
         /\ fst (point_px log10r p (p_xmin p, y)) == x0 (p_size p)
         /\ (transformed log10r (p_xlog p) (p_xmax p)
             == transformed log10r (p_xlog p) (p_xmin p) ->
             fst (point_px log10r p (p_xmax p, y)) == x0 (p_size p)).
Proof.
  intros Hx Hy. unfold hbar_plot_mesh.
  assert (Hy' : p_ylog p = true -> 0 < p_ymin p /\ 0 < p_ymax p)
    by (intros E; apply Hy in E; tauto).
  rewrite (get_px_bounds_eval p Hx Hy'). cbn [bind b_xmin b_xmax].
  destruct (y_px_eval log10r p Hy') as (fy & -> & Hfy). cbn [bind].
  pose proof (set_mesh_size_length m (length ys * 2)) as Hlen.
  set (m1 := set_mesh_size m (length ys * 2)) in *.
  set (g := px_of log10r (p_ylog p) (p_ymin p) (p_ymax p)
              (y0 (p_size p)) (y1 (p_size p))).
  set (left := px_of log10r (p_xlog p) (p_xmin p) (p_xmax p)
                 (x0 (p_size p)) (x1 (p_size p)) (p_xmin p)).
  set (right := px_of log10r (p_xlog p) (p_xmin p) (p_xmax p)
                  (x0 (p_size p)) (x1 (p_size p)) (p_xmax p)).
  destruct (bar_loop fy g
              (fun k y => [((k * 8)%nat, left); ((k * 8 + 1)%nat, y);
                           ((k * 8 + 4)%nat, right); ((k * 8 + 5)%nat, y)])
              (fun k y v => v !! (k * 8)%nat = Some left
                            /\ v !! (k * 8 + 1)%nat = Some (g y)
                            /\ v !! (k * 8 + 4)%nat = Some right
                            /\ v !! (k * 8 + 5)%nat = Some (g y))
              ys (vertices (set_mode m1 "lines")))
    as (vert' & E & L & HP).
  - apply List.Forall_forall. intros y Hin. apply Hfy. intros El.
    destruct (Hy El) as (_ & _ & HF). rewrite List.Forall_forall in HF. auto.
  - cbn [set_mode vertices]. lia.
  - intros k y. repeat constructor; cbn [fst]; lia.
  - intros k x v v' Hs (H1 & H2 & H3 & H4). rewrite !Hs by lia. auto.
  - intros k y v Hl. repeat split; lookup_inserted.
  - rewrite E. cbn [bind]. eexists. split; [reflexivity|].
    cbn [set_vertices set_mode mode vertices indices] in *.
    destruct (resized_mesh m (length ys * 2) vert' L) as [R1 R2].
    split; [reflexivity|]. split; [exact R1|]. split; [exact R2|].
    intros k y Hk. split; [exact (HP k y Hk)|]. split.
    + exact (proj1 (point_px_lower p 0 y)).
    + exact (proj1 (point_px_degenerate p (p_xmax p) y)).
Qed.

(** X11: [VBar.plot_mesh] sets the mode to lines and draws one vertical
    segment per value [x], from the pixel position of [(x, ymin)], which is
    on the bottom edge of the viewport, to the pixel position of
    [(x, ymax)], which is on the bottom edge too when the y range is
    degenerate. *)
Theorem vbar_spans_viewport (p : plot_params) (xs : list Q) (m : mesh) :
  (p_xlog p = true ->
   0 < p_xmin p /\ 0 < p_xmax p /\ Forall (fun x => 0 < x) xs) ->
  (p_ylog p = true -> 0 < p_ymin p /\ 0 < p_ymax p) ->
  exists m',
    vbar_plot_mesh log10r p xs m = Ok m'
    /\ mode m' = "lines"%string
    /\ (length (vertices m') / 4 = length xs * 2)%nat
    /\ (indexed m -> indexed m')
    /\ forall k x, xs !! k = Some x ->
         segment (vertices m') k
           (fst (point_px log10r p (x, p_ymin p)))
           (snd (point_px log10r p (x, p_ymin p)))
           (fst (point_px log10r p (x, p_ymax p)))
           (snd (point_px log10r p (x, p_ymax p)))
         /\ snd (point_px log10r p (x, p_ymin p)) == y0 (p_size p)
         /\ (transformed log10r (p_ylog p) (p_ymax p)
             == transformed log10r (p_ylog p) (p_ymin p) ->
             snd (point_px log10r p (x, p_ymax p)) == y0 (p_size p)).
Proof.
  intros Hx Hy. unfold vbar_plot_mesh.
  assert (Hx' : p_xlog p = true -> 0 < p_xmin p /\ 0 < p_xmax p)
    by (intros E; apply Hx in E; tauto).
  rewrite (get_px_bounds_eval p Hx' Hy). cbn [bind b_ymin b_ymax].
  destruct (x_px_eval log10r p Hx') as (fx & -> & Hfx). cbn [bind].
  pose proof (set_mesh_size_length m (length xs * 2)) as Hlen.
  set (m1 := set_mesh_size m (length xs * 2)) in *.
  set (g := px_of log10r (p_xlog p) (p_xmin p) (p_xmax p)
              (x0 (p_size p)) (x1 (p_size p))).
  set (bottom := px_of log10r (p_ylog p) (p_ymin p) (p_ymax p)
                   (y0 (p_size p)) (y1 (p_size p)) (p_ymin p)).
  set (top := px_of log10r (p_ylog p) (p_ymin p) (p_ymax p)
                (y0 (p_size p)) (y1 (p_size p)) (p_ymax p)).
  destruct (bar_loop fx g
              (fun k x => [((k * 8)%nat, x); ((k * 8 + 1)%nat, bottom);
                           ((k * 8 + 4)%nat, x); ((k * 8 + 5)%nat, top)])
              (fun k x v => v !! (k * 8)%nat = Some (g x)
                            /\ v !! (k * 8 + 1)%nat = Some bottom
                            /\ v !! (k * 8 + 4)%nat = Some (g x)
                            /\ v !! (k * 8 + 5)%nat = Some top)
              xs (vertices (set_mode m1 "lines")))
    as (vert' & E & L & HP).
  - apply List.Forall_forall. intros x Hin. apply Hfx. intros El.
    destruct (Hx El) as (_ & _ & HF). rewrite List.Forall_forall in HF. auto.
  - cbn [set_mode vertices]. lia.
  - intros k x. repeat constructor; cbn [fst]; lia.
  - intros k x v v' Hs (H1 & H2 & H3 & H4). rewrite !Hs by lia. auto.
  - intros k x v Hl. repeat split; lookup_inserted.
  - rewrite E. cbn [bind]. eexists. split; [reflexivity|].
    cbn [set_vertices set_mode mode vertices indices] in *.
    destruct (resized_mesh m (length xs * 2) vert' L) as [R1 R2].
    split; [reflexivity|]. split; [exact R1|]. split; [exact R2|].
    intros k x Hk. split; [exact (HP k x Hk)|]. split.
    + exact (proj2 (point_px_lower p x 0)).
    + exact (proj2 (point_px_degenerate p x (p_ymax p))).
Qed.

End SegmentPlots.

Section BarPlots.

Variable log10r : Q -> Q.

Lemma shown_bars_length (pts : list (Q * Q)) :
  (Z.of_nat (length (shown_bars pts)) <= 10922)%Z.
Proof.
  unfold shown_bars. destruct (Z.ltb_spec 65535 (Z.of_nat (length pts) * 6)).
  - rewrite length_take. lia.
  - lia.
Qed.

Lemma shown_bars_drawable (p : plot_params) (pts : list (Q * Q)) :
  drawable p pts -> drawable p (shown_bars pts).
Proof.
  unfold shown_bars. destruct (_ <? _)%Z; [|auto].
  intros [Hx Hy]. split; intros E.
  - destruct (Hx E) as (H1 & H2 & H3). repeat split; auto.
    now apply Forall_take.
  - destruct (Hy E) as (H1 & H2 & H3). repeat split; auto.
    now apply Forall_take.
Qed.

Lemma bar_draw_eval (p : plot_params) (w : Q) (pts : list (Q * Q)) (m : mesh) :
  p_ylog p = false -> (p_xlog p = true -> 0 <= w) -> drawable p pts ->
  exists vert,
    bar_draw log10r p w pts m
    = Ok (Mesh vert
            (if (Z.of_nat (length (shown_bars pts) * 6)
                 <? Z.of_nat (length (vertices m) / 4))%Z
             then take (length (shown_bars pts)) (indices m)
             else indices (set_mesh_size m (length (shown_bars pts) * 6)))
            "triangles")
    /\ length vert
       = length (vertices (set_mesh_size m (length (shown_bars pts) * 6)))
    /\ forall k pt, shown_bars pts !! k = Some pt ->
         bar_entries vert k
         = bar_triangles
             (fst (point_px log10r p pt))
             (fst (point_px log10r p pt) + bar_width_px log10r p w)
             (snd (point_px log10r p (fst pt, 0)))
             (snd (point_px log10r p pt)).
Proof.
  intros Hlin Hw Hd. unfold bar_draw. fold (shown_bars pts).
  apply shown_bars_drawable in Hd. destruct Hd as [Hx Hy].
  set (sh := shown_bars pts) in *. cbv zeta.
  cbn [set_mode vertices indices mode].
  assert (Hx' : p_xlog p = true -> 0 < p_xmin p /\ 0 < p_xmax p)
    by (intros E; apply Hx in E; tauto).
  assert (Hy' : p_ylog p = true -> 0 < p_ymin p /\ 0 < p_ymax p)
    by (rewrite Hlin; discriminate).
  (* the resized lists *)
  pose proof (set_mesh_size_length m (length sh * 6)) as Hlen.
  assert (Hres :
    (if (Z.of_nat (length sh * 6) - Z.of_nat (length (vertices m) / 4) <? 0)%Z
     then (take (24 * length sh) (vertices m), take (length sh) (indices m))
     else if (0 <? Z.of_nat (length sh * 6)
                   - Z.of_nat (length (vertices m) / 4))%Z
          then (vertices m ++ repeat_list 0
                  ((Z.of_nat (length sh * 6)
                    - Z.of_nat (length (vertices m) / 4)) * 4),
                indices m ++ range2 (Z.of_nat (length (indices m)))
                  (Z.of_nat (length (indices m))
                   + (Z.of_nat (length sh * 6)
                      - Z.of_nat (length (vertices m) / 4))))
          else (vertices m, indices m))
    = (vertices (set_mesh_size m (length sh * 6)),
       if (Z.of_nat (length sh * 6) <? Z.of_nat (length (vertices m) / 4))%Z
       then take (length sh) (indices m)
       else indices (set_mesh_size m (length sh * 6)))).
  { unfold set_mesh_size.
    destruct (Z.ltb_spec (Z.of_nat (length sh * 6)
                          - Z.of_nat (length (vertices m) / 4)) 0) as [H|H].
    - destruct (Z.ltb_spec (Z.of_nat (length sh * 6))
                  (Z.of_nat (length (vertices m) / 4))); [|lia].
      cbn [vertices]. do 2 f_equal. lia.
    - destruct (Z.ltb_spec (Z.of_nat (length sh * 6))
                  (Z.of_nat (length (vertices m) / 4))); [lia|].
      destruct (0 <? _)%Z; reflexivity. }
  rewrite Hres. clear Hres.
  set (vert0 := vertices (set_mesh_size m (length sh * 6))) in *.
  rewrite (get_px_bounds_eval log10r p Hx' Hy'). cbn [bind b_xmin].
  destruct (x_px_eval log10r p Hx') as (fx & -> & Hfx).
  destruct (y_px_eval log10r p Hy') as (fy & -> & Hfy).
  cbn [bind]. rewrite Hfy by (rewrite Hlin; discriminate). cbn [bind].
  set (gx := px_of log10r (p_xlog p) (p_xmin p) (p_xmax p)
               (x0 (p_size p)) (x1 (p_size p))) in *.
  set (gy := px_of log10r (p_ylog p) (p_ymin p) (p_ymax p)
               (y0 (p_size p)) (y1 (p_size p))) in *.
  assert (Ebw :
    (if ltb w 0 then let* w0 := fx w in Ok (w0 - gx (p_xmin p)) else Ok w)
    = Ok (bar_width_px log10r p w)).
  { unfold bar_width_px, point_px. cbn [fst]. fold gx.
    destruct (ltb w 0) eqn:El; [|reflexivity].
    apply ltb_true in El. rewrite Hfx; [reflexivity|].
    intros E. apply Hw in E. lra. }
  rewrite Ebw. clear Ebw. cbn [bind].
  set (bw := bar_width_px log10r p w).
  destruct (for_each_segments 24
              (fun vert (kp : nat * (Q * Q)) =>
                 let '(k, pt) := kp in
                 let* x1 := fx (fst pt) in
                 let* y2 := fy (snd pt) in
                 setitems vert
                   [((k * 24)%nat, x1); ((k * 24 + 1)%nat, y2);
                    ((k * 24 + 4)%nat, x1); ((k * 24 + 5)%nat, gy 0);
                    ((k * 24 + 8)%nat, x1 + bw); ((k * 24 + 9)%nat, gy 0);
                    ((k * 24 + 12)%nat, x1); ((k * 24 + 13)%nat, y2);
                    ((k * 24 + 16)%nat, x1 + bw); ((k * 24 + 17)%nat, y2);
                    ((k * 24 + 20)%nat, x1 + bw); ((k * 24 + 21)%nat, gy 0)])
              (fun pt => fx (fst pt) = Ok (gx (fst pt))
                         /\ fy (snd pt) = Ok (gy (snd pt)))
              (fun k pt v =>
                 bar_entries v k
                 = bar_triangles (gx (fst pt)) (gx (fst pt) + bw) (gy 0)
                     (gy (snd pt))))
    with (items := sh) (start := 0%nat) (vert := vert0)
    as (vert' & E & L & _ & HP).
  - intros k x v v' Hs HPk. unfold bar_entries in *. cbn [map] in *.
    rewrite !Hs by lia. exact HPk.
  - intros vert k pt [Ex Ey] Hl. rewrite Ex, Ey. cbn [bind].
    rewrite setitems_ok by (repeat constructor; cbn [fst]; lia).
    eexists. split; [reflexivity|]. split; [apply length_inserted|].
    split.
    + intros j Hj. lookup_inserted.
    + unfold bar_entries, bar_triangles. cbn [map].
      repeat match goal with
             | |- _ :: _ = _ :: _ => f_equal; [lookup_inserted|..]
             end.
  - apply List.Forall_forall. intros pt Hin. split.
    + apply Hfx. intros El. destruct (Hx El) as (_ & _ & HF).
      rewrite List.Forall_forall in HF. auto.
    + apply Hfy. rewrite Hlin. discriminate.
  - fold vert0 in Hlen. lia.
  - exists vert'. unfold enumerate. cbn zeta. rewrite E. cbn [bind].
    split; [reflexivity|]. split; [exact L|].
    intros k pt Hk. replace (k + 0)%nat with k by lia.
    unfold point_px. cbn [fst snd]. fold gx gy. exact (HP k pt Hk).
Qed.

End BarPlots.

(** ** Tick marks *)

Lemma segment_stable (k : nat) (xa ya xb yb : Q) (v v' : list Q) :
  (forall j, (k * 8 <= j < (k + 1) * 8)%nat -> v' !! j = v !! j) ->
  segment v k xa ya xb yb -> segment v' k xa ya xb yb.
Proof.
  intros Hs (H1 & H2 & H3 & H4). unfold segment. rewrite !Hs by lia. auto.
Qed.

Lemma inserted_app (v : list Q) (a b : list (nat * Q)) :
  inserted v (a ++ b) = inserted (inserted v a) b.
Proof. apply fold_left_app. Qed.

Lemma getitem_ok {A : Type} (l : list A) (i : nat) (x : A) :
  l !! i = Some x -> getitem l i = Ok x.
Proof. intros H. unfold getitem. now rewrite H. Qed.

Lemma setitems_ok_inv (vert vert' : list Q) (a : list (nat * Q)) :
  setitems vert a = Ok vert' ->
  Forall (fun iv => (fst iv < length vert)%nat) a.
Proof.
  revert vert. induction a as [|[i v] a IH]; intros vert H; [constructor|].
  unfold setitems in H. cbn [for_each] in H. unfold setitem in H.
  destruct (Nat.ltb_spec i (length vert)) as [Hi|]; [|discriminate].
  cbn [bind] in H. constructor; [exact Hi|].
  apply IH in H. eapply List.Forall_impl; [|exact H].
  intros iv. now rewrite length_insert.
Qed.

Section TickMarks.

Variable log10r : Q -> Q.
Variable dp : Q -> Q.

Lemma x_tick_loop_spec (size : viewport) (xmin ratio top : Q)
  (xpoints : list Q) (start : nat) (vert : list Q) :
  ((start + length xpoints) * 8 <= length vert)%nat ->
  exists vert',
    x_tick_loop size xmin ratio top start xpoints vert = Ok vert'
    /\ length vert' = length vert
    /\ (forall j, ~ (start * 8 <= j < (start + length xpoints) * 8)%nat ->
                  vert' !! j = vert !! j)
    /\ forall i x, xpoints !! i = Some x ->
         segment vert' (start + i)
           (x0 size + (x - xmin) * ratio) (y0 size)
           (x0 size + (x - xmin) * ratio) top.
Proof.
  intros Hlen. unfold x_tick_loop.
  apply (for_each_segments 8 _ (fun _ => True)
           (fun k x v =>
              segment v k (x0 size + (x - xmin) * ratio) (y0 size)
                (x0 size + (x - xmin) * ratio) top)).
  - intros k x v v'. apply segment_stable.
  - intros v k x _ Hl.
    rewrite setitems_ok by (repeat constructor; cbn [fst]; lia).
    cbn [bind]. erewrite getitem_ok by lookup_inserted. cbn [bind].
    rewrite setitems_ok
      by (repeat constructor; cbn [fst]; rewrite length_inserted; lia).
    rewrite <- inserted_app. cbn [app].
    eexists. split; [reflexivity|]. split; [apply length_inserted|].
    split.
    + intros j Hj. lookup_inserted.
    + unfold segment. repeat split; lookup_inserted.
  - apply List.Forall_forall. auto.
  - exact Hlen.
Qed.

Lemma y_tick_loop_spec (size : viewport) (ymin ratio top : Q)
  (ypoints : list Q) (start : nat) (vert : list Q) :
  ((start + length ypoints) * 8 <= length vert)%nat ->
  exists vert',
    y_tick_loop size ymin ratio top start ypoints vert = Ok vert'
    /\ length vert' = length vert
    /\ (forall j, ~ (start * 8 <= j < (start + length ypoints) * 8)%nat ->
                  vert' !! j = vert !! j)
    /\ forall i y, ypoints !! i = Some y ->
         segment vert' (start + i)
           (x0 size) (y0 size + (y - ymin) * ratio)
           top (y0 size + (y - ymin) * ratio).
Proof.
  intros Hlen. unfold y_tick_loop.
  apply (for_each_segments 8 _ (fun _ => True)
           (fun k y v =>
              segment v k (x0 size) (y0 size + (y - ymin) * ratio)
                top (y0 size + (y - ymin) * ratio))).
  - intros k x v v'. apply segment_stable.
  - intros v k y _ Hl.
    rewrite setitems_ok by (repeat constructor; cbn [fst]; lia).
    cbn [bind]. erewrite getitem_ok by lookup_inserted. cbn [bind].
    rewrite setitems_ok
      by (repeat constructor; cbn [fst]; rewrite length_inserted; lia).
    rewrite <- inserted_app. cbn [app].
    eexists. split; [reflexivity|]. split; [apply length_inserted|].
    split.
    + intros j Hj. lookup_inserted.
    + unfold segment. repeat split; lookup_inserted.
  - apply List.Forall_forall. auto.
  - exact Hlen.
Qed.

Lemma x_tick_block_spec (size : viewport) (xmin xmax top : Q)
  (xpoints : list Q) (start : nat) (vert : list Q) :
  (xpoints <> [] -> ~ xmax - xmin == 0) ->
  ((start + length xpoints) * 8 <= length vert)%nat ->
  exists vert',
    x_tick_block size xmin xmax top start xpoints vert
    = Ok (vert', (start + length xpoints)%nat)
    /\ length vert' = length vert
    /\ (forall j, ~ (start * 8 <= j < (start + length xpoints) * 8)%nat ->
                  vert' !! j = vert !! j)
    /\ forall i x, xpoints !! i = Some x ->
         segment vert' (start + i)
           (x0 size + (x - xmin) * ((x1 size - x0 size) / (xmax - xmin)))
           (y0 size)
           (x0 size + (x - xmin) * ((x1 size - x0 size) / (xmax - xmin)))
           top.
Proof.
  intros Hne Hlen. unfold x_tick_block.
  destruct xpoints as [|x xs].
  - cbn [length Nat.ltb Nat.leb]. exists vert.
    rewrite Nat.add_0_r. split; [reflexivity|]. split; [reflexivity|].
    split; [auto|]. intros i x' H. discriminate.
  - cbn [length Nat.ltb Nat.leb].
    rewrite truediv_ok by (apply Hne; discriminate). cbn [bind].
    destruct (x_tick_loop_spec size xmin
                ((x1 size - x0 size) / (xmax - xmin)) top (x :: xs) start vert
                Hlen) as (v' & -> & L & U & S).
    cbn [bind]. exists v'. auto.
Qed.

Lemma y_tick_block_spec (size : viewport) (ymin ymax top : Q)
  (ypoints : list Q) (start : nat) (vert : list Q) :
  (ypoints <> [] -> ~ ymax - ymin == 0) ->
  ((start + length ypoints) * 8 <= length vert)%nat ->
  exists vert',
    y_tick_block size ymin ymax top start ypoints vert
    = Ok (vert', (start + length ypoints)%nat)
    /\ length vert' = length vert
    /\ (forall j, ~ (start * 8 <= j < (start + length ypoints) * 8)%nat ->
                  vert' !! j = vert !! j)
    /\ forall i y, ypoints !! i = Some y ->
         segment vert' (start + i)
           (x0 size)
           (y0 size + (y - ymin) * ((y1 size - y0 size) / (ymax - ymin)))
           top
           (y0 size + (y - ymin) * ((y1 size - y0 size) / (ymax - ymin))).
Proof.
  intros Hne Hlen. unfold y_tick_block.
  destruct ypoints as [|y ys].
  - cbn [length Nat.ltb Nat.leb]. exists vert.
    rewrite Nat.add_0_r. split; [reflexivity|]. split; [reflexivity|].
    split; [auto|]. intros i x' H. discriminate.
  - cbn [length Nat.ltb Nat.leb].
    rewrite truediv_ok by (apply Hne; discriminate). cbn [bind].
    destruct (y_tick_loop_spec size ymin
                ((y1 size - y0 size) / (ymax - ymin)) top (y :: ys) start vert
                Hlen) as (v' & -> & L & U & S).
    cbn [bind]. exists v'. auto.
Qed.

Lemma border_vertices_ok (border : bool) (size : viewport) (rect : list Q) :
  (border = true -> (18 <= length rect)%nat) ->
  exists rect',
    border_vertices border size rect = Ok rect'
    /\ if border then
         length rect' = length rect
         /\ map (fun j => rect' !! j) [0; 1; 4; 5; 8; 9; 12; 13; 16; 17]%nat
            = map Some [x0 size; y0 size; x1 size; y0 size; x1 size; y1 size;
                        x0 size; y1 size; x0 size; y0 size]
       else take 18 rect' = replicate 18 0 /\ drop 18 rect' = drop 18 rect.
Proof.
  intros Hlen. unfold border_vertices. destruct border.
  - specialize (Hlen eq_refl).
    rewrite setitems_ok by (repeat constructor; cbn [fst]; lia).
    eexists. split; [reflexivity|]. split; [apply length_inserted|].
    cbn [map].
    repeat match goal with
           | |- _ :: _ = _ :: _ => f_equal; [lookup_inserted|..]
           end.
  - eexists. split; [reflexivity|].
    rewrite take_app_length', drop_app_length'
      by (symmetry; apply length_replicate).
    auto.
Qed.

(** The vertices written by [_update_ticks] into a list of the length
    set by [_redraw_all]. *)
Lemma update_ticks_spec (t : tick_marks) (size : viewport)
  (rect vert : list Q) :
  let a := t_axes t in
  let fxmin := transformed log10r (xlog a) (xmin a) in
  let fxmax := transformed log10r (xlog a) (xmax a) in
  let fymin := transformed log10r (ylog a) (ymin a) in
  let fymax := transformed log10r (ylog a) (ymax a) in
  let xpx := tick_px (x0 size) (x1 size) fxmin fxmax in
  let ypx := tick_px (y0 size) (y1 size) fymin fymax in
  let n1 := length (ticks_majorx t) in
  let n2 := length (ticks_minorx t) in
  let n3 := length (ticks_majory t) in
  (xlog a = true -> 0 < xmin a /\ 0 < xmax a) ->
  (ylog a = true -> 0 < ymin a /\ 0 < ymax a) ->
  (ticks_majorx t ++ ticks_minorx t <> [] -> ~ fxmax == fxmin) ->
  (ticks_majory t ++ ticks_minory t <> [] -> ~ fymax == fymin) ->
  (draw_border t = true -> (18 <= length rect)%nat) ->
  length vert = length (fresh_tick_vertices t) ->
  exists rect' vert',
    update_ticks log10r dp t size rect vert = Ok (rect', vert')
    /\ border_vertices (draw_border t) size rect = Ok rect'
    /\ length vert' = length vert
    /\ (forall i x, ticks_majorx t !! i = Some x ->
          segment vert' i (xpx x) (y0 size) (xpx x)
            (if x_grid t then y1 size else dp 12 + y0 size))
    /\ (forall i x, ticks_minorx t !! i = Some x ->
          segment vert' (n1 + i) (xpx x) (y0 size) (xpx x) (dp 8 + y0 size))
    /\ (forall i y, ticks_majory t !! i = Some y ->
          segment vert' (n1 + n2 + i) (x0 size) (ypx y)
            (if y_grid t then x1 size else dp 12 + x0 size) (ypx y))
    /\ (forall i y, ticks_minory t !! i = Some y ->
          segment vert' (n1 + n2 + n3 + i) (x0 size) (ypx y)
            (dp 8 + x0 size) (ypx y)).
Proof.
  intros a fxmin fxmax fymin fymax xpx ypx n1 n2 n3 Hxd Hyd Hxr Hyr Hb Hlen.
  unfold fresh_tick_vertices in Hlen. rewrite length_replicate in Hlen.
  fold n1 n2 n3 in Hlen. set (n4 := length (ticks_minory t)) in *.
  unfold update_ticks. fold a.
  destruct (border_vertices_ok (draw_border t) size rect Hb) as (rect' & Er & _).
  rewrite Er. cbn [bind].
  rewrite !func_ok by (intros E; (apply Hxd in E || apply Hyd in E); tauto).
  cbn [bind]. fold fxmin fxmax fymin fymax.
  assert (Hx1 : ticks_majorx t <> [] -> ~ fxmax - fxmin == 0).
  { intros H. assert (~ fxmax == fxmin); [|lra].
    apply Hxr. destruct (ticks_majorx t); [congruence|discriminate]. }
  assert (Hx2 : ticks_minorx t <> [] -> ~ fxmax - fxmin == 0).
  { intros H. assert (~ fxmax == fxmin); [|lra].
    apply Hxr. intros E. apply app_eq_nil in E as [_ E]. congruence. }
  assert (Hy1 : ticks_majory t <> [] -> ~ fymax - fymin == 0).
  { intros H. assert (~ fymax == fymin); [|lra].
    apply Hyr. destruct (ticks_majory t); [congruence|discriminate]. }
  assert (Hy2 : ticks_minory t <> [] -> ~ fymax - fymin == 0).
  { intros H. assert (~ fymax == fymin); [|lra].
    apply Hyr. intros E. apply app_eq_nil in E as [_ E]. congruence. }
  destruct (x_tick_block_spec size fxmin fxmax
              (if x_grid t then y1 size else dp 12 + y0 size)
              (ticks_majorx t) 0 vert Hx1)
    as (v1 & -> & L1 & U1 & S1); [fold n1; lia|].
  cbn [bind Nat.add]. fold n1.
  destruct (x_tick_block_spec size fxmin fxmax (dp 8 + y0 size)
              (ticks_minorx t) n1 v1 Hx2)
    as (v2 & -> & L2 & U2 & S2); [fold n2; lia|].
  cbn [bind]. fold n2.
  destruct (y_tick_block_spec size fymin fymax
              (if y_grid t then x1 size else dp 12 + x0 size)
              (ticks_majory t) (n1 + n2) v2 Hy1)
    as (v3 & -> & L3 & U3 & S3); [fold n3; lia|].
  cbn [bind]. fold n3.
  destruct (y_tick_block_spec size fymin fymax (dp 8 + x0 size)
              (ticks_minory t) (n1 + n2 + n3) v3 Hy2)
    as (v4 & -> & L4 & U4 & S4); [fold n4; lia|].
  cbn [bind]. fold n4 in U4.
  exists rect', v4. split; [reflexivity|]. split; [reflexivity|].
  split; [congruence|].
  split; [|split; [|split]].
  - intros i x Hi. pose proof (lookup_lt_Some _ _ _ Hi) as Hlt. fold n1 in Hlt.
    apply (segment_stable i _ _ _ _ v1); [|exact (S1 i x Hi)].
    intros j Hj. rewrite U4, U3, U2 by lia. reflexivity.
  - intros i x Hi. pose proof (lookup_lt_Some _ _ _ Hi) as Hlt. fold n2 in Hlt.
    apply (segment_stable (n1 + i) _ _ _ _ v2); [|exact (S2 i x Hi)].
    intros j Hj. rewrite U4, U3 by lia. reflexivity.
  - intros i y Hi. pose proof (lookup_lt_Some _ _ _ Hi) as Hlt. fold n3 in Hlt.
    apply (segment_stable (n1 + n2 + i) _ _ _ _ v3); [|exact (S3 i y Hi)].
    intros j Hj. rewrite U4 by lia. reflexivity.
  - intros i y Hi. exact (S4 i y Hi).
Qed.

Lemma update_ticks_border (t : tick_marks) (size : viewport)
  (rect vert rect' vert' : list Q) :
  update_ticks log10r dp t size rect vert = Ok (rect', vert') ->
  border_vertices (draw_border t) size rect = Ok rect'.
Proof.
  unfold update_ticks. intros H.
  destruct (border_vertices _ _ _) as [r|]; [|discriminate].
  cbn [bind] in H.
  repeat match type of H with
         | bind ?c _ = Ok _ =>
             destruct c as [?|]; [cbn [bind] in H|discriminate]
         | (let (_, _) := ?p in _) = Ok _ => destruct p
         end.
  now injection H as <- _.
Qed.

End TickMarks.

(** ** [LineAndMarkerPlot.simplify_points] *)

Lemma length_delete_lt {A : Type} (l : list A) (i : nat) :
  (i < length l)%nat -> length (delete i l) = (length l - 1)%nat.
Proof. intros H. apply length_delete. now apply lookup_lt_is_Some_2. Qed.

Lemma simplify_loop_ends (fuel : nat) (points : list (Q * Q)) (i : nat) :
  (1 <= fuel)%nat -> (length points <= fuel + i + 1)%nat ->
  simplify_loop fuel points i <> Ok None.
Proof.
  revert points i. induction fuel as [|fuel IH]; intros points i Hf Hl; [lia|].
  cbn [simplify_loop].
  destruct (Nat.ltb_spec (i + 2) (length points)) as [Hlt|Hge]; [|discriminate].
  destruct (getitem points i) as [p0|]; [|discriminate].
  destruct (getitem points (i + 1)) as [p1|]; [|discriminate].
  destruct (getitem points (i + 2)) as [p2|]; [|discriminate].
  cbn [bind].
  destruct (truediv _ _) as [s1|]; [|discriminate]. cbn [bind].
  destruct (truediv _ _) as [s2|]; [|discriminate]. cbn [bind].
  destruct (ltb _ _).
  - apply IH; [lia|]. rewrite length_delete_lt; lia.
  - apply IH; lia.
Qed.

Lemma last_delete {A : Type} (l : list A) (i : nat) :
  (i + 1 < length l)%nat -> last (delete i l) = last l.
Proof.
  revert i. induction l as [|a l IH]; intros i Hi; [cbn in Hi; lia|].
  destruct i as [|i].
  - cbn. destruct l; [cbn in Hi; lia|reflexivity].
  - cbn [length] in Hi. change (last (a :: delete i l) = last (a :: l)).
    rewrite !last_cons, IH by lia. reflexivity.
Qed.

Lemma simplify_loop_result (fuel : nat) (points r : list (Q * Q)) (i : nat) :
  simplify_loop fuel points i = Ok (Some r) ->
  r `sublist_of` points
  /\ head r = head points
  /\ last r = last points
  /\ ((length points <= i + 2)%nat -> r = points)
  /\ ((2 <= length points)%nat -> (2 <= length r)%nat).
Proof.
  revert points i. induction fuel as [|fuel IH]; intros points i H;
    [discriminate|].
  cbn [simplify_loop] in H.
  destruct (Nat.ltb_spec (i + 2) (length points)) as [Hlt|Hge].
  2:{ injection H as <-. repeat split; auto. }
  destruct (getitem points i) as [p0|]; [|discriminate].
  destruct (getitem points (i + 1)) as [p1|]; [|discriminate].
  destruct (getitem points (i + 2)) as [p2|]; [|discriminate].
  cbn [bind] in H.
  destruct (truediv _ _) as [s1|]; [|discriminate]. cbn [bind] in H.
  destruct (truediv _ _) as [s2|]; [|discriminate]. cbn [bind] in H.
  destruct (ltb _ _).
  - apply IH in H as (H1 & H2 & H3 & _ & H5).
    assert (Hd : length (delete (i + 1)%nat points) = (length points - 1)%nat).
    { apply length_delete_lt. lia. }
    split; [etransitivity; [exact H1|apply sublist_delete]|].
    split.
    { rewrite H2. replace (i + 1)%nat with (S i) by lia.
      now destruct points. }
    split; [rewrite H3; apply last_delete; lia|].
    split; [lia|]. intros _. apply H5. lia.
  - apply IH in H as (H1 & H2 & H3 & _ & H5).
    repeat split; auto. lia.
Qed.

(** X15: [simplify_points] ends within [len(points)] iterations; what it
    returns is a sub-sequence of the points with the same first and last
    point; at most two points are returned as they are, and of more than
    two points at least two are left. *)
Theorem simplify_points_keeps_ends (points : list (Q * Q)) :
  simplify_points points <> Ok None
  /\ forall r, simplify_points points = Ok (Some r) ->
       r `sublist_of` points
       /\ head r = head points
       /\ last r = last points
       /\ ((length points <= 2)%nat -> r = points)
       /\ ((2 <= length points)%nat -> (2 <= length r)%nat).
Proof.
  split.
  - apply simplify_loop_ends; lia.
  - intros r H. apply simplify_loop_result in H. exact H.
Qed.

Lemma simplify_points_zero_division (p0 p1 p2 : Q * Q) (l : list (Q * Q)) :
  fst p1 == fst p0 \/ fst p2 == fst p0 ->
  simplify_points (p0 :: p1 :: p2 :: l) = Raise ZeroDivisionError.
Proof.
  intros H. unfold simplify_points. cbn [simplify_loop length].
  cbn [Nat.add Nat.ltb Nat.leb getitem lookup list_lookup bind].
  destruct (Qeq_dec (fst p1) (fst p0)) as [E1|N1].
  - rewrite truediv_zero by lra. reflexivity.
  - rewrite truediv_ok by lra. cbn [bind].
    destruct H as [H|H]; [contradiction|].
    rewrite truediv_zero by lra. reflexivity.
Qed.

(** X17: of three points or more, [simplify_points] raises
    [ZeroDivisionError] when the second or the third point has the same
    [x] as the first. *)
Theorem simplify_points_vertical_start (p0 p1 p2 : Q * Q)
  (l : list (Q * Q)) :
  fst p1 == fst p0 \/ fst p2 == fst p0 ->
  simplify_points (p0 :: p1 :: p2 :: l) = Raise ZeroDivisionError.
Proof. apply simplify_points_zero_division. Qed.

Lemma simplify_loop_collinear (a b x0 xl : Q) (xs : list Q) (fuel : nat) :
  Forall (fun x => ~ x == x0) (xs ++ [xl]) ->
  (length xs < fuel)%nat ->
  simplify_loop fuel (map (fun x => (x, a * x + b)) (x0 :: xs ++ [xl])) 0
  = Ok (Some [(x0, a * x0 + b); (xl, a * xl + b)]).
Proof.
  revert fuel. induction xs as [|x xs IH]; intros fuel HF Hfuel.
  - destruct fuel; [lia|]. reflexivity.
  - destruct fuel as [|fuel]; [lia|]. cbn [length] in Hfuel.
    inversion HF as [|? ? Hx HF']; subst.
    assert (exists x2 rest, xs ++ [xl] = x2 :: rest /\ ~ x2 == x0)
      as (x2 & rest & E2 & Hx2).
    { destruct xs as [|x2 xs'].
      - exists xl, []. split; [reflexivity|]. now inversion HF'.
      - exists x2, (xs' ++ [xl]). split; [reflexivity|]. now inversion HF'. }
    cbn [app map simplify_loop]. rewrite E2. cbn [map length].
    cbn [Nat.add Nat.ltb Nat.leb getitem lookup list_lookup bind fst snd].
    rewrite !truediv_ok by lra. cbn [bind].
    assert (Hs : ltb (Qabs ((a * x + b - (a * x0 + b)) / (x - x0)
                            - (a * x2 + b - (a * x0 + b)) / (x2 - x0)))
                   (1 # 100000) = true).
    { apply ltb_true.
      assert (E : (a * x + b - (a * x0 + b)) / (x - x0)
                  - (a * x2 + b - (a * x0 + b)) / (x2 - x0) == 0)
        by (field; split; lra).
      rewrite E. reflexivity. }
    rewrite Hs. cbn [delete list_delete].
    specialize (IH fuel HF'). rewrite E2 in IH. apply IH. lia.
Qed.

(** X16: of points that lie on one straight line, none straight above or
    below the first, [simplify_points] returns the first and the last. *)
Theorem simplify_points_collinear (a b x0 xl : Q) (xs : list Q) :
  Forall (fun x => ~ x == x0) (xs ++ [xl]) ->
  simplify_points (map (fun x => (x, a * x + b)) (x0 :: xs ++ [xl]))
  = Ok (Some [(x0, a * x0 + b); (xl, a * xl + b)]).
Proof.
  intros H. unfold simplify_points. apply simplify_loop_collinear; [exact H|].
  rewrite length_map. cbn [length]. rewrite length_app. cbn. lia.
Qed.

Section MarkerLine.

Variable log10r : Q -> Q.

(** X18: on a degenerate x range every point is drawn at the same pixel
    abscissa, and the line of a [LineAndMarkerPlot] of three points or
    more cannot be drawn: [simplify_points] raises [ZeroDivisionError]. *)
Theorem marker_line_fails_on_degenerate_x (p : plot_params)
  (pts : list (Q * Q)) :
  drawable p pts ->
  transformed log10r (p_xlog p) (p_xmax p)
  == transformed log10r (p_xlog p) (p_xmin p) ->
  (3 <= length pts)%nat ->
  marker_line_points log10r p pts = Raise ZeroDivisionError.
Proof.
  intros Hd Hdeg Hlen. unfold marker_line_points.
  rewrite (iterate_points_eval log10r p pts Hd). cbn [bind].
  destruct pts as [|p0 [|p1 [|p2 l]]]; cbn [length] in Hlen; try lia.
  cbn [map]. rewrite simplify_points_zero_division; [reflexivity|].
  left. unfold point_px. cbn [fst].
  rewrite !px_of_degenerate by exact Hdeg. reflexivity.
Qed.

End MarkerLine.

(** ** Hit test and inverse transforms *)

Section HitTest.

Variable log10r : Q -> Q.





End HitTest.

Section InverseTransforms.

Variable log10r pow10r : Q -> Q.





End InverseTransforms.

(** ** Secondary axes *)

Lemma getitem_z_nat {A : Type} (l : list A) (i : nat) :
  getitem_z l (Z.of_nat i) = getitem l i.
Proof.
  unfold getitem_z. destruct (Z.ltb_spec (Z.of_nat i) 0); [lia|].
  destruct (Z.ltb_spec (Z.of_nat i) 0); [lia|]. now rewrite Nat2Z.id.
Qed.

(** X22: the axis added by [add_x_axis] is found by [get_x_axis] at the
    index that was the length of [x_axis] (and at index -1); the axes
    added before keep their index, and the y axes are unchanged. *)
Theorem add_x_axis_then_get (r : axis_registry) (amin amax : Q) (alog : bool) :
  (0 < length (x_axis r))%nat ->
  let r' := fst (add_x_axis r amin amax alog) in
  get_x_axis r' (Z.of_nat (length (x_axis r))) = Ok (alog, amin, amax)
  /\ get_x_axis r' (-1) = Ok (alog, amin, amax)
  /\ (forall i, (0 <= i < Z.of_nat (length (x_axis r)))%Z ->
        get_x_axis r' i = get_x_axis r i)
  /\ (forall i, get_y_axis r' i = get_y_axis r i).
Proof.
  intros Hlen r'. unfold r', add_x_axis, get_x_axis, get_y_axis.
  cbn [fst x_axis y_axis r_axes].
  split; [|split; [|split]].
  - destruct (Z.eqb_spec (Z.of_nat (length (x_axis r))) 0) as [E|_]; [lia|].
    rewrite getitem_z_nat. unfold getitem.
    rewrite lookup_app_r, Nat.sub_diag by lia. reflexivity.
  - cbn [Z.eqb]. unfold getitem_z. cbn [Z.ltb Z.compare].
    rewrite length_app. cbn [length].
    destruct (Z.ltb_spec (Z.of_nat (length (x_axis r) + 1) + -1) 0); [lia|].
    replace (Z.to_nat (Z.of_nat (length (x_axis r) + 1) + -1))
      with (length (x_axis r)) by lia.
    unfold getitem. rewrite lookup_app_r, Nat.sub_diag by lia. reflexivity.
  - intros i Hi. destruct (i =? 0)%Z; [reflexivity|].
    replace i with (Z.of_nat (Z.to_nat i)) by lia.
    rewrite !getitem_z_nat. unfold getitem.
    rewrite lookup_app_l by lia. reflexivity.
  - reflexivity.
Qed.

(** X23: [_update_plots] gives every plot the bounds of its own axes and
    the viewport, and keeps its points: a plot on the primary axes gets the
    axis bounds of the graph, a plot on the x axis just added by
    [add_x_axis] gets the bounds of that axis. *)
Theorem plots_follow_their_axes (r : axis_registry) (amin amax : Q)
  (alog : bool) (sz : viewport) (plots : list plot) :
  (0 < length (x_axis r))%nat ->
  Forall (fun pl => (pl_x_axis pl = 0%Z
                     \/ pl_x_axis pl = Z.of_nat (length (x_axis r)))
                    /\ pl_y_axis pl = 0%Z) plots ->
  update_plots (fst (add_x_axis r amin amax alog)) sz plots
  = Ok (map (fun pl =>
               Plot (if (pl_x_axis pl =? 0)%Z
                     then update_plot (r_axes r) sz
                     else update alog amin amax (ylog (r_axes r))
                            (ymin (r_axes r)) (ymax (r_axes r)) sz)
                 (points pl) (pl_x_axis pl) (pl_y_axis pl))
          plots).
Proof.
  intros Hlen H. unfold update_plots. apply mapM_ok_map.
  eapply List.Forall_impl; [|exact H]. intros pl [Ex Ey]. cbn beta.
  unfold get_x_axis, get_y_axis, add_x_axis.
  cbn [fst x_axis y_axis r_axes]. rewrite Ey. cbn [Z.eqb].
  destruct Ex as [Ex|Ex]; rewrite Ex.
  - reflexivity.
  - destruct (Z.eqb_spec (Z.of_nat (length (x_axis r))) 0) as [E|_]; [lia|].
    rewrite getitem_z_nat. unfold getitem.
    rewrite lookup_app_r, Nat.sub_diag by lia. reflexivity.
Qed.

Lemma mapM_raise {A B : Type} (f : A -> result B) (l1 l2 : list A) (a : A)
  (e : exn) :
  Forall (fun x => exists y, f x = Ok y) l1 -> f a = Raise e ->
  mapM f (l1 ++ a :: l2) = Raise e.
Proof.
  intros H1 Ha. induction H1 as [|x l1 [y Hx] _ IH].
  - cbn. now rewrite Ha.
  - cbn [app mapM]. rewrite Hx. cbn [bind]. now rewrite IH.
Qed.

(** X24: [_update_plots] raises [IndexError] for a plot whose x axis index
    is beyond the axes added so far, and [TypeError] for one whose index
    selects the [None] that [x_axis] starts with. *)
Theorem update_plots_unknown_axis (r : axis_registry) (sz : viewport)
  (before after : list plot) (pl : plot) :
  Forall (fun q => pl_x_axis q = 0%Z /\ pl_y_axis q = 0%Z) before ->
  pl_x_axis pl <> 0%Z ->
  ((Z.of_nat (length (x_axis r)) <= pl_x_axis pl)%Z ->
   update_plots r sz (before ++ pl :: after) = Raise IndexError)
  /\ (getitem_z (x_axis r) (pl_x_axis pl) = Ok None ->
      update_plots r sz (before ++ pl :: after) = Raise TypeError).
Proof.
  intros Hb Hn.
  assert (Hok : Forall (fun q => exists y,
            (let* (xlog, xmin, xmax) := get_x_axis r (pl_x_axis q) in
             let* (ylog, ymin, ymax) := get_y_axis r (pl_y_axis q) in
             Ok (Plot (update xlog xmin xmax ylog ymin ymax sz)
                   (points q) (pl_x_axis q) (pl_y_axis q))) = Ok y) before).
  { eapply List.Forall_impl; [|exact Hb]. intros q [Ex Ey]. cbn beta.
    unfold get_x_axis, get_y_axis. rewrite Ex, Ey. cbn. eauto. }
  split.
  - intros Hi. unfold update_plots. apply mapM_raise; [exact Hok|].
    unfold get_x_axis.
    destruct (Z.eqb_spec (pl_x_axis pl) 0) as [E|_]; [contradiction|].
    unfold getitem_z.
    destruct (Z.ltb_spec (pl_x_axis pl) 0); [lia|].
    destruct (Z.ltb_spec (pl_x_axis pl) 0); [lia|].
    unfold getitem. rewrite (proj2 (lookup_ge_None _ _)) by lia. reflexivity.
  - intros Hg. unfold update_plots. apply mapM_raise; [exact Hok|].
    unfold get_x_axis.
    destruct (Z.eqb_spec (pl_x_axis pl) 0) as [E|_]; [contradiction|].
    rewrite Hg. reflexivity.
Qed.

(** ** [BarPlot.update_bar_width] *)

Lemma tuple_ltb_fst (p q : Q * Q) :
  (tuple_ltb p q = true -> fst p <= fst q)
  /\ (tuple_ltb p q = false -> fst q <= fst p).
Proof.
  unfold tuple_ltb. split; intros H.
  - apply orb_true_iff in H as [H|H].
    + apply ltb_true in H. lra.
    + apply andb_true_iff in H as [H _]. apply Qeq_bool_iff in H. lra.
  - apply orb_false_iff in H as [H _]. now apply ltb_false in H.
Qed.

Lemma max_point_spec (p0 : Q * Q) (l : list (Q * Q)) :
  In (max_point p0 l) (p0 :: l)
  /\ Forall (fun q => fst q <= fst (max_point p0 l)) (p0 :: l).
Proof.
  unfold max_point. revert p0. induction l as [|p l IH]; intros p0.
  - cbn. split; [auto|]. repeat constructor. lra.
  - cbn [fold_left].
    destruct (IH (if tuple_ltb p0 p then p else p0)) as [I F].
    inversion F as [|? ? F0 F']; subst.
    destruct (tuple_ltb p0 p) eqn:E; apply tuple_ltb_fst in E.
    + split; [destruct I as [<-|I]; cbn; auto|].
      constructor; [lra|]. constructor; assumption.
    + split; [destruct I as [<-|I]; cbn; auto|].
      constructor; [assumption|]. constructor; [lra|assumption].
Qed.

Lemma min_point_spec (p0 : Q * Q) (l : list (Q * Q)) :
  In (min_point p0 l) (p0 :: l)
  /\ Forall (fun q => fst (min_point p0 l) <= fst q) (p0 :: l).
Proof.
  unfold min_point. revert p0. induction l as [|p l IH]; intros p0.
  - cbn. split; [auto|]. repeat constructor. lra.
  - cbn [fold_left].
    destruct (IH (if tuple_ltb p p0 then p else p0)) as [I F].
    inversion F as [|? ? F0 F']; subst.
    destruct (tuple_ltb p p0) eqn:E; apply tuple_ltb_fst in E.
    + split; [destruct I as [<-|I]; cbn; auto|].
      constructor; [lra|]. constructor; assumption.
    + split; [destruct I as [<-|I]; cbn; auto|].
      constructor; [assumption|]. constructor; [lra|assumption].
Qed.

Lemma Qabs_zero (x : Q) : Qabs x == 0 -> x == 0.
Proof. apply Qabs_case; intros; lra. Qed.

Lemma Qabs_sum_zero (x y : Q) : Qabs x + Qabs y == 0 <-> x == 0 /\ y == 0.
Proof.
  pose proof (Qabs_nonneg x). pose proof (Qabs_nonneg y).
  split.
  - intros E. split; apply Qabs_zero; lra.
  - intros [-> ->]. reflexivity.
Qed.

(** X14: [update_bar_width] leaves the plot as it is without a graph, with
    fewer than two points or on a degenerate x range.  Otherwise it raises
    [ZeroDivisionError] when every point has [x = 0], and else sets
    [bar_width] to [(width - padding) / point_width * bar_spacing] with
    [point_width = len(points) * (|xmax| + |xmin|) / (|hi| + |lo|)], where
    [hi] and [lo] are the largest and the smallest [x] of the points; the
    division by [point_width] does not fail. *)
Theorem update_bar_width_cases (b : bar_plot) :
  (bar_graph_of b = None -> update_bar_width b = Ok b)
  /\ forall g, bar_graph_of b = Some g ->
       ((length (bar_points b) < 2)%nat \/ bg_xmax g == bg_xmin g ->
        update_bar_width b = Ok b)
       /\ ((2 <= length (bar_points b))%nat -> ~ bg_xmax g == bg_xmin g ->
           (Forall (fun p => fst p == 0) (bar_points b) ->
            update_bar_width b = Raise ZeroDivisionError)
           /\ (~ Forall (fun p => fst p == 0) (bar_points b) ->
               exists hi lo,
                 update_bar_width b
                 = Ok (set_bar_width b
                         ((bg_width g - bg_padding g)
                          / (inject_Z (Z.of_nat (length (bar_points b)))
                             * (Qabs (bg_xmax g) + Qabs (bg_xmin g))
                             / (Qabs hi + Qabs lo))
                          * bar_spacing b))
                 /\ In hi (map fst (bar_points b))
                 /\ In lo (map fst (bar_points b))
                 /\ Forall (fun p => lo <= fst p <= hi) (bar_points b))).
Proof.
  split.
  { intros E. unfold update_bar_width. now rewrite E. }
  intros g Eg. unfold update_bar_width. rewrite Eg. split.
  { intros [H|H].
    - apply Nat.ltb_lt in H. now rewrite H.
    - destruct (_ <? _)%nat; [reflexivity|].
      apply Qeq_bool_iff in H. now rewrite H. }
  intros Hn Hx.
  destruct (Nat.ltb_spec (length (bar_points b)) 2) as [|_]; [lia|].
  destruct (Qeq_bool (bg_xmax g) (bg_xmin g)) eqn:Ex;
    [apply Qeq_bool_iff in Ex; contradiction|].
  destruct (bar_points b) as [|p0 l] eqn:Ep; [cbn in Hn; lia|].
  destruct (max_point_spec p0 l) as [Imax Fmax].
  destruct (min_point_spec p0 l) as [Imin Fmin].
  rewrite List.Forall_forall in Fmax, Fmin.
  split.
  - intros Hz. rewrite List.Forall_forall in Hz.
    rewrite truediv_zero; [reflexivity|].
    apply Qabs_sum_zero. split; apply Hz; assumption.
  - intros Hnz.
    assert (Hd : ~ Qabs (fst (max_point p0 l)) + Qabs (fst (min_point p0 l))
                   == 0).
    { intros E. apply Qabs_sum_zero in E as [E1 E2]. apply Hnz.
      apply List.Forall_forall. intros q Hq.
      specialize (Fmax q Hq). specialize (Fmin q Hq). lra. }
    rewrite truediv_ok by exact Hd. cbn [bind].
    cbn [length Nat.eqb].
    assert (Hlen : 0 < inject_Z (Z.of_nat (S (length l)))).
    { change 0 with (inject_Z 0). rewrite <- Zlt_Qlt. lia. }
    assert (Hax : 0 < Qabs (bg_xmax g) + Qabs (bg_xmin g)).
    { pose proof (Qabs_nonneg (bg_xmax g)). pose proof (Qabs_nonneg (bg_xmin g)).
      destruct (Qeq_dec (Qabs (bg_xmax g) + Qabs (bg_xmin g)) 0) as [E|N];
        [|lra].
      apply Qabs_sum_zero in E as [E1 E2]. exfalso. apply Hx. lra. }
    assert (Hpw : ~ inject_Z (Z.of_nat (S (length l)))
                    * (Qabs (bg_xmax g) + Qabs (bg_xmin g))
                    / (Qabs (fst (max_point p0 l)) + Qabs (fst (min_point p0 l)))
                  == 0).
    { intros E.
      assert (E' : inject_Z (Z.of_nat (S (length l)))
                   * (Qabs (bg_xmax g) + Qabs (bg_xmin g)) == 0).
      { rewrite <- (Qmult_0_l (Qabs (fst (max_point p0 l))
                               + Qabs (fst (min_point p0 l)))), <- E.
        field. exact Hd. }
      nra. }
    rewrite truediv_ok by exact Hpw. cbn [bind].
    exists (fst (max_point p0 l)), (fst (min_point p0 l)).
    split; [reflexivity|].
    split; [now apply in_map|]. split; [now apply in_map|].
    apply List.Forall_forall. intros q Hq.
    split; [now apply Fmin|now apply Fmax].
Qed.

(** ** Labels and ticks stay in step *)

Lemma in_bounds_ok {A : Type} (a : A) : in_bounds (Ok a).
Proof. discriminate. Qed.

Lemma in_bounds_bind {A B : Type} (c : result A) (f : A -> result B) :
  in_bounds c -> (forall a, c = Ok a -> in_bounds (f a)) ->
  in_bounds (bind c f).
Proof.
  unfold in_bounds. destruct c as [a|e]; cbn; [auto|congruence].
Qed.

Lemma in_bounds_truediv (a b : Q) : in_bounds (truediv a b).
Proof. unfold in_bounds, truediv. destruct (Qeq_bool b 0); discriminate. Qed.

Section LabelsInStep.

Variable log10r pow10r : Q -> Q.
Variable measure : string -> Q * Q.
Variable precision : Q -> string.

Lemma in_bounds_func (log : bool) (x : Q) : in_bounds (func log10r log x).
Proof.
  unfold in_bounds, func, log10. destruct log; [|discriminate].
  destruct (leb x 0); discriminate.
Qed.

(** [get_text] raises nothing but [IndexError]. *)
Lemma get_text_error (gl : grid_label) (log : bool) (points : list Q) (k : Z)
  (e : exn) :
  get_text pow10r precision gl log points k = Raise e -> e = IndexError.
Proof.
  assert (H : forall A (l : list A) e', getitem_z l k = Raise e' ->
                                        e' = IndexError).
  { intros A l e'. unfold getitem_z, getitem.
    destruct (_ <? 0)%Z; [now intros [= <-]|].
    destruct (l !! _); [discriminate|now intros [= <-]]. }
  unfold get_text. destruct gl as [b|f|l].
  - destruct (getitem_z points k) eqn:E; [discriminate|].
    cbn. intros [= <-]. eauto.
  - destruct (getitem_z points k) eqn:E; [discriminate|].
    cbn. intros [= <-]. eauto.
  - eauto.
Qed.

Lemma try_get_text_total (gl : grid_label) (log : bool) (points : list Q)
  (k : nat) :
  exists t, try_get_text pow10r precision gl log points k = Ok t.
Proof.
  unfold try_get_text.
  destruct (get_text pow10r precision gl log points (Z.of_nat k)) as [t|e] eqn:E;
    [eauto|].
  apply get_text_error in E as ->. eauto.
Qed.

(** [get_text(0)] and [get_text(-1)] are in range when there are ticks and
    the label specification is not empty. *)
Lemma get_text_ends (gl : grid_label) (log : bool) (points : list Q) (k : Z) :
  gl_truthy gl = true -> points <> [] -> k = 0%Z \/ k = (-1)%Z ->
  exists t, get_text pow10r precision gl log points k = Ok t.
Proof.
  intros Hgl Hp Hk.
  assert (H : forall A (l : list A), l <> [] -> exists a, getitem_z l k = Ok a).
  { intros A l Hl. unfold getitem_z, getitem. destruct Hk as [-> | ->].
    - cbn. destruct l; [contradiction|eauto].
    - cbn [Z.ltb Z.compare].
      destruct (Z.ltb_spec (Z.of_nat (length l) + -1) 0) as [Hlt|Hge].
      + destruct l; [contradiction|cbn [length] in Hlt; lia].
      + destruct (l !! Z.to_nat (Z.of_nat (length l) + -1)) eqn:E; [eauto|].
        apply lookup_ge_None in E. destruct l; [contradiction|].
        cbn [length] in *. lia. }
  unfold get_text. destruct gl as [b|f|l].
  - destruct (H _ points Hp) as [p ->]. cbn. eauto.
  - destruct (H _ points Hp) as [p ->]. cbn. eauto.
  - apply H. cbn in Hgl. destruct l; [discriminate|discriminate].
Qed.

Lemma y_text_loop_total (gl : grid_label) (log : bool) (points : list Q)
  (k : nat) (ls : list label) (y1 : Q) :
  exists ls' y1',
    y_text_loop pow10r measure precision gl log points k ls y1 = Ok (ls', y1')
    /\ length ls' = length ls.
Proof.
  revert k y1. induction ls as [|l ls IH]; intros k y1.
  - cbn. eauto.
  - cbn [y_text_loop].
    destruct (try_get_text_total gl log points k) as [[t|] ->]; cbn [bind].
    + destruct (IH (S k) (max y1 (fst (texture_size
                   (set_size (texture_update measure (set_text l t))
                      (texture_size (texture_update measure (set_text l t))))))))
        as (ls' & y1' & E & L).
      rewrite E. cbn [bind]. do 2 eexists. split; [reflexivity|].
      cbn [length]. now rewrite L.
    + eauto.
Qed.

Lemma y_pos_loop_total (points : list Q) (x_next y1 y_start ymin ratio : Q)
  (k : nat) (ls : list label) :
  (k + length ls <= length points)%nat ->
  exists ls',
    y_pos_loop points x_next y1 y_start ymin ratio k ls = Ok ls'.
Proof.
  revert k. induction ls as [|l ls IH]; intros k Hk.
  - cbn. eauto.
  - cbn [y_pos_loop length] in *.
    destruct (points !! k) as [p|] eqn:Ep.
    2:{ apply lookup_ge_None in Ep. lia. }
    rewrite (getitem_ok _ _ _ Ep). cbn [bind].
    destruct (IH (S k)) as [ls' ->]; [lia|]. cbn [bind]. eauto.
Qed.

Lemma x_loop_total (gl : grid_label) (log : bool) (points : list Q)
  (x_next y_next xmin ratio : Q) (k : nat) (ls : list label) (right : Q) :
  (k + length ls <= length points)%nat ->
  exists ls' ov,
    x_loop pow10r measure precision gl log points x_next y_next xmin ratio
      k ls right = Ok (ls', ov)
    /\ length ls' = length ls.
Proof.
  revert k right. induction ls as [|l ls IH]; intros k right Hk.
  - cbn. eauto.
  - cbn [x_loop length] in *.
    destruct (try_get_text_total gl log points k) as [t ->]. cbn [bind].
    destruct (points !! k) as [p|] eqn:Ep.
    2:{ apply lookup_ge_None in Ep. lia. }
    rewrite (getitem_ok _ _ _ Ep). cbn [bind].
    destruct (ltb _ right); [eauto|].
    match goal with
    | |- context [x_loop _ _ _ _ _ _ _ _ _ _ (S k) ls ?r] =>
        destruct (IH (S k) r) as (ls' & ov & E & L); [lia|]
    end.
    rewrite E. cbn [bind]. do 2 eexists. split; [reflexivity|].
    cbn [length]. now rewrite L.
Qed.

Lemma y_tick_labels_in_bounds (g : graph) (x_next y_next yextent : Q) :
  (length (g_y_grid_labels g) <= length (g_ticks_majory g))%nat ->
  in_bounds (y_tick_labels log10r pow10r measure precision g
               x_next y_next yextent).
Proof.
  intros Hlen. unfold y_tick_labels.
  destruct (Nat.ltb_spec 0 (length (g_y_grid_labels g))) as [Hpos|];
    [|apply in_bounds_ok].
  destruct (gl_truthy (g_y_grid_label g)) eqn:Hgl; [|apply in_bounds_ok].
  cbn [andb].
  assert (Hp : g_ticks_majory g <> []).
  { intros E. rewrite E in Hlen. cbn in Hlen. lia. }
  destruct (get_text_ends (g_y_grid_label g) (ylog (g_axes g))
              (g_ticks_majory g) 0 Hgl Hp) as [t ->]; [auto|].
  cbn [bind].
  destruct (g_y_grid_labels g) as [|l0 ls] eqn:El; [cbn in Hpos; lia|].
  cbn [getitem lookup list_lookup bind].
  apply in_bounds_bind; [apply in_bounds_func|]. intros fmin _.
  apply in_bounds_bind; [apply in_bounds_func|]. intros fmax _.
  apply in_bounds_bind; [apply in_bounds_truediv|]. intros ratio _.
  match goal with
  | |- context [y_text_loop _ _ _ ?gl ?log ?pts 0 ?l ?y] =>
      destruct (y_text_loop_total gl log pts 0 l y) as (ls' & y1' & E & L)
  end.
  rewrite E. cbn [bind].
  match goal with
  | |- context [y_pos_loop ?pts ?a ?b ?c ?d ?e 0 ls'] =>
      destruct (y_pos_loop_total pts a b c d e 0 ls') as [ls'' E']
  end.
  { rewrite L, length_insert. cbn [length] in *. lia. }
  rewrite E'. cbn [bind].
  destruct (y_overlap_test ls''); apply in_bounds_ok.
Qed.

Lemma x_tick_labels_in_bounds (g : graph) (x_next y_next xextent : Q) :
  (length (g_x_grid_labels g) <= length (g_ticks_majorx g))%nat ->
  in_bounds (x_tick_labels log10r pow10r measure precision g
               x_next y_next xextent).
Proof.
  intros Hlen. unfold x_tick_labels.
  destruct (Nat.ltb_spec 0 (length (g_x_grid_labels g))) as [Hpos|];
    [|apply in_bounds_ok].
  destruct (gl_truthy (g_x_grid_label g)) eqn:Hgl; [|apply in_bounds_ok].
  cbn [andb].
  assert (Hp : g_ticks_majorx g <> []).
  { intros E. rewrite E in Hlen. cbn in Hlen. lia. }
  destruct (get_text_ends (g_x_grid_label g) (xlog (g_axes g))
              (g_ticks_majorx g) (-1) Hgl Hp) as [t ->]; [auto|].
  cbn [bind].
  destruct (g_x_grid_labels g) as [|l0 ls] eqn:El; [cbn in Hpos; lia|].
  cbn [getitem lookup list_lookup bind].
  apply in_bounds_bind.
  { destruct (negb (truthy x_next)); [|apply in_bounds_ok].
    destruct (get_text_ends (g_x_grid_label g) (xlog (g_axes g))
                (g_ticks_majorx g) 0 Hgl Hp) as [t0 ->]; [auto|].
    apply in_bounds_ok. }
  intros [l0' x_next'] _.
  apply in_bounds_bind; [apply in_bounds_func|]. intros fmin _.
  apply in_bounds_bind; [apply in_bounds_func|]. intros fmax _.
  apply in_bounds_bind; [apply in_bounds_truediv|]. intros ratio _.
  match goal with
  | |- context [x_loop _ _ _ ?gl ?log ?pts ?a ?b ?c ?d 0 ?l ?r] =>
      destruct (x_loop_total gl log pts a b c d 0 l r) as (ls' & ov & E & L)
  end.
  { rewrite length_insert. cbn [length] in *. lia. }
  rewrite E. cbn [bind].
  apply in_bounds_bind; [|intros; apply in_bounds_ok].
  destruct (negb ov); [|apply in_bounds_ok].
  rewrite length_insert in L. cbn [length] in L.
  destruct ls' as [|l1 ls']; [discriminate|].
  cbn [getitem lookup list_lookup bind]. apply in_bounds_ok.
Qed.

(** The two label passes of [_update_labels] in sequence stay inside their
    lists. *)
Lemma update_labels_stays_in_bounds (g : graph) :
  (length (g_x_grid_labels g) <= length (g_ticks_majorx g))%nat ->
  (length (g_y_grid_labels g) <= length (g_ticks_majory g))%nat ->
  in_bounds (update_labels log10r pow10r measure precision g).
Proof.
  intros Hx Hy. unfold update_labels.
  destruct (g_xlabel_w g) as [xl|]; destruct (g_ylabel_w g) as [yl|];
    (apply in_bounds_bind; [now apply y_tick_labels_in_bounds|];
     intros [[[ylabels x_next] yextent] y_overlap] _;
     apply in_bounds_bind; [now apply x_tick_labels_in_bounds|];
     intros [[[[xlabels x_next'] y_next] xextent] x_overlap] _;
     apply in_bounds_ok).
Qed.

(** X25: with no more tick labels than major ticks on either axis,
    [_update_labels] never raises [IndexError]. *)
Theorem update_labels_in_bounds (g : graph) :
  (length (g_x_grid_labels g) <= length (g_ticks_majorx g))%nat ->
  (length (g_y_grid_labels g) <= length (g_ticks_majory g))%nat ->
  update_labels log10r pow10r measure precision g <> Raise IndexError.
Proof.
  intros Hx Hy.
  change (in_bounds (update_labels log10r pow10r measure precision g)).
  now apply update_labels_stays_in_bounds.
Qed.

End LabelsInStep.

(** ** Statements on the drawing code *)

Section DrawingStatements.

Variable log10r : Q -> Q.
Variable dp : Q -> Q.

(** X1: [get_px_bounds] returns the pixel positions of [(xmin, ymin)] and
    of [(xmax, ymax)]; the first is the lower-left corner of the viewport,
    and on a degenerate range the upper bound falls on the lower corner
    too. *)
Theorem px_bounds_are_viewport_corners (p : plot_params) :
  (p_xlog p = true -> 0 < p_xmin p /\ 0 < p_xmax p) ->
  (p_ylog p = true -> 0 < p_ymin p /\ 0 < p_ymax p) ->
  exists b,
    get_px_bounds log10r p = Ok b
    /\ (b_xmin b, b_ymin b) = point_px log10r p (p_xmin p, p_ymin p)
    /\ (b_xmax b, b_ymax b) = point_px log10r p (p_xmax p, p_ymax p)
    /\ b_xmin b == x0 (p_size p)
    /\ b_ymin b == y0 (p_size p)
    /\ (transformed log10r (p_xlog p) (p_xmax p)
        == transformed log10r (p_xlog p) (p_xmin p) ->
        b_xmax b == x0 (p_size p))
    /\ (transformed log10r (p_ylog p) (p_ymax p)
        == transformed log10r (p_ylog p) (p_ymin p) ->
        b_ymax b == y0 (p_size p)).
Proof.
  intros Hx Hy. rewrite (get_px_bounds_eval log10r p Hx Hy).
  eexists. split; [reflexivity|]. cbn [b_xmin b_xmax b_ymin b_ymax].
  split; [reflexivity|]. split; [reflexivity|].
  split; [apply px_of_min|]. split; [apply px_of_min|].
  split; intros H; now apply px_of_degenerate.
Qed.

(** X12: on a linear y axis [BarPlot.draw] draws the first 10922 points at
    most, each as two triangles that cover the rectangle from the pixel
    position of [(x, 0)] to that of [(x, y)], [bar_width] pixels wide; the
    mesh gets six vertices per bar, and its index list stays in step with
    them unless the mesh shrinks. *)
Theorem bar_draw_rectangles (p : plot_params) (w : Q) (pts : list (Q * Q))
  (m : mesh) :
  p_ylog p = false -> (p_xlog p = true -> 0 <= w) -> drawable p pts ->
  exists m',
    bar_draw log10r p w pts m = Ok m'
    /\ mode m' = "triangles"%string
    /\ (length (vertices m') / 4 = length (shown_bars pts) * 6)%nat
    /\ (Z.of_nat (length (shown_bars pts)) <= 10922)%Z
    /\ (forall k pt, shown_bars pts !! k = Some pt ->
          bar_entries (vertices m') k
          = bar_triangles
              (fst (point_px log10r p pt))
              (fst (point_px log10r p pt) + bar_width_px log10r p w)
              (snd (point_px log10r p (fst pt, 0)))
              (snd (point_px log10r p pt)))
    /\ (indexed m ->
        (length (vertices m) / 4 <= length (shown_bars pts) * 6)%nat ->
        indexed m').
Proof.
  intros Hlin Hw Hd.
  destruct (bar_draw_eval log10r p w pts m Hlin Hw Hd) as (vert & E & L & HP).
  rewrite E. eexists. split; [reflexivity|]. cbn [mode vertices indices].
  destruct (set_mesh_size_spec m (length (shown_bars pts) * 6))
    as (S1 & _ & _ & S4 & _).
  split; [reflexivity|]. split; [now rewrite L|].
  split; [apply shown_bars_length|]. split; [exact HP|].
  intros Hi Hle. unfold indexed in *. cbn [vertices indices].
  destruct (Z.ltb_spec (Z.of_nat (length (shown_bars pts) * 6))
              (Z.of_nat (length (vertices m) / 4))); [lia|].
  rewrite L. now apply S4.
Qed.

(** X13: when [BarPlot.draw] shrinks a mesh whose indices were in step with
    its vertices, it cuts the index list to one index per bar, while the
    mesh keeps six vertices per bar. *)
Theorem bar_draw_shrinks_indices_to_bars (p : plot_params) (w : Q)
  (pts : list (Q * Q)) (m : mesh) :
  p_ylog p = false -> (p_xlog p = true -> 0 <= w) -> drawable p pts ->
  indexed m ->
  (length (shown_bars pts) * 6 < length (vertices m) / 4)%nat ->
  exists m',
    bar_draw log10r p w pts m = Ok m'
    /\ (length (vertices m') / 4 = length (shown_bars pts) * 6)%nat
    /\ indices m' = range (Z.of_nat (length (shown_bars pts))).
Proof.
  intros Hlin Hw Hd Hi Hlt.
  destruct (bar_draw_eval log10r p w pts m Hlin Hw Hd) as (vert & E & L & HP).
  rewrite E. eexists. split; [reflexivity|]. cbn [vertices indices].
  destruct (set_mesh_size_spec m (length (shown_bars pts) * 6)) as (S1 & _).
  split; [now rewrite L|].
  destruct (Z.ltb_spec (Z.of_nat (length (shown_bars pts) * 6))
              (Z.of_nat (length (vertices m) / 4))); [|lia].
  rewrite Hi. apply range_take. lia.
Qed.

Lemma tick_px_px_of (log : bool) (amin amax lo hi x v : Q) :
  ~ transformed log10r log amax == transformed log10r log amin ->
  transformed log10r log v == x ->
  tick_px lo hi (transformed log10r log amin) (transformed log10r log amax) x
  == px_of log10r log amin amax lo hi v.
Proof.
  intros Hne Hv. unfold tick_px, px_of.
  assert (Ht : truthy (transformed log10r log amax
                       - transformed log10r log amin) = true)
    by (apply truthy_true; lra).
  rewrite Ht, Hv. ring.
Qed.

(** X19: [_update_ticks] fills a vertex list of the length set by
    [_redraw_all] without an [IndexError]: the border is the rectangle of
    the viewport, and the ticks are drawn one segment each, x major, x
    minor, y major, y minor, at the pixel position of the tick; major
    ticks span the viewport when the grid is on. *)
Theorem update_ticks_places_ticks (t : tick_marks) (size : viewport)
  (rect vert : list Q) :
  let a := t_axes t in
  let fxmin := transformed log10r (xlog a) (xmin a) in
  let fxmax := transformed log10r (xlog a) (xmax a) in
  let fymin := transformed log10r (ylog a) (ymin a) in
  let fymax := transformed log10r (ylog a) (ymax a) in
  let xpx := tick_px (x0 size) (x1 size) fxmin fxmax in
  let ypx := tick_px (y0 size) (y1 size) fymin fymax in
  let n1 := length (ticks_majorx t) in
  let n2 := length (ticks_minorx t) in
  let n3 := length (ticks_majory t) in
  (xlog a = true -> 0 < xmin a /\ 0 < xmax a) ->
  (ylog a = true -> 0 < ymin a /\ 0 < ymax a) ->
  (ticks_majorx t ++ ticks_minorx t <> [] -> ~ fxmax == fxmin) ->
  (ticks_majory t ++ ticks_minory t <> [] -> ~ fymax == fymin) ->
  (draw_border t = true -> (18 <= length rect)%nat) ->
  length vert = length (fresh_tick_vertices t) ->
  exists rect' vert',
    update_ticks log10r dp t size rect vert = Ok (rect', vert')
    /\ length vert' = length vert
    /\ (draw_border t = true ->
        map (fun j => rect' !! j) [0; 1; 4; 5; 8; 9; 12; 13; 16; 17]%nat
        = map Some [x0 size; y0 size; x1 size; y0 size; x1 size; y1 size;
                    x0 size; y1 size; x0 size; y0 size])
    /\ (draw_border t = false -> take 18 rect' = replicate 18 0)
    /\ (forall i x, ticks_majorx t !! i = Some x ->
          segment vert' i (xpx x) (y0 size) (xpx x)
            (if x_grid t then y1 size else dp 12 + y0 size))
    /\ (forall i x, ticks_minorx t !! i = Some x ->
          segment vert' (n1 + i) (xpx x) (y0 size) (xpx x) (dp 8 + y0 size))
    /\ (forall i y, ticks_majory t !! i = Some y ->
          segment vert' (n1 + n2 + i) (x0 size) (ypx y)
            (if y_grid t then x1 size else dp 12 + x0 size) (ypx y))
    /\ (forall i y, ticks_minory t !! i = Some y ->
          segment vert' (n1 + n2 + n3 + i) (x0 size) (ypx y)
            (dp 8 + x0 size) (ypx y)).
Proof.
  intros a fxmin fxmax fymin fymax xpx ypx n1 n2 n3 Hxd Hyd Hxr Hyr Hb Hlen.
  destruct (update_ticks_spec log10r dp t size rect vert Hxd Hyd Hxr Hyr Hb Hlen)
    as (rect' & vert' & E & Eb & L & S1 & S2 & S3 & S4).
  exists rect', vert'. split; [exact E|]. split; [exact L|].
  destruct (border_vertices_ok (draw_border t) size rect Hb) as (r & Er & Hr).
  rewrite Eb in Er. injection Er as <-.
  split; [|split].
  - intros Et. rewrite Et in Hr. tauto.
  - intros Et. rewrite Et in Hr. tauto.
  - auto.
Qed.

(** X20: a major x tick is drawn at the pixel abscissa at which the plots on
    the primary axes draw the data value of the tick. *)
Theorem major_ticks_align_with_plots (t : tick_marks) (size : viewport)
  (rect vert : list Q) (i : nat) (x v : Q) :
  let a := t_axes t in
  (xlog a = true -> 0 < xmin a /\ 0 < xmax a /\ 0 < v) ->
  (ylog a = true -> 0 < ymin a /\ 0 < ymax a) ->
  ~ transformed log10r (xlog a) (xmax a)
    == transformed log10r (xlog a) (xmin a) ->
  (ticks_majory t ++ ticks_minory t <> [] ->
   ~ transformed log10r (ylog a) (ymax a)
     == transformed log10r (ylog a) (ymin a)) ->
  (draw_border t = true -> (18 <= length rect)%nat) ->
  length vert = length (fresh_tick_vertices t) ->
  ticks_majorx t !! i = Some x ->
  transformed log10r (xlog a) v == x ->
  exists rect' vert' tx top px py,
    update_ticks log10r dp t size rect vert = Ok (rect', vert')
    /\ segment vert' i tx (y0 size) tx top
    /\ iterate_points log10r (update_plot a size) [(v, ymin a)] = Ok [(px, py)]
    /\ tx == px /\ y0 size == py.
Proof.
  intros a Hxd Hyd Hxr Hyr Hb Hlen Hi Hv.
  destruct (update_ticks_spec log10r dp t size rect vert)
    as (rect' & vert' & E & _ & _ & S1 & _); auto.
  { intros El. apply Hxd in El. tauto. }
  exists rect', vert'. do 4 eexists. split; [exact E|].
  split; [exact (S1 i x Hi)|].
  rewrite iterate_points_eval.
  2:{ split; intros El; cbn in El.
      - apply Hxd in El. repeat split; try tauto. repeat constructor. cbn. tauto.
      - apply Hyd in El. repeat split; try tauto. repeat constructor. cbn. tauto. }
  cbn [map]. split; [reflexivity|].
  unfold point_px, update_plot, update.
  cbn [p_xlog p_xmin p_xmax p_ylog p_ymin p_ymax p_size fst snd].
  split; [now apply tick_px_px_of|]. now rewrite px_of_min.
Qed.

(** X21: [_update_ticks] raises [ZeroDivisionError] when there is a major x
    tick and the x range is degenerate. *)
Theorem update_ticks_degenerate_axis (t : tick_marks) (size : viewport)
  (rect vert : list Q) :
  let a := t_axes t in
  (xlog a = true -> 0 < xmin a /\ 0 < xmax a) ->
  (ylog a = true -> 0 < ymin a /\ 0 < ymax a) ->
  (draw_border t = true -> (18 <= length rect)%nat) ->
  ticks_majorx t <> [] ->
  transformed log10r (xlog a) (xmax a) == transformed log10r (xlog a) (xmin a) ->
  update_ticks log10r dp t size rect vert = Raise ZeroDivisionError.
Proof.
  intros a Hxd Hyd Hb Hne Hdeg. unfold update_ticks. fold a.
  destruct (border_vertices_ok (draw_border t) size rect Hb) as (rect' & -> & _).
  cbn [bind].
  rewrite !func_ok by (intros E; (apply Hxd in E || apply Hyd in E); tauto).
  cbn [bind]. unfold x_tick_block at 1.
  destruct (ticks_majorx t); [congruence|]. cbn [length Nat.ltb Nat.leb].
  rewrite truediv_zero by lra. reflexivity.
Qed.

End DrawingStatements.

(** ** Redrawing *)

Lemma n_labels_le (gl : grid_label) (points_major : list Q) :
  (n_labels gl points_major <= length points_major)%nat.
Proof.
  unfold n_labels. destruct (negb (gl_truthy gl)); [lia|].
  destruct gl; lia.
Qed.

Lemma reconcile_labels_length (n : nat) (new : label) (grids : list label) :
  length (reconcile_labels n new grids) = n.
Proof.
  unfold reconcile_labels.
  rewrite length_app, length_replicate, length_take. lia.
Qed.

Lemma reconcile_labels_lookup (n : nat) (new : label) (grids : list label)
  (k : nat) :
  (k < n)%nat ->
  reconcile_labels n new grids !! k
  = Some (match grids !! k with Some l => l | None => new end).
Proof.
  intros Hk. unfold reconcile_labels.
  destruct (Nat.lt_ge_cases k (length grids)) as [Hlt|Hge].
  - rewrite lookup_app_l by (rewrite length_take; lia).
    rewrite lookup_take_lt by lia.
    destruct (grids !! k) eqn:E; [reflexivity|].
    apply lookup_ge_None in E. lia.
  - rewrite lookup_app_r by (rewrite length_take; lia).
    rewrite (proj2 (lookup_ge_None grids k)) by lia.
    apply lookup_replicate_2. rewrite length_take. lia.
Qed.

Section RedrawProperties.

Variable log10r pow10r : Q -> Q.
Variable measure : string -> Q * Q.
Variable precision : Q -> string.
Variable dp : Q -> Q.

(** X26: [_redraw_x] returns whenever [_get_ticks] returns the ticks of the x
    axis, and raises what [_get_ticks] raises.  It stores the ticks and
    leaves one label per major tick, or per entry of [x_grid_label] when
    that is a shorter sequence, and none when [x_grid_label] is false or
    empty: never more labels than major ticks.  The labels that were there
    are kept, the others are new and carry [x_ticks_angle]. *)
Theorem redraw_x_labels (fuel : nat) (w : widget) :
  let g := w_graph w in
  let ticks :=
    get_ticks log10r pow10r fuel
      (x_ticks_major (w_config w)) (x_ticks_minor (w_config w))
      (xlog (g_axes g)) (xmin (g_axes g)) (xmax (g_axes g)) in
  (forall major minor,
      ticks = Ok (Some (major, minor)) ->
      exists w',
        redraw_x log10r pow10r fuel w = Ok (Some (w', major, minor))
        /\ g_ticks_majorx (w_graph w') = major
        /\ w_ticks_minorx w' = minor
        /\ length (g_x_grid_labels (w_graph w'))
           = n_labels (g_x_grid_label g) major
        /\ (length (g_x_grid_labels (w_graph w')) <= length major)%nat
        /\ (forall k, (k < length (g_x_grid_labels (w_graph w')))%nat ->
              g_x_grid_labels (w_graph w') !! k
              = Some (match g_x_grid_labels g !! k with
                      | Some l => l
                      | None =>
                          set_angle fresh_label (x_ticks_angle (w_config w))
                      end)))
  /\ (forall e, ticks = Raise e -> redraw_x log10r pow10r fuel w = Raise e).
Proof.
  intros g ticks. subst ticks g. unfold redraw_x. split.
  - intros major minor ->. cbn [bind]. eexists. split; [reflexivity|].
    cbn [w_graph set_ticks_minorx set_graph g_ticks_majorx g_x_grid_labels
         w_ticks_minorx].
    split; [reflexivity|]. split; [reflexivity|].
    rewrite reconcile_labels_length.
    split; [reflexivity|]. split; [apply n_labels_le|].
    intros k Hk. now apply reconcile_labels_lookup.
  - intros e ->. reflexivity.
Qed.

Lemma x_tick_block_in_bounds (size : viewport) (xmin xmax top : Q)
  (xpoints : list Q) (start : nat) (vert : list Q) :
  ((start + length xpoints) * 8 <= length vert)%nat ->
  in_bounds (x_tick_block size xmin xmax top start xpoints vert)
  /\ forall v' s',
       x_tick_block size xmin xmax top start xpoints vert = Ok (v', s') ->
       length v' = length vert /\ s' = (start + length xpoints)%nat.
Proof.
  intros Hlen. unfold x_tick_block.
  destruct (0 <? length xpoints)%nat eqn:E.
  2:{ apply Nat.ltb_ge in E. split; [apply in_bounds_ok|].
      intros v' s' [= <- <-]. split; [reflexivity|lia]. }
  destruct (truediv _ _) as [ratio|e] eqn:Er;
    [|split; [unfold truediv in Er; destruct (Qeq_bool _ _); [|discriminate];
              injection Er as <-; discriminate|discriminate]].
  cbn [bind].
  destruct (x_tick_loop_spec size xmin ratio top xpoints start vert Hlen)
    as (v1 & -> & L & _).
  cbn [bind]. split; [apply in_bounds_ok|].
  intros v' s' [= <- <-]. auto.
Qed.

Lemma y_tick_block_in_bounds (size : viewport) (ymin ymax top : Q)
  (ypoints : list Q) (start : nat) (vert : list Q) :
  ((start + length ypoints) * 8 <= length vert)%nat ->
  in_bounds (y_tick_block size ymin ymax top start ypoints vert)
  /\ forall v' s',
       y_tick_block size ymin ymax top start ypoints vert = Ok (v', s') ->
       length v' = length vert /\ s' = (start + length ypoints)%nat.
Proof.
  intros Hlen. unfold y_tick_block.
  destruct (0 <? length ypoints)%nat eqn:E.
  2:{ apply Nat.ltb_ge in E. split; [apply in_bounds_ok|].
      intros v' s' [= <- <-]. split; [reflexivity|lia]. }
  destruct (truediv _ _) as [ratio|e] eqn:Er;
    [|split; [unfold truediv in Er; destruct (Qeq_bool _ _); [|discriminate];
              injection Er as <-; discriminate|discriminate]].
  cbn [bind].
  destruct (y_tick_loop_spec size ymin ratio top ypoints start vert Hlen)
    as (v1 & -> & L & _).
  cbn [bind]. split; [apply in_bounds_ok|].
  intros v' s' [= <- <-]. auto.
Qed.

Lemma update_ticks_in_bounds (t : tick_marks) (size : viewport)
  (rect vert : list Q) :
  (draw_border t = true -> (18 <= length rect)%nat) ->
  length vert = length (fresh_tick_vertices t) ->
  in_bounds (update_ticks log10r dp t size rect vert).
Proof.
  intros Hb Hlen. unfold fresh_tick_vertices in Hlen.
  rewrite length_replicate in Hlen. unfold update_ticks.
  destruct (border_vertices_ok (draw_border t) size rect Hb) as (rect' & -> & _).
  cbn [bind].
  apply in_bounds_bind; [apply in_bounds_func|]. intros fxmin _.
  apply in_bounds_bind; [apply in_bounds_func|]. intros fxmax _.
  apply in_bounds_bind; [apply in_bounds_func|]. intros fymin _.
  apply in_bounds_bind; [apply in_bounds_func|]. intros fymax _.
  match goal with
  | |- context [x_tick_block size fxmin fxmax ?top 0 (ticks_majorx t) vert] =>
      destruct (x_tick_block_in_bounds size fxmin fxmax top
                  (ticks_majorx t) 0 vert) as [B1 R1]; [lia|]
  end.
  apply in_bounds_bind; [exact B1|]. intros [v1 s1] E1.
  apply R1 in E1 as [L1 ->].
  match goal with
  | |- context [x_tick_block size fxmin fxmax ?top ?s (ticks_minorx t) v1] =>
      destruct (x_tick_block_in_bounds size fxmin fxmax top
                  (ticks_minorx t) s v1) as [B2 R2]; [lia|]
  end.
  apply in_bounds_bind; [exact B2|]. intros [v2 s2] E2.
  apply R2 in E2 as [L2 ->].
  match goal with
  | |- context [y_tick_block size fymin fymax ?top ?s (ticks_majory t) v2] =>
      destruct (y_tick_block_in_bounds size fymin fymax top
                  (ticks_majory t) s v2) as [B3 R3]; [lia|]
  end.
  apply in_bounds_bind; [exact B3|]. intros [v3 s3] E3.
  apply R3 in E3 as [L3 ->].
  match goal with
  | |- context [y_tick_block size fymin fymax ?top ?s (ticks_minory t) v3] =>
      destruct (y_tick_block_in_bounds size fymin fymax top
                  (ticks_minory t) s v3) as [B4 R4]; [lia|]
  end.
  apply in_bounds_bind; [exact B4|]. intros [v4 s4] _. apply in_bounds_ok.
Qed.

Lemma getitem_z_in_bounds {A : Type} (l : list A) (i : Z) :
  (- Z.of_nat (length l) <= i < Z.of_nat (length l))%Z ->
  exists a, getitem_z l i = Ok a.
Proof.
  intros Hi. unfold getitem_z, getitem.
  destruct (Z.ltb_spec i 0).
  - destruct (Z.ltb_spec (Z.of_nat (length l) + i) 0); [lia|].
    destruct (l !! _) eqn:E; [eauto|]. apply lookup_ge_None in E. lia.
  - destruct (Z.ltb_spec i 0); [lia|].
    destruct (l !! _) eqn:E; [eauto|]. apply lookup_ge_None in E. lia.
Qed.

Lemma get_x_axis_in_bounds (r : axis_registry) (i : Z) :
  axis_index (x_axis r) i -> in_bounds (get_x_axis r i).
Proof.
  intros Hi. unfold get_x_axis. destruct (Z.eqb_spec i 0); [apply in_bounds_ok|].
  destruct Hi as [|Hi]; [contradiction|].
  destruct (getitem_z_in_bounds (x_axis r) i Hi) as [[info|] ->];
    cbn; discriminate.
Qed.

Lemma get_y_axis_in_bounds (r : axis_registry) (i : Z) :
  axis_index (y_axis r) i -> in_bounds (get_y_axis r i).
Proof.
  intros Hi. unfold get_y_axis. destruct (Z.eqb_spec i 0); [apply in_bounds_ok|].
  destruct Hi as [|Hi]; [contradiction|].
  destruct (getitem_z_in_bounds (y_axis r) i Hi) as [[info|] ->];
    cbn; discriminate.
Qed.

Lemma in_bounds_mapM {A B : Type} (f : A -> result B) (l : list A) :
  Forall (fun a => in_bounds (f a)) l -> in_bounds (mapM f l).
Proof.
  induction 1 as [|a l Ha _ IH]; [apply in_bounds_ok|].
  cbn [mapM]. apply in_bounds_bind; [exact Ha|]. intros b _.
  apply in_bounds_bind; [exact IH|]. intros; apply in_bounds_ok.
Qed.

Lemma update_plots_in_bounds (r : axis_registry) (sz : viewport)
  (plots : list plot) :
  Forall (fun pl => axis_index (x_axis r) (pl_x_axis pl)
                    /\ axis_index (y_axis r) (pl_y_axis pl)) plots ->
  in_bounds (update_plots r sz plots).
Proof.
  intros H. unfold update_plots. apply in_bounds_mapM.
  eapply List.Forall_impl; [|exact H]. intros pl [Hx Hy]. cbn beta.
  apply in_bounds_bind; [now apply get_x_axis_in_bounds|].
  intros [[xl xmn] xmx] _.
  apply in_bounds_bind; [now apply get_y_axis_in_bounds|].
  intros [[yl ymn] ymx] _. apply in_bounds_ok.
Qed.

(** X27: once [_get_ticks] has returned the ticks of both axes,
    [_redraw_all] never raises [IndexError]: the tick labels, the major
    ticks and the vertices of the tick marks are kept in step.  The plots
    are on axes that exist. *)
Theorem redraw_all_in_bounds (fuel : nat) (w : widget) :
  let g := w_graph w in
  let c := w_config w in
  get_ticks log10r pow10r fuel (x_ticks_major c) (x_ticks_minor c)
    (xlog (g_axes g)) (xmin (g_axes g)) (xmax (g_axes g))
  <> Raise IndexError ->
  get_ticks log10r pow10r fuel (y_ticks_major c) (y_ticks_minor c)
    (ylog (g_axes g)) (ymin (g_axes g)) (ymax (g_axes g))
  <> Raise IndexError ->
  (w_draw_border w = true -> (18 <= length (w_mesh_rect w))%nat) ->
  Forall (fun pl => axis_index (w_x_axis w) (pl_x_axis pl)
                    /\ axis_index (w_y_axis w) (pl_y_axis pl)) (w_plots w) ->
  redraw_all log10r pow10r measure precision dp fuel w <> Raise IndexError.
Proof.
  intros g c Hx Hy Hb Hp.
  change (in_bounds (redraw_all log10r pow10r measure precision dp fuel w)).
  unfold redraw_all, redraw_x. fold g c.
  destruct (get_ticks log10r pow10r fuel (x_ticks_major c) (x_ticks_minor c)
              (xlog (g_axes g)) (xmin (g_axes g)) (xmax (g_axes g)))
    as [[[xmaj xmnr]|]|e] eqn:Ex; cbn [bind];
    [|apply in_bounds_ok|intros [= ->]; now apply Hx].
  unfold redraw_y.
  cbn [w_graph w_config set_ticks_minorx set_graph g_axes g_ylabel g_ylabel_w
       g_y_grid_labels g_y_grid_label].
  fold g c.
  destruct (get_ticks log10r pow10r fuel (y_ticks_major c) (y_ticks_minor c)
              (ylog (g_axes g)) (ymin (g_axes g)) (ymax (g_axes g)))
    as [[[ymaj ymnr]|]|e] eqn:Ey; cbn [bind];
    [|apply in_bounds_ok|intros [= ->]; now apply Hy].
  apply in_bounds_bind; [|intros; apply in_bounds_ok].
  unfold redraw_size.
  cbn [w_graph set_mesh_ticks set_ticks_minory set_ticks_minorx set_graph
       w_mesh_rect w_mesh_ticks vertices w_plots].
  apply in_bounds_bind.
  { apply update_labels_stays_in_bounds;
      cbn [g_x_grid_labels g_ticks_majorx g_y_grid_labels g_ticks_majory];
      rewrite reconcile_labels_length; apply n_labels_le. }
  intros lay _.
  apply in_bounds_bind.
  { apply update_ticks_in_bounds.
    - exact Hb.
    - unfold fresh_tick_vertices, marks_of.
      cbn [ticks_majorx ticks_minorx ticks_majory ticks_minory
           w_graph w_ticks_minorx w_ticks_minory g_ticks_majorx g_ticks_majory].
      reflexivity. }
  intros [rect vert] _.
  apply in_bounds_bind; [|intros; apply in_bounds_ok].
  apply update_plots_in_bounds. exact Hp.
Qed.

End RedrawProperties.

Lemma mapM_inv {A B : Type} (f : A -> result B) (l : list A) (l' : list B) :
  mapM f l = Ok l' -> Forall2 (fun a b => f a = Ok b) l l'.
Proof.
  revert l'. induction l as [|a l IH]; intros l' H.
  - cbn in H. injection H as <-. constructor.
  - cbn [mapM] in H. destruct (f a) as [b|] eqn:Ea; [|discriminate].
    cbn [bind] in H. destruct (mapM f l) as [bs|]; [|discriminate].
    cbn [bind] in H. injection H as <-. constructor; auto.
Qed.

Section OneViewport.

Variable log10r pow10r : Q -> Q.
Variable measure : string -> Q * Q.
Variable precision : Q -> string.
Variable dp : Q -> Q.

(** X28: after [_redraw_size] the plot area used by [collide_plot] and
    [to_data], the viewport of every plot and the border all are the
    rectangle returned by [_update_labels]; the points and the axes of the
    plots are kept, and the frame buffer never gets a zero size. *)
Theorem redraw_size_one_viewport (w w' : widget) :
  redraw_size log10r pow10r measure precision dp w = Ok w' ->
  exists lay,
    update_labels log10r pow10r measure precision (w_graph w) = Ok lay
    /\ w_plot_area w' = place_plot_area (o_size lay)
    /\ Forall2 (fun pl pl' =>
                  p_size (params pl') = o_size lay
                  /\ points pl' = points pl
                  /\ pl_x_axis pl' = pl_x_axis pl
                  /\ pl_y_axis pl' = pl_y_axis pl)
         (w_plots w) (w_plots w')
    /\ (w_draw_border w = true ->
        map (fun j => w_mesh_rect w' !! j)
          [0; 1; 4; 5; 8; 9; 12; 13; 16; 17]%nat
        = map Some [x0 (o_size lay); y0 (o_size lay);
                    x1 (o_size lay); y0 (o_size lay);
                    x1 (o_size lay); y1 (o_size lay);
                    x0 (o_size lay); y1 (o_size lay);
                    x0 (o_size lay); y0 (o_size lay)])
    /\ ~ fst (w_fbo_size w') == 0 /\ ~ snd (w_fbo_size w') == 0.
Proof.
  unfold redraw_size. intros H.
  destruct (update_labels _ _ _ _ _) as [lay|] eqn:El; [|discriminate].
  cbn [bind] in H.
  destruct (update_ticks _ _ _ _ _ _) as [[rect vert]|] eqn:Et; [|discriminate].
  cbn [bind] in H.
  destruct (update_plots _ _ _) as [plots|] eqn:Ep; [|discriminate].
  cbn [bind] in H. injection H as <-.
  exists lay. split; [reflexivity|].
  cbn [w_plot_area w_plots w_mesh_rect w_fbo_size].
  split; [reflexivity|]. split; [|split].
  - apply mapM_inv in Ep.
    eapply Forall2_impl; [exact Ep|]. intros pl pl' E. cbn beta in E.
    destruct (get_x_axis _ _) as [[[xl xmn] xmx]|]; [|discriminate].
    cbn [bind] in E.
    destruct (get_y_axis _ _) as [[[yl ymn] ymx]|]; [|discriminate].
    cbn [bind] in E. injection E as <-. cbn. auto.
  - intros Hb. apply update_ticks_border in Et.
    cbn [marks_of draw_border] in Et. rewrite Hb in Et.
    destruct (border_vertices_ok true (o_size lay) (w_mesh_rect w))
      as (rect' & Er & _ & Hc).
    { intros _. unfold border_vertices in Et.
      apply setitems_ok_inv in Et. rewrite List.Forall_forall in Et.
      assert (H17 : (17 < length (w_mesh_rect w))%nat); [|lia].
      apply (Et (17%nat, y0 (o_size lay))). cbn. tauto. }
    rewrite Et in Er. injection Er as <-. exact Hc.
  - split; destruct (truthy (g_width (w_graph w))) eqn:E1;
      destruct (truthy (g_height (w_graph w))) eqn:E2; cbn [andb fst snd];
      try (intros H; discriminate H).
    + now apply truthy_true in E1.
    + now apply truthy_true in E2.
Qed.

End OneViewport.

(** ** The plots of a graph *)

Lemma existsb_eqb_In (pl : nat) (plots : list nat) :
  existsb (Nat.eqb pl) plots = true <-> In pl plots.
Proof.
  rewrite existsb_exists. split.
  - intros (x & Hx & E). apply Nat.eqb_eq in E. now subst.
  - intros H. exists pl. split; [exact H|apply Nat.eqb_refl].
Qed.

Lemma list_remove_spec (pl : nat) (plots : list nat) :
  NoDup plots ->
  NoDup (list_remove pl plots)
  /\ forall q, In q (list_remove pl plots) <-> In q plots /\ q <> pl.
Proof.
  induction 1 as [|q plots Hq Hnd IH]; cbn [list_remove].
  - split; [constructor|]. intros q; cbn; tauto.
  - destruct IH as [IH1 IH2]. destruct (Nat.eqb_spec pl q) as [->|Hne].
    + split; [exact Hnd|]. intros x. cbn. split.
      * intros Hx. split; [auto|]. intros ->. apply Hq.
        now apply list_elem_of_In.
      * intros [[<-|Hx] Hne]; [contradiction|exact Hx].
    + split.
      * constructor; [|exact IH1]. intros Hin.
        apply list_elem_of_In, IH2 in Hin as [Hin _].
        apply Hq. now apply list_elem_of_In.
      * intros x. cbn. rewrite IH2. split.
        -- intros [<-|[Hx Hn]]; [split; [auto|congruence]|auto].
        -- intros [[<-|Hx] Hn]; auto.
Qed.

Lemma list_remove_snoc (pl : nat) (plots : list nat) :
  ~ In pl plots -> list_remove pl (plots ++ [pl]) = plots.
Proof.
  induction plots as [|q plots IH]; intros Hn; cbn [app list_remove].
  - now rewrite Nat.eqb_refl.
  - destruct (Nat.eqb_spec pl q) as [->|Hne]; [exfalso; apply Hn; now left|].
    f_equal. apply IH. intros H. apply Hn. now right.
Qed.

(** X29: [add_plot] and [remove_plot] keep the list of plots free of
    duplicates; adding a plot twice is adding it once, a removed plot is no
    longer in the list, and removing a plot that was just added gives the
    list back. *)
Theorem add_and_remove_plot (plots : list nat) (pl : nat) :
  NoDup plots ->
  NoDup (add_plot plots pl)
  /\ In pl (add_plot plots pl)
  /\ add_plot (add_plot plots pl) pl = add_plot plots pl
  /\ NoDup (remove_plot plots pl)
  /\ ~ In pl (remove_plot plots pl)
  /\ (~ In pl plots -> remove_plot (add_plot plots pl) pl = plots).
Proof.
  intros Hnd. unfold add_plot, remove_plot.
  destruct (existsb (Nat.eqb pl) plots) eqn:E.
  - apply existsb_eqb_In in E as Hin. cbn [negb].
    destruct (list_remove_spec pl plots Hnd) as [R1 R2].
    rewrite E. cbn [negb].
    repeat split; auto.
    + intros H. apply R2 in H as [_ H]. congruence.
    + intros H. contradiction.
  - assert (Hn : ~ In pl plots).
    { intros H. apply existsb_eqb_In in H. congruence. }
    assert (E' : existsb (Nat.eqb pl) (plots ++ [pl]) = true).
    { apply existsb_eqb_In, in_or_app. right. now left. }
    rewrite E'. cbn [negb].
    repeat split; auto.
    + apply NoDup_app. split; [exact Hnd|]. split.
      * intros x Hx Hx'. apply list_elem_of_In in Hx, Hx'.
        destruct Hx' as [<-|[]]. contradiction.
      * repeat constructor. intros H. now apply elem_of_nil in H.
    + apply in_or_app. right. now left.
    + intros _. now apply list_remove_snoc.
Qed.

(** ** Markers *)

Section MarkerProperties.

Variable log10r : Q -> Q.
Variable sqrt_half : Q.

Ltac eval_tests :=
  repeat match goal with
    | |- context [str_contains ?a ?b] =>
        let v := eval vm_compute in (str_contains a b) in
        change (str_contains a b) with v
    | |- context [String.eqb ?a ?b] =>
        let v := eval vm_compute in (String.eqb a b) in
        change (String.eqb a b) with v
    | H : context [str_contains ?a ?b] |- _ =>
        let v := eval vm_compute in (str_contains a b) in
        change (str_contains a b) with v in H
    | H : context [String.eqb ?a ?b] |- _ =>
        let v := eval vm_compute in (String.eqb a b) in
        change (String.eqb a b) with v in H
    end;
  cbv iota.

Ltac squares :=
  repeat match goal with
    | |- Forall _ [] => apply List.Forall_nil
    | |- Forall _ (_ :: _) =>
        apply List.Forall_cons;
        [unfold in_square, Qdiv; change (/ 2) with (1 # 2); cbn [fst snd];
         lra|]
    end.

Ltac draw_shape :=
  intros lw s cx cy m0 H0 H1 H2 Hm;
  assert (Hd1 : 0 <= sqrt_half * s) by nra;
  assert (Hd2 : sqrt_half * s <= s) by nra;
  destruct Hm as [(i & Ei & ->)|(s' & c' & i & Ei & Em)];
  unfold get_marker in Ei; unfold draw_marker in *; eval_tests;
  injection Ei as <-; [|injection Em as <-];
  (eexists; split; [reflexivity|]; split;
   [eexists; split;
    [unfold get_marker; eval_tests; reflexivity
    |unfold draw_marker; eval_tests; reflexivity]
   |unfold well_drawn;
    cbn [extent boxes assign_points assign_ellipse assign_pos assign_size
         assign_vertices new_marker m_points m_ellipse m_pos m_size
         m_vertices pairs vertex_positions app fst snd];
    split; [discriminate|];
    split;
    [first [intros _; left; discriminate | intros _; right; discriminate
           | intros H; exfalso; apply H; reflexivity]|];
    split; [squares|];
    repeat (apply List.Forall_cons; [reflexivity|]); apply List.Forall_nil]).

Lemma draws_well_options : Forall (draws_well sqrt_half) marker_shape_options.
Proof.
  unfold marker_shape_options. cbn [list_ascii_of_string map].
  repeat (apply List.Forall_cons; [draw_shape|]). apply List.Forall_nil.
Qed.

Lemma draws_well_In (shape : option string) :
  In shape marker_shape_options -> draws_well sqrt_half shape.
Proof.
  intros H. exact (proj1 (List.Forall_forall _ _) draws_well_options _ H).
Qed.

Lemma get_marker_option (shape : option string) (lw : Q) :
  In shape marker_shape_options -> exists i, get_marker shape lw = Success i.
Proof.
  intros H. revert shape H. apply List.Forall_forall.
  unfold marker_shape_options. cbn [list_ascii_of_string map].
  repeat (apply List.Forall_cons; [eexists; reflexivity|]).
  apply List.Forall_nil.
Qed.

(** The first loop: all markers go with [force_new], else those beyond the
    number of points. *)
Lemma remove_markers_spec (force_new : bool) (n : nat) (fuel : nat) :
  forall markers,
    (length markers < fuel)%nat ->
    remove_markers fuel force_new n markers
    = Success (Some (if force_new then [] else take n markers)).
Proof.
  induction fuel as [|fuel IH]; intros markers Hf; [lia|].
  cbn [remove_markers].
  destruct markers as [|m markers].
  - cbn. destruct n; cbn; rewrite ?andb_false_r; cbn;
      destruct force_new; reflexivity.
  - set (l := m :: markers) in *.
    assert (Hl : l <> []) by discriminate.
    assert (Hlen : (length (removelast l) = length l - 1)%nat).
    { rewrite (removelast_firstn_len l), length_take. lia. }
    destruct ((n <? length l)%nat || force_new && nonempty l) eqn:Ec.
    + unfold pop_last. subst l. cbn [attempt_bind].
      rewrite IH by (cbn [length] in *; lia).
      destruct force_new; [reflexivity|].
      rewrite andb_false_l, orb_false_r in Ec. apply Nat.ltb_lt in Ec.
      rewrite (removelast_firstn_len (m :: markers)).
      rewrite take_take. do 3 f_equal. cbn [length] in *. lia.
    + destruct force_new.
      * subst l. cbn in Ec. now rewrite orb_true_r in Ec.
      * rewrite andb_false_l, orb_false_r in Ec. apply Nat.ltb_ge in Ec.
        now rewrite take_ge by exact Ec.
Qed.

(** The second loop: new markers up to the number of points. *)
Lemma append_markers_spec (shape : option string) (lw : Q) (i : instruction)
  (n : nat) (fuel : nat) :
  get_marker shape lw = Success i ->
  forall markers,
    (n - length markers < fuel)%nat ->
    append_markers fuel shape lw n markers
    = Success (Some (markers
                     ++ replicate (n - length markers) (new_marker i))).
Proof.
  intros Ei. induction fuel as [|fuel IH]; intros markers Hf; [lia|].
  cbn [append_markers]. destruct (length markers <? n)%nat eqn:Ec.
  - apply Nat.ltb_lt in Ec. rewrite Ei. cbn [attempt_bind].
    rewrite IH by (rewrite length_app; cbn [length]; lia).
    rewrite length_app. cbn [length]. rewrite <- app_assoc.
    replace (n - length markers)%nat with (S (n - (length markers + 1)))
      by lia.
    reflexivity.
  - apply Nat.ltb_ge in Ec.
    replace (n - length markers)%nat with 0%nat by lia.
    cbn [replicate]. now rewrite app_nil_r.
Qed.

(** The third loop: every marker is drawn at its point. *)
Lemma draw_each_spec (shape : option string) (lw s : Q)
  (fx fy : Q -> result Q) (p : plot_params) :
  In shape marker_shape_options ->
  0 <= s -> 0 <= sqrt_half -> sqrt_half <= 1 ->
  forall markers points,
    Forall (new_or_made sqrt_half shape lw) markers ->
    length markers = length points ->
    Forall (fun pt => fx (fst pt) = Ok (fst (point_px log10r p pt))
                      /\ fy (snd pt) = Ok (snd (point_px log10r p pt)))
      points ->
    exists drawn,
      draw_each sqrt_half shape s fx fy markers points = Success drawn
      /\ Forall2 (fun m pt =>
                    marker_at sqrt_half shape lw s (point_px log10r p pt) m
                    /\ well_drawn shape s (point_px log10r p pt) m)
           drawn points.
Proof.
  intros Hs H0 H1 H2. induction markers as [|m markers IH];
    intros points Hm Hl Hp.
  - destruct points; [|discriminate]. exists []. split; [reflexivity|].
    constructor.
  - destruct points as [|[x y] points]; [discriminate|].
    apply Forall_cons in Hm. destruct Hm as [Hm0 Hm].
    apply Forall_cons in Hp. destruct Hp as [[Ex Ey] Hp].
    cbn [fst snd] in Ex, Ey.
    destruct (IH points Hm ltac:(cbn in Hl; lia) Hp) as (rest & Er & Fr).
    destruct (draws_well_In shape Hs lw s (fst (point_px log10r p (x, y)))
                (snd (point_px log10r p (x, y))) m H0 H1 H2 Hm0)
      as (m' & Em & Ha & Hsq).
    exists (m' :: rest). split.
    + cbn [draw_each]. rewrite Ex, Ey. cbn [lift attempt_bind].
      rewrite Em. cbn [attempt_bind]. rewrite Er. reflexivity.
    + constructor; [|exact Fr]. split; [exact Ha|exact Hsq].
Qed.

(** X30: for every value [marker_shape] accepts and every marker size the
    property allows (not negative), [draw_markers] on points in the domain
    of the axes raises nothing and leaves exactly one marker per point;
    marker [i] is what a new marker of the shape is once drawn at the pixel
    position of point [i].  Unless the shape is [None] it has geometry, and
    its points are never the constant [NotImplemented]: the positions of a
    line or mesh marker lie in the square of side [marker_size] centred at
    the point, and the box of a circle or of a filled circle or square has
    its lower-left corner at the point minus [marker_size / 2] and the sides
    [marker_size].  Markers kept from earlier calls were made for the same
    shape; with [force_new] they are all replaced. *)
Theorem draw_markers_one_marker_per_point (shape : option string)
  (lw s : Q) (force_new : bool) (p : plot_params) (points : list (Q * Q))
  (markers : list marker_t) :
  In shape marker_shape_options ->
  0 <= s ->
  0 <= sqrt_half -> sqrt_half <= 1 ->
  drawable p points ->
  (force_new = false -> Forall (made_for sqrt_half shape lw) markers) ->
  exists drawn,
    draw_markers log10r sqrt_half shape lw s force_new p points markers
    = Success (Some drawn)
    /\ length drawn = length points
    /\ forall (i : nat) m pt,
         drawn !! i = Some m -> points !! i = Some pt ->
         marker_at sqrt_half shape lw s (point_px log10r p pt) m
         /\ well_drawn shape s (point_px log10r p pt) m.
Proof.
  intros Hs H0 H1 H2 Hd Hold.
  destruct (get_marker_option shape lw Hs) as [ins Ei].
  unfold draw_markers.
  rewrite remove_markers_spec by lia. cbn [attempt_bind].
  set (kept := if force_new then [] else take (length points) markers).
  assert (Hk : Forall (made_for sqrt_half shape lw) kept).
  { subst kept. destruct force_new; [constructor|].
    apply Forall_take. now apply Hold. }
  assert (Hkl : (length kept <= length points)%nat).
  { subst kept. destruct force_new; cbn [length]; [lia|].
    rewrite length_take. lia. }
  rewrite (append_markers_spec shape lw ins) by (exact Ei || lia).
  cbn [attempt_bind].
  set (all := kept ++ replicate (length points - length kept)
                        (new_marker ins)).
  assert (Hal : length all = length points).
  { subst all. rewrite length_app, length_replicate. lia. }
  assert (Ha : Forall (new_or_made sqrt_half shape lw) all).
  { subst all. apply Forall_app. split.
    - eapply Forall_impl; [exact Hk|]. intros m Hm. now right.
    - apply Forall_replicate. left. now exists ins. }
  destruct Hd as [Hx Hy].
  destruct (x_px_eval log10r p) as (fx & Efx & Hfx);
    [intros E; apply Hx in E; tauto|].
  destruct (y_px_eval log10r p) as (fy & Efy & Hfy);
    [intros E; apply Hy in E; tauto|].
  assert (Hp : Forall (fun pt =>
                         fx (fst pt) = Ok (fst (point_px log10r p pt))
                         /\ fy (snd pt) = Ok (snd (point_px log10r p pt)))
                 points).
  { apply List.Forall_forall. intros [x y] Hin. cbn [fst snd point_px].
    split.
    - apply Hfx. intros E. destruct (Hx E) as (_ & _ & HF).
      rewrite List.Forall_forall in HF. exact (HF _ Hin).
    - apply Hfy. intros E. destruct (Hy E) as (_ & _ & HF).
      rewrite List.Forall_forall in HF. exact (HF _ Hin). }
  destruct (draw_each_spec shape lw s fx fy p Hs H0 H1 H2 all points Ha Hal Hp)
    as (drawn & Ed & Fd).
  exists drawn.
  assert (Hdl : length drawn = length points)
    by exact (Forall2_length _ _ _ Fd).
  split; [|split; [exact Hdl|]].
  - destruct all as [|m0 all'] eqn:Eall.
    + cbn [draw_each] in Ed. injection Ed as <-. reflexivity.
    + rewrite Efx, Efy. cbn [lift attempt_bind]. rewrite Ed. reflexivity.
  - intros i m pt Hi Hpt.
    exact (Forall2_lookup_lr _ _ _ _ _ _ Fd Hi Hpt).
Qed.

End MarkerProperties.

(** ** Concrete runs of the drawing code *)

(** X1: a degenerate x range [5 .. 5] over the viewport
    [(40, 5, 200, 187)]: both x bounds are the left edge. *)
Lemma px_bounds_are_viewport_corners_witness :
  exists b,
    get_px_bounds log10_whole params_flat_x = Ok b
    /\ b_xmin b == 40 /\ b_ymin b == 5 /\ b_xmax b == 40.
Proof.
  destruct (px_bounds_are_viewport_corners log10_whole params_flat_x)
    as (b & E & _ & _ & H1 & H2 & H3 & _).
  - discriminate.
  - discriminate.
  - exists b. split; [exact E|]. split; [exact H1|]. split; [exact H2|].
    apply H3. reflexivity.
Defined.





Lemma three_points_drawable : drawable params_log_y three_points.
Proof.
  split; [discriminate|]. intros _.
  split; [reflexivity|]. split; [reflexivity|].
  repeat constructor.
Defined.

Lemma three_points_drawable_linear (p : plot_params) :
  p_xlog p = false -> p_ylog p = false -> drawable p three_points.
Proof. intros Hx Hy. split; intros E; congruence. Defined.

(** X7: three points on a log y axis, drawn into a new mesh; the second
    point [(50, 1)] is drawn at pixel [(120, 5)]. *)
Lemma plot_mesh_draws_every_point_witness :
  exists m' x y,
    plot_mesh log10_whole params_log_y three_points new_mesh = Ok m'
    /\ (length (vertices m') / 4 = 3)%nat
    /\ vertices m' !! 4%nat = Some x /\ vertices m' !! 5%nat = Some y
    /\ x == 120 /\ y == 5
    /\ indexed m'.
Proof.
  destruct (plot_mesh_draws_every_point log10_whole params_log_y three_points
              new_mesh three_points_drawable) as (m' & E & L & P & I).
  destruct (P 1%nat (50, 1) eq_refl) as [P1 P2].
  exists m'. do 2 eexists.
  split; [exact E|]. split; [exact L|].
  split; [exact P1|]. split; [exact P2|].
  split; [reflexivity|]. split; [reflexivity|].
  apply I. reflexivity.
Defined.

(** X8: a stem plot on linear axes: the stem of the point [(50, 1)] goes
    from [(120, 5)] to [(120, 6.82)]. *)
Lemma stem_plot_mesh_draws_stems_witness :
  exists m' ya yb,
    stem_plot_mesh log10_whole params_linear three_points new_mesh = Ok m'
    /\ (length (vertices m') / 4 = 6)%nat
    /\ vertices m' !! 9%nat = Some ya /\ vertices m' !! 13%nat = Some yb
    /\ ya == 5 /\ yb == 682 # 100.
Proof.
  destruct (stem_plot_mesh_draws_stems log10_whole params_linear three_points
              new_mesh eq_refl
              (three_points_drawable_linear params_linear eq_refl eq_refl))
    as (m' & E & L & P & _).
  destruct (P 1%nat (50, 1) eq_refl) as (_ & P2 & _ & P4).
  exists m'. do 2 eexists.
  split; [exact E|]. split; [exact L|].
  split; [exact P2|]. split; [exact P4|].
  split; reflexivity.
Defined.

(** X9: the same plots on a log y axis. *)
Lemma stems_and_bars_fail_on_log_y_witness :
  stem_plot_mesh log10_whole params_log_y three_points new_mesh
  = Raise ValueError
  /\ bar_draw log10_whole params_log_y 1 three_points new_mesh
     = Raise ValueError.
Proof.
  apply (stems_and_bars_fail_on_log_y log10_whole params_log_y three_points
           1 new_mesh).
  reflexivity.
Defined.

(** X10: two horizontal bars on a log y axis; the second starts on the
    left edge, at pixel 40. *)
Lemma hbar_spans_viewport_witness :
  exists m' left,
    hbar_plot_mesh log10_whole params_log_y [1; 10] new_mesh = Ok m'
    /\ mode m' = "lines"%string
    /\ vertices m' !! 8%nat = Some left
    /\ left == 40.
Proof.
  destruct (hbar_spans_viewport log10_whole params_log_y [1; 10] new_mesh)
    as (m' & E & M & _ & _ & P).
  - discriminate.
  - intros _. split; [reflexivity|]. split; [reflexivity|].
    repeat constructor.
  - destruct (P 1%nat 10 eq_refl) as ((P1 & _) & P2 & _).
    exists m'. eexists. split; [exact E|]. split; [exact M|].
    split; [exact P1|exact P2].
Defined.

(** X11: two vertical bars on linear axes; the first starts on the bottom
    edge, at pixel 5. *)
Lemma vbar_spans_viewport_witness :
  exists m' bottom,
    vbar_plot_mesh log10_whole params_linear [25; 75] new_mesh = Ok m'
    /\ mode m' = "lines"%string
    /\ vertices m' !! 1%nat = Some bottom
    /\ bottom == 5.
Proof.
  destruct (vbar_spans_viewport log10_whole params_linear [25; 75] new_mesh)
    as (m' & E & M & _ & _ & P).
  - discriminate.
  - discriminate.
  - destruct (P 0%nat 25 eq_refl) as ((_ & P1 & _) & P2 & _).
    exists m'. eexists. split; [exact E|]. split; [exact M|].
    split; [exact P1|exact P2].
Defined.

(** X12: three bars of width 4 drawn into a new mesh. *)
Lemma bar_draw_rectangles_witness :
  exists m',
    bar_draw log10_whole params_linear 4 three_points new_mesh = Ok m'
    /\ mode m' = "triangles"%string
    /\ (length (vertices m') / 4 = 18)%nat
    /\ indexed m'.
Proof.
  destruct (bar_draw_rectangles log10_whole params_linear 4 three_points
              new_mesh eq_refl)
    as (m' & E & M & L & _ & _ & I).
  - discriminate.
  - apply three_points_drawable_linear; reflexivity.
  - exists m'. split; [exact E|]. split; [exact M|]. split; [exact L|].
    apply I; [reflexivity|]. cbn. lia.
Defined.

(** X13: one bar drawn into a mesh that held two: six vertices, one
    index. *)
Lemma bar_draw_shrinks_indices_to_bars_witness :
  exists m',
    bar_draw log10_whole params_linear 4 [(50, 1)] mesh_of_twelve = Ok m'
    /\ (length (vertices m') / 4 = 6)%nat
    /\ indices m' = [0%Z].
Proof.
  apply (bar_draw_shrinks_indices_to_bars log10_whole params_linear 4
           [(50, 1)] mesh_of_twelve).
  - reflexivity.
  - discriminate.
  - split; intros E; discriminate E.
  - reflexivity.
  - vm_compute. lia.
Defined.

(** X16: five points on the line [y = 2 x + 1]. *)
Lemma simplify_points_collinear_witness :
  simplify_points
    (map (fun x => (x, 2 * x + 1)) (0 :: [1; 2; 5] ++ [8]))
  = Ok (Some [(0, 2 * 0 + 1); (8, 2 * 8 + 1)]).
Proof.
  apply (simplify_points_collinear 2 1 0 8 [1; 2; 5]).
  repeat constructor; discriminate.
Defined.

(** X17: a vertical first segment. *)
Lemma simplify_points_vertical_start_witness :
  simplify_points ((3, 0) :: (3, 1) :: (4, 2) :: []) = Raise ZeroDivisionError.
Proof.
  apply (simplify_points_vertical_start (3, 0) (3, 1) (4, 2) []).
  left. reflexivity.
Defined.

(** X18: three points on the degenerate x range [5 .. 5]. *)
Lemma marker_line_fails_on_degenerate_x_witness :
  marker_line_points log10_whole params_flat_x three_points
  = Raise ZeroDivisionError.
Proof.
  apply (marker_line_fails_on_degenerate_x log10_whole params_flat_x
           three_points).
  - apply three_points_drawable_linear; reflexivity.
  - reflexivity.
  - cbn. lia.
Defined.

(** X19: three major and two minor x ticks, two major y ticks. *)
Lemma update_ticks_places_ticks_witness :
  exists rect' vert',
    update_ticks log10_whole dp_unit marks_example (Viewport 40 5 200 187)
      (replicate 20 0) (fresh_tick_vertices marks_example) = Ok (rect', vert')
    /\ length vert' = 56%nat
    /\ rect' !! 8%nat = Some 200 /\ rect' !! 9%nat = Some 187.
Proof.
  destruct (update_ticks_places_ticks log10_whole dp_unit marks_example
              (Viewport 40 5 200 187) (replicate 20 0)
              (fresh_tick_vertices marks_example))
    as (rect' & vert' & E & L & B & _).
  - discriminate.
  - discriminate.
  - intros _. discriminate.
  - intros _. discriminate.
  - intros _. cbn. lia.
  - reflexivity.
  - exists rect', vert'. split; [exact E|]. split; [exact L|].
    split.
    + exact (f_equal (fun l => nth 4 l None) (B eq_refl)).
    + exact (f_equal (fun l => nth 5 l None) (B eq_refl)).
Defined.

(** X20: the major x tick at [50]. *)
Lemma major_ticks_align_with_plots_witness :
  exists rect' vert' tx top px py,
    update_ticks log10_whole dp_unit marks_example (Viewport 40 5 200 187)
      (replicate 20 0) (fresh_tick_vertices marks_example) = Ok (rect', vert')
    /\ segment vert' 1 tx 5 tx top
    /\ iterate_points log10_whole
         (update_plot (t_axes marks_example) (Viewport 40 5 200 187))
         [(50, 0)] = Ok [(px, py)]
    /\ tx == px /\ 5 == py.
Proof.
  apply (major_ticks_align_with_plots log10_whole dp_unit marks_example
           (Viewport 40 5 200 187) (replicate 20 0)
           (fresh_tick_vertices marks_example) 1 50 50).
  - discriminate.
  - discriminate.
  - discriminate.
  - intros _. discriminate.
  - intros _. cbn. lia.
  - reflexivity.
  - reflexivity.
  - reflexivity.
Defined.

(** X21: the explicit tick [5] on the degenerate x range [5 .. 5]. *)
Lemma update_ticks_degenerate_axis_witness :
  update_ticks log10_whole dp_unit
    (TickMarks true false false (Axes false 5 5 false 0 100) [5] [] [] [])
    (Viewport 40 5 200 187) (replicate 20 0) (replicate 8 0)
  = Raise ZeroDivisionError.
Proof.
  apply (update_ticks_degenerate_axis log10_whole dp_unit
           (TickMarks true false false (Axes false 5 5 false 0 100) [5] [] [] [])
           (Viewport 40 5 200 187) (replicate 20 0) (replicate 8 0)).
  - discriminate.
  - discriminate.
  - intros _. cbn. lia.
  - discriminate.
  - reflexivity.
Defined.

(** X22: a second x axis [1 .. 1000], log, added to a new graph. *)
Lemma add_x_axis_then_get_witness :
  get_x_axis
    (fst (add_x_axis (default_registry (Axes false 0 100 false 0 100))
            1 1000 true)) 1
  = Ok (true, 1, 1000).
Proof.
  destruct (add_x_axis_then_get
              (default_registry (Axes false 0 100 false 0 100)) 1 1000 true)
    as (H & _).
  - cbn. lia.
  - exact H.
Defined.

(** X23: a plot on the primary axes and one on the added x axis. *)
Lemma plots_follow_their_axes_witness :
  exists p0 p1,
    update_plots
      (fst (add_x_axis (default_registry (Axes false 0 100 false 0 100))
              1 1000 true))
      (Viewport 40 5 200 187)
      [Plot default_params three_points 0 0;
       Plot default_params three_points 1 0]
    = Ok [p0; p1]
    /\ p_xmax (params p0) = 100 /\ p_xmax (params p1) = 1000
    /\ p_xlog (params p1) = true /\ p_ymax (params p1) = 100
    /\ p_size (params p1) = Viewport 40 5 200 187.
Proof.
  do 2 eexists. split.
  - apply (plots_follow_their_axes
             (default_registry (Axes false 0 100 false 0 100)) 1 1000 true
             (Viewport 40 5 200 187)
             [Plot default_params three_points 0 0;
              Plot default_params three_points 1 0]).
    + cbn. lia.
    + constructor; [split; [left|]; reflexivity|].
      constructor; [split; [right|]; reflexivity|]. constructor.
  - cbn. repeat split.
Defined.

(** X24: a plot on x axis 1 of a graph without secondary axes, and a plot
    on x axis -1. *)
Lemma update_plots_unknown_axis_witness :
  update_plots (default_registry (Axes false 0 100 false 0 100))
    (Viewport 40 5 200 187)
    ([Plot default_params three_points 0 0]
     ++ Plot default_params three_points 1 0 :: [])
  = Raise IndexError.
Proof.
  destruct (update_plots_unknown_axis
              (default_registry (Axes false 0 100 false 0 100))
              (Viewport 40 5 200 187)
              [Plot default_params three_points 0 0] []
              (Plot default_params three_points 1 0))
    as (H & _).
  - repeat constructor.
  - discriminate.
  - apply H. cbn. lia.
Defined.

(** X25: three y tick labels for three major y ticks. *)
Lemma update_labels_in_bounds_witness :
  update_labels log10_whole pow10_whole measure_mono precision_int
    graph_three_y_ticks <> Raise IndexError.
Proof.
  apply (update_labels_in_bounds log10_whole pow10_whole measure_mono
           precision_int graph_three_y_ticks); cbn; lia.
Defined.

(** X29: adding plot 7 to the plots 3 and 5. *)
Lemma add_and_remove_plot_witness :
  add_plot [3; 5]%nat 7 = [3; 5; 7]%nat
  /\ NoDup (add_plot [3; 5]%nat 7)
  /\ remove_plot (add_plot [3; 5]%nat 7) 7 = [3; 5]%nat.
Proof.
  destruct (add_and_remove_plot [3; 5]%nat 7) as (H1 & _ & _ & _ & _ & H6).
  - refine (bool_decide_unpack _ _). vm_compute. exact I.
  - split; [reflexivity|]. split; [exact H1|].
    apply H6. cbn. intros [H|[H|[]]]; discriminate H.
Defined.

(** X26: the first redraw of the x axis of the example graph: three major
    ticks, three new labels. *)
Lemma redraw_x_labels_witness :
  exists w',
    redraw_x log10_whole pow10_whole 0 widget_example
    = Ok (Some (w', [0; 50; 100], []))
    /\ length (g_x_grid_labels (w_graph w')) = 3%nat
    /\ g_x_grid_labels (w_graph w') !! 2%nat = Some (set_angle fresh_label 0).
Proof.
  destruct (proj1 (redraw_x_labels log10_whole pow10_whole 0 widget_example)
              [0; 50; 100] [])
    as (w' & E & _ & _ & L & _ & K).
  - vm_compute. reflexivity.
  - exists w'. split; [exact E|]. split; [exact L|].
    apply (K 2%nat). rewrite L. vm_compute. lia.
Defined.

(** X27: the first redraw of the example graph. *)
Lemma redraw_all_in_bounds_witness :
  redraw_all log10_whole pow10_whole measure_mono precision_int dp_unit 0
    widget_example <> Raise IndexError.
Proof.
  apply (redraw_all_in_bounds log10_whole pow10_whole measure_mono
           precision_int dp_unit 0 widget_example).
  - vm_compute. intros H. discriminate H.
  - vm_compute. intros H. discriminate H.
  - intros _. vm_compute. lia.
  - repeat constructor.
Defined.

(** X28: the example graph before it has ticks and labels. *)
Lemma redraw_size_one_viewport_witness :
  exists w' lay,
    redraw_size log10_whole pow10_whole measure_mono precision_int dp_unit
      widget_example = Ok w'
    /\ update_labels log10_whole pow10_whole measure_mono precision_int
         (w_graph widget_example) = Ok lay
    /\ w_plot_area w' = place_plot_area (o_size lay)
    /\ w_mesh_rect w' !! 8%nat = Some (x1 (o_size lay)).
Proof.
  let r := eval vm_compute in
             (redraw_size log10_whole pow10_whole measure_mono precision_int
                dp_unit widget_example) in
  lazymatch r with
  | Ok ?w' =>
      exists w';
      assert (E : redraw_size log10_whole pow10_whole measure_mono
                    precision_int dp_unit widget_example = Ok w')
        by (vm_compute; reflexivity);
      destruct (redraw_size_one_viewport log10_whole pow10_whole measure_mono
                  precision_int dp_unit widget_example w' E)
        as (lay & El & A & _ & B & _)
  end.
  exists lay. split; [exact E|]. split; [exact El|]. split; [exact A|].
  exact (f_equal (fun l => nth 4 l None) (B eq_refl)).
Defined.

(** X14: two points with [x = 0], and three points from [-10] to [10] on a
    graph from [0] to [100], 205 wide with padding 5. *)
Lemma update_bar_width_cases_witness :
  update_bar_width
    (BarPlot 1 1 [(0, 1); (0, 2)] (Some (BarGraph 0 100 205 5)))
  = Raise ZeroDivisionError
  /\ exists w,
       update_bar_width
         (BarPlot 1 1 [(0, 1); (10, 2); (-10, 3)]
            (Some (BarGraph 0 100 205 5)))
       = Ok (BarPlot w 1 [(0, 1); (10, 2); (-10, 3)]
               (Some (BarGraph 0 100 205 5))).
Proof.
  split.
  - destruct (update_bar_width_cases
                (BarPlot 1 1 [(0, 1); (0, 2)] (Some (BarGraph 0 100 205 5))))
      as [_ H].
    destruct (H (BarGraph 0 100 205 5) eq_refl) as [_ H2].
    destruct H2 as [H3 _]; [cbn; lia|discriminate|].
    apply H3. repeat constructor.
  - destruct (update_bar_width_cases
                (BarPlot 1 1 [(0, 1); (10, 2); (-10, 3)]
                   (Some (BarGraph 0 100 205 5)))) as [_ H].
    destruct (H (BarGraph 0 100 205 5) eq_refl) as [_ H2].
    destruct H2 as [_ H3]; [cbn; lia|discriminate|].
    destruct H3 as (hi & lo & E & _).
    + intros HF. inversion HF as [|? ? _ HF']. inversion HF' as [|? ? H10 _].
      discriminate H10.
    + eexists. exact E.
Defined.

(** X15: a zigzag of four points. *)
Lemma simplify_points_keeps_ends_witness :
  exists r,
    simplify_points [(0, 0); (1, 1); (2, 0); (3, 1)] = Ok (Some r)
    /\ head r = Some (0, 0) /\ last r = Some (3, 1) /\ (2 <= length r)%nat.
Proof.
  let r := eval vm_compute in
             (simplify_points [(0, 0); (1, 1); (2, 0); (3, 1)]) in
  lazymatch r with
  | Ok (Some ?l) =>
      exists l;
      assert (E : simplify_points [(0, 0); (1, 1); (2, 0); (3, 1)]
                  = Ok (Some l)) by (vm_compute; reflexivity);
      destruct (simplify_points_keeps_ends [(0, 0); (1, 1); (2, 0); (3, 1)])
        as [_ H];
      destruct (H l E) as (_ & H1 & H2 & _ & H3)
  end.
  split; [exact E|]. split; [exact H1|]. split; [exact H2|].
  apply H3. cbn. lia.
Defined.

(** X30: three asterisk markers of size 12 for three points, where one
    marker was there before; the second marker lies in the square of side
    12 around the pixel position of the point [(50, 1)]. *)
Lemma draw_markers_one_marker_per_point_witness :
  exists drawn m,
    draw_markers log10_whole sqrt_half_4 (Some "*"%string) (3 # 2) 12 false
      params_linear three_points [marker_example]
    = Success (Some drawn)
    /\ length drawn = 3%nat
    /\ drawn !! 1%nat = Some m
    /\ m_points m <> Some NotImplemented
    /\ Forall (in_square 12 (point_px log10_whole params_linear (50, 1)))
         (extent m).
Proof.
  destruct (draw_markers_one_marker_per_point log10_whole sqrt_half_4
              (Some "*"%string) (3 # 2) 12 false params_linear three_points
              [marker_example])
    as (drawn & E & L & P).
  - right. right. right. left. reflexivity.
  - discriminate.
  - discriminate.
  - discriminate.
  - apply three_points_drawable_linear; reflexivity.
  - intros _. constructor; [|constructor].
    exists 12, (0, 0), (Line (3 # 2) None). split; reflexivity.
  - destruct (drawn !! 1%nat) as [m|] eqn:Em.
    + exists drawn, m. split; [exact E|]. split; [exact L|].
      split; [exact Em|].
      destruct (P 1%nat m (50, 1) Em eq_refl) as (_ & N & _ & S & _).
      split; [exact N|exact S].
    + apply lookup_ge_None in Em. rewrite L in Em. cbn in Em. lia.
Defined.
